(** * Pay-Per-Thought agent: payment ledger, step scheduler, source aggregation

    A shallow embedding of
    - [contracts/X402PaymentGate.sol] (the payment ledger),
    - [contracts/test/X402PaymentGate.t.sol] (the [MockERC20] token used by
      the contract's tests),
    - [agent/executor.ts] (the step scheduler),
    - [agent/synthesizer.ts] (the result aggregator) and
    - [agent/planner.ts] (the planner),
    followed by the properties of the specification that concern them
    and by further properties of the code. *)

From Stdlib Require Import ZArith NArith QArith Qround String Ascii List Lia Lqa Bool.
From stdpp Require Import base option list gmap fin_maps strings pretty.
Import ListNotations.

#[local] Open Scope string_scope.
#[local] Open Scope N_scope.

(** ** Part I: the payment ledger ([X402PaymentGate.sol]) *)

Module Gate.

(** Solidity value types.  [uint256], [bytes32] and [address] are natural
    numbers; the bound of [uint256] is enforced where Solidity 0.8 checks
    it, i.e. at every [+] and [-]. *)
Definition address := N.
Definition bytes32 := N.
Definition uint256 := N.

Definition UINT256_MAX : N := 2 ^ 256 - 1.

(** A message call either succeeds, reverts with a reason string
    ([require]) or panics (checked arithmetic, code [0x11]).  In the last
    two cases every state change of the call is rolled back, hence the
    failing outcomes carry no state. *)
Inductive outcome (A : Type) : Type :=
| Success (a : A)
| Revert (reason : string)
| Panic (code : N).
Arguments Success {A} a.
Arguments Revert {A} reason.
Arguments Panic {A} code.

Definition is_success {A} (o : outcome A) : bool :=
  match o with Success _ => true | _ => false end.

Definition checked_add (a b : uint256) : outcome uint256 :=
  if a + b <=? UINT256_MAX then Success (a + b) else Panic 17.

Definition checked_sub (a b : uint256) : outcome uint256 :=
  if b <=? a then Success (a - b) else Panic 17.

(** *** The ERC-20 interface the gate is deployed against

    [interface IERC20] of the source.  The callee's storage is the type
    [T]; the first argument of the two mutating functions is [msg.sender]
    of the call into the token. *)
Class IERC20 (T : Type) : Type := {
  transferFrom : address -> address -> address -> uint256 -> T -> outcome (bool * T);
  transfer : address -> address -> uint256 -> T -> outcome (bool * T);
  balanceOf : address -> T -> uint256
}.

(** *** Storage *)

Record Session : Type := mkSession {
  payer : address;
  totalLocked : uint256;
  totalSpent : uint256;
  stepCount : uint256;
  settled : bool
}.

Record StepPayment : Type := mkStepPayment {
  amount : uint256;
  authorized : bool;
  confirmed : bool;
  refunded : bool
}.

(** Events of [IX402PaymentGate]. *)
Inductive Event : Type :=
| BudgetLocked (sessionId : bytes32) (payer : address) (totalAmount stepCount : uint256)
| PaymentAuthorized (sessionId stepId : bytes32) (amount : uint256)
| ExecutionConfirmed (sessionId stepId : bytes32)
| PaymentRefunded (sessionId stepId : bytes32) (amount : uint256)
| BudgetSettled (sessionId : bytes32) (totalSpent refunded : uint256).

(** The part of the chain a call to the gate can touch: the gate's own
    storage, its two immutables, its address, the event log and the
    storage of the payment token. *)
Record Chain (T : Type) : Type := mkChain {
  paymentToken : T;
  operator : address;
  this : address;
  sessions : gmap bytes32 Session;
  stepPayments : gmap bytes32 (gmap bytes32 StepPayment);
  events : list Event
}.
Arguments mkChain {T}.
Arguments paymentToken {T}.
Arguments operator {T}.
Arguments this {T}.
Arguments sessions {T}.
Arguments stepPayments {T}.
Arguments events {T}.

(** A Solidity mapping reads the zero value at a key never written. *)
Definition zeroSession : Session := mkSession 0 0 0 0 false.
Definition zeroStep : StepPayment := mkStepPayment 0 false false false.

Definition stepsOf {T} (c : Chain T) (sessionId : bytes32) : gmap bytes32 StepPayment :=
  default ∅ (stepPayments c !! sessionId).

Definition sessionAt {T} (c : Chain T) (sessionId : bytes32) : Session :=
  default zeroSession (sessions c !! sessionId).

Definition stepAt {T} (c : Chain T) (sessionId stepId : bytes32) : StepPayment :=
  default zeroStep (stepsOf c sessionId !! stepId).

Definition setSession {T} (sessionId : bytes32) (s : Session) (c : Chain T) : Chain T :=
  mkChain (paymentToken c) (operator c) (this c)
          (<[sessionId := s]> (sessions c)) (stepPayments c) (events c).

Definition setStep {T} (sessionId stepId : bytes32) (p : StepPayment) (c : Chain T) : Chain T :=
  mkChain (paymentToken c) (operator c) (this c) (sessions c)
          (<[sessionId := <[stepId := p]> (stepsOf c sessionId)]> (stepPayments c))
          (events c).

Definition setToken {T} (t : T) (c : Chain T) : Chain T :=
  mkChain t (operator c) (this c) (sessions c) (stepPayments c) (events c).

Definition addEvent {T} (e : Event) (c : Chain T) : Chain T :=
  mkChain (paymentToken c) (operator c) (this c) (sessions c) (stepPayments c)
          (events c ++ [e]).

(** *** Transactions: state passing with revert *)

Definition Tx (T A : Type) : Type := Chain T -> outcome (A * Chain T).

Definition ret {T A} (a : A) : Tx T A := fun c => Success (a, c).

Definition bind {T A B} (m : Tx T A) (k : A -> Tx T B) : Tx T B :=
  fun c => match m c with
           | Success (a, c') => k a c'
           | Revert r => Revert r
           | Panic n => Panic n
           end.

Declare Scope tx_scope.
Delimit Scope tx_scope with tx.
Notation "'let*' x := m 'in' k" := (bind m (fun x => k))
  (at level 10, x name, m at level 100, k at level 200) : tx_scope.
Notation "m ;;; k" := (bind m (fun _ => k))
  (at level 100, k at level 200, right associativity) : tx_scope.

Definition require {T} (cond : bool) (reason : string) : Tx T unit :=
  fun c => if cond then Success (tt, c) else Revert reason.

Definition reads {T A} (f : Chain T -> A) : Tx T A := fun c => Success (f c, c).

Definition writes {T} (f : Chain T -> Chain T) : Tx T unit := fun c => Success (tt, f c).

Definition lift {T A} (o : outcome A) : Tx T A :=
  fun c => match o with
           | Success a => Success (a, c)
           | Revert r => Revert r
           | Panic n => Panic n
           end.

Definition emit {T} (e : Event) : Tx T unit := writes (addEvent e).

(** External calls into the token; the caller is the gate. *)
Definition callTransferFrom {T} `{IERC20 T} (from to : address) (value : uint256) : Tx T bool :=
  fun c => match transferFrom (this c) from to value (paymentToken c) with
           | Success (ok, t') => Success (ok, setToken t' c)
           | Revert r => Revert r
           | Panic n => Panic n
           end.

Definition callTransfer {T} `{IERC20 T} (to : address) (value : uint256) : Tx T bool :=
  fun c => match transfer (this c) to value (paymentToken c) with
           | Success (ok, t') => Success (ok, setToken t' c)
           | Revert r => Revert r
           | Panic n => Panic n
           end.

Section Contract.
Context {T : Type} `{IERC20 T}.
#[local] Open Scope tx_scope.

(** *** Modifiers *)

Definition onlyOperator (sender : address) : Tx T unit :=
  let* op := reads operator in
  require (sender =? op) "X402: caller is not operator".

Definition sessionExists (sessionId : bytes32) : Tx T unit :=
  let* s := reads (fun c => sessionAt c sessionId) in
  require (negb (payer s =? 0)) "X402: session not found".

Definition sessionNotSettled (sessionId : bytes32) : Tx T unit :=
  let* s := reads (fun c => sessionAt c sessionId) in
  require (negb (settled s)) "X402: session already settled".

(** *** Core functions.  The first argument is [msg.sender]. *)

Definition lockBudget (sender : address) (sessionId : bytes32)
    (totalAmount stepCount : uint256) : Tx T unit :=
  let* s := reads (fun c => sessionAt c sessionId) in
  require (payer s =? 0) "X402: session exists" ;;;
  require (0 <? totalAmount) "X402: zero amount" ;;;
  require (0 <? stepCount) "X402: zero steps" ;;;
  let* self := reads this in
  let* ok := callTransferFrom sender self totalAmount in
  require ok "X402: transfer failed" ;;;
  writes (setSession sessionId (mkSession sender totalAmount 0 stepCount false)) ;;;
  emit (BudgetLocked sessionId sender totalAmount stepCount).

Definition authorizePayment (sender : address) (sessionId stepId : bytes32)
    (amount : uint256) : Tx T unit :=
  onlyOperator sender ;;;
  sessionExists sessionId ;;;
  sessionNotSettled sessionId ;;;
  let* session := reads (fun c => sessionAt c sessionId) in
  let* sum := lift (checked_add (totalSpent session) amount) in
  require (sum <=? totalLocked session) "X402: exceeds budget" ;;;
  let* step := reads (fun c => stepAt c sessionId stepId) in
  require (negb (authorized step)) "X402: step already authorized" ;;;
  writes (setStep sessionId stepId (mkStepPayment amount true false false)) ;;;
  emit (PaymentAuthorized sessionId stepId amount).

Definition confirmExecution (sender : address) (sessionId stepId : bytes32) : Tx T unit :=
  onlyOperator sender ;;;
  sessionExists sessionId ;;;
  sessionNotSettled sessionId ;;;
  let* step := reads (fun c => stepAt c sessionId stepId) in
  require (authorized step) "X402: step not authorized" ;;;
  require (negb (confirmed step)) "X402: already confirmed" ;;;
  require (negb (refunded step)) "X402: already refunded" ;;;
  writes (setStep sessionId stepId
            (mkStepPayment (amount step) (authorized step) true (refunded step))) ;;;
  let* session := reads (fun c => sessionAt c sessionId) in
  let* sum := lift (checked_add (totalSpent session) (amount step)) in
  writes (setSession sessionId
            (mkSession (payer session) (totalLocked session) sum
                       (stepCount session) (settled session))) ;;;
  emit (ExecutionConfirmed sessionId stepId).

Definition refund (sender : address) (sessionId stepId : bytes32) : Tx T unit :=
  onlyOperator sender ;;;
  sessionExists sessionId ;;;
  sessionNotSettled sessionId ;;;
  let* step := reads (fun c => stepAt c sessionId stepId) in
  require (authorized step) "X402: step not authorized" ;;;
  require (negb (confirmed step)) "X402: already confirmed" ;;;
  require (negb (refunded step)) "X402: already refunded" ;;;
  writes (setStep sessionId stepId
            (mkStepPayment (amount step) (authorized step) (confirmed step) true)) ;;;
  emit (PaymentRefunded sessionId stepId (amount step)).

Definition settleBudget (sender : address) (sessionId : bytes32)
    (totalSpent' : uint256) : Tx T unit :=
  onlyOperator sender ;;;
  sessionExists sessionId ;;;
  sessionNotSettled sessionId ;;;
  let* session := reads (fun c => sessionAt c sessionId) in
  require (totalSpent' <=? totalLocked session) "X402: spent exceeds locked" ;;;
  writes (setSession sessionId
            (mkSession (payer session) (totalLocked session) totalSpent'
                       (stepCount session) true)) ;;;
  let* refundAmount := lift (checked_sub (totalLocked session) totalSpent') in
  (if 0 <? refundAmount
   then let* ok := callTransfer (payer session) refundAmount in
        require ok "X402: refund transfer failed"
   else ret tt) ;;;
  (if 0 <? totalSpent'
   then let* op := reads operator in
        let* ok := callTransfer op totalSpent' in
        require ok "X402: operator transfer failed"
   else ret tt) ;;;
  emit (BudgetSettled sessionId totalSpent' refundAmount).

(** *** View functions *)

Definition getRemainingBudget (sessionId : bytes32) : Tx T uint256 :=
  let* session := reads (fun c => sessionAt c sessionId) in
  lift (checked_sub (totalLocked session) (totalSpent session)).

Definition isStepAuthorized (sessionId stepId : bytes32) : Tx T bool :=
  reads (fun c => authorized (stepAt c sessionId stepId)).

Definition isStepConfirmed (sessionId stepId : bytes32) : Tx T bool :=
  reads (fun c => confirmed (stepAt c sessionId stepId)).

(** *** Transactions sent to the gate *)

Inductive Call : Type :=
| LockBudget (sessionId : bytes32) (totalAmount stepCount : uint256)
| AuthorizePayment (sessionId stepId : bytes32) (amount : uint256)
| ConfirmExecution (sessionId stepId : bytes32)
| Refund (sessionId stepId : bytes32)
| SettleBudget (sessionId : bytes32) (totalSpent : uint256).

Definition exec (sender : address) (call : Call) : Tx T unit :=
  match call with
  | LockBudget sid a n => lockBudget sender sid a n
  | AuthorizePayment sid k a => authorizePayment sender sid k a
  | ConfirmExecution sid k => confirmExecution sender sid k
  | Refund sid k => refund sender sid k
  | SettleBudget sid a => settleBudget sender sid a
  end.

(** The chain after a transaction: a failed one changes nothing. *)
Definition transact (c : Chain T) (tx : address * Call) : Chain T :=
  match exec (fst tx) (snd tx) c with
  | Success (_, c') => c'
  | _ => c
  end.

Definition run (txs : list (address * Call)) (c : Chain T) : Chain T :=
  fold_left transact txs c.

(** The chain right after the constructor ran. *)
Definition deployed (token : T) (operator' this' : address) : Chain T :=
  mkChain token operator' this' ∅ ∅ [].

(** *** Derived notions used by the specification *)

(** The four states of a StepAuthorization, read off the three flags. *)
Inductive StepState : Type := Unauthorized | Authorized | Confirmed | Refunded.

Definition stateOf (p : StepPayment) : StepState :=
  if negb (authorized p) then Unauthorized
  else if confirmed p then Confirmed
  else if refunded p then Refunded
  else Authorized.

Definition stepState (c : Chain T) (sessionId stepId : bytes32) : StepState :=
  stateOf (stepAt c sessionId stepId).

(** Sum of the amounts of the confirmed steps of a session. *)
Definition confirmedAmount (p : StepPayment) : N :=
  if confirmed p then amount p else 0.

Definition confirmedTotal (m : gmap bytes32 StepPayment) : N :=
  map_fold (fun _ p acc => confirmedAmount p + acc) 0 m.

Definition confirmedSum (c : Chain T) (sessionId : bytes32) : N :=
  confirmedTotal (stepsOf c sessionId).

(** The edges of the StepAuthorization state machine. *)
Inductive stepMove : StepState -> StepState -> Prop :=
| move_authorize : stepMove Unauthorized Authorized
| move_confirm : stepMove Authorized Confirmed
| move_refund : stepMove Authorized Refunded.

(** The two token transfers of a settlement, as calls into the token:
    first the unspent part to the payer, then the spent part to the
    operator, each skipped when the amount is zero. *)
Definition settlementTransfers (c : Chain T) (sid : bytes32) (x : uint256) (t' : T) : Prop :=
  let s := sessionAt c sid in
  exists t1,
    (if 0 <? totalLocked s - x
     then transfer (this c) (payer s) (totalLocked s - x) (paymentToken c) = Success (true, t1)
     else t1 = paymentToken c) /\
    (if 0 <? x
     then transfer (this c) (operator c) x t1 = Success (true, t')
     else t' = t1).

(** Counting, along a sequence of transactions, the successful ones that
    satisfy [sel]. *)
Definition succeeds (c : Chain T) (tx : address * Call) : bool :=
  is_success (exec (fst tx) (snd tx) c).

Fixpoint countSuccessful (sel : Call -> bool) (txs : list (address * Call)) (c : Chain T) : nat :=
  match txs with
  | [] => 0%nat
  | tx :: rest =>
      ((if sel (snd tx) && succeeds c tx then 1 else 0)
       + countSuccessful sel rest (transact c tx))%nat
  end.

Definition isAuthorizeOf (sessionId stepId : bytes32) (call : Call) : bool :=
  match call with
  | AuthorizePayment s k _ => (s =? sessionId) && (k =? stepId)
  | _ => false
  end.

Definition isFinalizeOf (sessionId stepId : bytes32) (call : Call) : bool :=
  match call with
  | ConfirmExecution s k | Refund s k => (s =? sessionId) && (k =? stepId)
  | _ => false
  end.

(** What the bookkeeping relies on: a session that does not exist has no
    steps, a confirmed step is an authorised one, and the spend of a
    session that is not settled is the sum over its confirmed steps. *)
Record ledgerInv (c : Chain T) : Prop := {
  inv_no_steps : forall sid, payer (sessionAt c sid) = 0 -> stepsOf c sid = ∅;
  inv_confirmed : forall sid k, confirmed (stepAt c sid k) = true ->
                                authorized (stepAt c sid k) = true;
  inv_spent : forall sid, settled (sessionAt c sid) = false ->
                          totalSpent (sessionAt c sid) = confirmedSum c sid
}.

End Contract.

(** *** The token of the contract's test suite ([MockERC20])

    Only the storage and the functions the tests and the gate use. *)
Record MockERC20 : Type := mkMock {
  totalSupply : uint256;
  balances : gmap address uint256;
  allowance : gmap (address * address) uint256
}.

Definition mockBalance (t : MockERC20) (a : address) : uint256 :=
  default 0 (balances t !! a).

Definition mockAllowance (t : MockERC20) (owner spender : address) : uint256 :=
  default 0 (allowance t !! (owner, spender)).

Definition emptyMock : MockERC20 := mkMock 0 ∅ ∅.

Definition mint (to : address) (value : uint256) (t : MockERC20) : outcome MockERC20 :=
  match checked_add (mockBalance t to) value with
  | Success b =>
      match checked_add (totalSupply t) value with
      | Success s => Success (mkMock s (<[to := b]> (balances t)) (allowance t))
      | Revert r => Revert r
      | Panic n => Panic n
      end
  | Revert r => Revert r
  | Panic n => Panic n
  end.

Definition approve (sender spender : address) (value : uint256) (t : MockERC20)
    : outcome (bool * MockERC20) :=
  Success (true, mkMock (totalSupply t) (balances t)
                        (<[(sender, spender) := value]> (allowance t))).

Definition mockTransfer (sender to : address) (value : uint256) (t : MockERC20)
    : outcome (bool * MockERC20) :=
  if negb (value <=? mockBalance t sender) then Revert "Insufficient balance"
  else
    let t1 := mkMock (totalSupply t)
                     (<[sender := mockBalance t sender - value]> (balances t))
                     (allowance t) in
    match checked_add (mockBalance t1 to) value with
    | Success b => Success (true, mkMock (totalSupply t1) (<[to := b]> (balances t1))
                                         (allowance t1))
    | Revert r => Revert r
    | Panic n => Panic n
    end.

Definition mockTransferFrom (sender from to : address) (value : uint256) (t : MockERC20)
    : outcome (bool * MockERC20) :=
  if negb (value <=? mockBalance t from) then Revert "Insufficient balance"
  else if negb (value <=? mockAllowance t from sender) then Revert "Insufficient allowance"
  else
    let t1 := mkMock (totalSupply t) (balances t)
                     (<[(from, sender) := mockAllowance t from sender - value]> (allowance t)) in
    let t2 := mkMock (totalSupply t1)
                     (<[from := mockBalance t1 from - value]> (balances t1))
                     (allowance t1) in
    match checked_add (mockBalance t2 to) value with
    | Success b => Success (true, mkMock (totalSupply t2) (<[to := b]> (balances t2))
                                         (allowance t2))
    | Revert r => Revert r
    | Panic n => Panic n
    end.

#[export] Instance MockERC20_IERC20 : IERC20 MockERC20 := {
  transferFrom := mockTransferFrom;
  transfer := mockTransfer;
  balanceOf := fun a t => mockBalance t a
}.

(** The fixture of [X402PaymentGateTest.setUp]: operator [0xBEEF], payer
    [0xCAFE], the payer funded and the gate approved.  The amounts of the
    test suite are scaled down (the suite uses multiples of [1e17]). *)
Definition theOperator : address := 48879.
Definition thePayer : address := 51966.
Definition theGate : address := 4919.

Definition fundedToken : MockERC20 :=
  match mint thePayer 100 emptyMock with
  | Success t =>
      match approve thePayer theGate 100 t with
      | Success (_, t') => t'
      | _ => emptyMock
      end
  | _ => emptyMock
  end.

Definition setUp : Chain MockERC20 := deployed fundedToken theOperator theGate.

(** Transactions of the test fixture used below: session [1] with a budget
    of [5] and two steps [10] and [11] of [3] each. *)
Definition lock5 : address * Call := (thePayer, LockBudget 1 5 2).
Definition authorizeA : address * Call := (theOperator, AuthorizePayment 1 10 3).
Definition authorizeB : address * Call := (theOperator, AuthorizePayment 1 11 3).
Definition confirmA : address * Call := (theOperator, ConfirmExecution 1 10).
Definition confirmB : address * Call := (theOperator, ConfirmExecution 1 11).
Definition refundA : address * Call := (theOperator, Refund 1 10).

(** The statement of C2 as the specification words it. *)
Definition spentIsConfirmedSum {T} `{IERC20 T} (c : Chain T) (sid : bytes32) : Prop :=
  totalSpent (sessionAt c sid) = confirmedSum c sid.

(** *** Further vocabulary for properties of the gate *)

Section ContractMore.
Context {T : Type} `{IERC20 T}.

(** The session a call is aimed at. *)
Definition targetSession (call : Call) : bytes32 :=
  match call with
  | LockBudget s _ _ | AuthorizePayment s _ _ | ConfirmExecution s _
  | Refund s _ | SettleBudget s _ => s
  end.

(** The calls guarded by [onlyOperator]. *)
Definition operatorOnly (call : Call) : bool :=
  match call with LockBudget _ _ _ => false | _ => true end.

(** The calls the scheduler sends for one step: the authorisation, then
    the confirmation when the tool succeeded and the refund when it did
    not. *)
Definition roundCalls (op : address) (sessionId : bytes32)
    (round : bytes32 * uint256 * bool) : list (address * Call) :=
  let '(stepId, amount', succeeded) := round in
  [(op, AuthorizePayment sessionId stepId amount');
   (op, if succeeded then ConfirmExecution sessionId stepId else Refund sessionId stepId)].

Definition schedulerCalls (op : address) (sessionId : bytes32)
    (rounds : list (bytes32 * uint256 * bool)) : list (address * Call) :=
  concat (map (roundCalls op sessionId) rounds).

(** A session between two steps of the scheduler: within budget, no
    authorisation outstanding. *)
Definition quiescent (c : Chain T) (sessionId : bytes32) : Prop :=
  totalSpent (sessionAt c sessionId) <= totalLocked (sessionAt c sessionId) /\
  totalLocked (sessionAt c sessionId) <= UINT256_MAX /\
  forall stepId, stepState c sessionId stepId <> Authorized.

(** The flags read by [isStepAuthorized] and [isStepConfirmed]: from
    deployment on, a confirmed or refunded step is an authorised one and
    no step is both confirmed and refunded. *)
Record flagsInv (c : Chain T) : Prop := {
  flags_confirmed : forall sid k, confirmed (stepAt c sid k) = true ->
                                  authorized (stepAt c sid k) = true;
  flags_refunded : forall sid k, refunded (stepAt c sid k) = true ->
                                 authorized (stepAt c sid k) = true;
  flags_exclusive : forall sid k, confirmed (stepAt c sid k) = true ->
                                  refunded (stepAt c sid k) = false
}.

(** The event a call emits when it succeeds in state [c]. *)
Definition eventOf (c : Chain T) (sender : address) (call : Call) : Event :=
  match call with
  | LockBudget s a n => BudgetLocked s sender a n
  | AuthorizePayment s k a => PaymentAuthorized s k a
  | ConfirmExecution s k => ExecutionConfirmed s k
  | Refund s k => PaymentRefunded s k (amount (stepAt c s k))
  | SettleBudget s x => BudgetSettled s x (totalLocked (sessionAt c s) - x)
  end.

(** The events of the transactions of [txs] that succeed, from [c] on. *)
Fixpoint logged (txs : list (address * Call)) (c : Chain T) : list Event :=
  match txs with
  | [] => []
  | tx :: rest =>
      (if succeeds c tx then [eventOf c (fst tx) (snd tx)] else [])
      ++ logged rest (transact c tx)
  end.

End ContractMore.

(** Why [lockBudget] reverts against [MockERC20], in the order the
    checks are made; [None] when none of them fails. *)
Definition lockRejection (c : Chain MockERC20) (sender : address) (sessionId : bytes32)
    (totalAmount stepCount' : uint256) : option string :=
  if negb (payer (sessionAt c sessionId) =? 0) then Some "X402: session exists"
  else if totalAmount =? 0 then Some "X402: zero amount"
  else if stepCount' =? 0 then Some "X402: zero steps"
  else if mockBalance (paymentToken c) sender <? totalAmount then Some "Insufficient balance"
  else if mockAllowance (paymentToken c) sender (this c) <? totalAmount
       then Some "Insufficient allowance"
  else None.

(** The tokens the gate owes to sessions that are still open. *)
Definition openLocked (s : Session) : N := if settled s then 0 else totalLocked s.

Definition escrowed {T} (c : Chain T) : N :=
  map_fold (fun _ s acc => openLocked s + acc) 0 (sessions c).

(** No transaction of the list is sent by [a]. *)
Definition neverFrom (a : address) (txs : list (address * Call)) : Prop :=
  Forall (fun tx => fst tx <> a) txs.

End Gate.

(** ** Part II: the agent ([agent/types.ts], [agent/executor.ts],
    [agent/synthesizer.ts]) *)

Module Agent.

#[local] Open Scope Z_scope.

(** *** JavaScript values and effects *)

Definition nl : string := String (ascii_of_nat 10) EmptyString.
Definition dq : string := String (ascii_of_nat 34) EmptyString.

(** Values of type [unknown]: what [JSON.parse] and the tool clients
    produce.  [JUndefined] is the value of an absent property. *)
#[local] Set Warnings "-register-all".
Inductive JSON : Type :=
| JUndefined
| JNull
| JBool (b : bool)
| JNum (q : Q)
| JStr (s : string)
| JArr (items : list JSON)
| JObj (fields : list (string * JSON)).

(** A [number].  The only non-finite value that can arise is the one
    produced by adding [undefined] (a key absent from a table), [NaN]. *)
Inductive number : Type := Num (q : Q) | NaN.

Definition plus (a b : number) : number :=
  match a, b with
  | Num x, Num y => Num (x + y)
  | _, _ => NaN
  end.

Definition isEmpty (s : string) : bool :=
  match s with EmptyString => true | _ => false end.

(** [s || d] on strings: the empty string is falsy. *)
Definition orElse (s d : string) : string := if isEmpty s then d else s.

(** An evaluation either returns or throws; a thrown value is represented
    by the message of [error instanceof Error ? error.message : String(error)]. *)
Inductive completion (A : Type) : Type :=
| Return (a : A)
| Throw (message : string).
Arguments Return {A} a.
Arguments Throw {A} message.

(** Effectful code over a state [S]: mutations made before a [throw]
    persist. *)
Definition Eff (S A : Type) : Type := S -> completion A * S.

Definition pure {S A} (a : A) : Eff S A := fun s => (Return a, s).

Definition throw {S A} (message : string) : Eff S A := fun s => (Throw message, s).

Definition andThen {S A B} (m : Eff S A) (k : A -> Eff S B) : Eff S B :=
  fun s => match m s with
           | (Return a, s') => k a s'
           | (Throw e, s') => (Throw e, s')
           end.

Definition tryCatch {S A} (body : Eff S A) (handler : string -> Eff S A) : Eff S A :=
  fun s => match body s with
           | (Return a, s') => (Return a, s')
           | (Throw e, s') => handler e s'
           end.

Declare Scope js_scope.
Delimit Scope js_scope with js.
Notation "'const' x <- m ; k" := (andThen m (fun x => k))
  (at level 10, x name, m at level 100, k at level 200) : js_scope.
Notation "m ;; k" := (andThen m (fun _ => k))
  (at level 100, k at level 200, right associativity) : js_scope.

(** *** [types.ts] *)

(** [ToolType] is a union of four string literals; at run time a plan
    can carry any string. *)
Definition ToolType : Type := string.

Record AnthropicConfig : Type := { model : string; max_tokens : Z }.
Record TavilyConfig : Type := { search_depth : string; max_results : Z }.
Record RpcConfig : Type := { chain_id : Z; method : string; params : list JSON }.

Record ToolConfig : Type := {
  cfg_anthropic : option AnthropicConfig;
  cfg_tavily : option TavilyConfig;
  cfg_blockchain_rpc : option RpcConfig
}.

Record Step : Type := {
  id : string;
  index : Z;
  description : string;
  tool : ToolType;
  tool_config : ToolConfig;
  estimated_cost_usd : Q;
  depends_on : list string
}.

Inductive Status : Type := completed | failed | skipped | payment_denied.

#[export] Instance Status_eq_dec : EqDecision Status.
Proof. solve_decision. Defined.

Record StepResult : Type := {
  step_id : string;
  r_index : Z;
  status : Status;
  r_tool : ToolType;
  output : JSON;
  actual_cost_usd : number;
  duration_ms : Z;
  payment_tx_hash : option string;
  error : option string;
  sources : list string;
  timestamp : string
}.

Record ExecutionPlan : Type := {
  session_id : string;
  query : string;
  steps : list Step;
  step_count : Z;
  total_estimated_cost : Q;
  max_budget : Q;
  created_at : string
}.

Record PaymentAuthorization : Type := {
  pa_step_id : string;
  amount_usd : Q;
  pa_authorized : bool;
  tx_hash : option string;
  pa_error : option string
}.

Record BudgetStatus : Type := {
  bs_session_id : string;
  total_locked : Q;
  total_spent : number;
  remaining : number;
  steps_completed : Z;
  steps_remaining : Z
}.

Record SourceReference : Type := {
  url : string;
  title : string;
  relevance : string;
  accessed_at : string
}.

Record SynthesisResult : Type := {
  answer : JSON;
  confidence : JSON;
  key_findings : list JSON;
  assumptions : JSON;
  limitations : JSON;
  sr_sources : list SourceReference;
  total_cost_usd : number;
  steps_executed : Z;
  steps_total : Z;
  was_halted : bool
}.

Inductive AgentStatus : Type :=
| st_planning | st_awaiting_payment | st_executing | st_completed | st_halted | st_error.

Record AgentResponse : Type := {
  ar_status : AgentStatus;
  ar_session_id : string;
  ar_query : string;
  current_step : string;
  estimated_remaining_budget : Q;
  ar_plan : option ExecutionPlan;
  actions : list StepResult;
  results : option SynthesisResult;
  ar_sources : list string;
  notes : string;
  ar_timestamp : string
}.

(** [COST_PER_TOOL[tool]]; a key outside the table reads [undefined],
    which [NaN] stands for. *)
Definition COST_PER_TOOL (t : ToolType) : number :=
  if String.eqb t "anthropic" then Num (8 # 100)
  else if String.eqb t "tavily" then Num (1 # 100)
  else if String.eqb t "blockchain_rpc" then Num (1 # 1000)
  else if String.eqb t "reasoning" then Num (5 # 100)
  else NaN.

(** *** Encoding helpers *)

Definition hexDigit (n : N) : ascii :=
  match n with
  | 0%N => "0" | 1%N => "1" | 2%N => "2" | 3%N => "3" | 4%N => "4" | 5%N => "5"
  | 6%N => "6" | 7%N => "7" | 8%N => "8" | 9%N => "9" | 10%N => "a" | 11%N => "b"
  | 12%N => "c" | 13%N => "d" | 14%N => "e" | _ => "f"
  end%char.

(** [Buffer.from(s).toString("hex")] on the bytes of [s]. *)
Fixpoint toHex (s : string) : string :=
  match s with
  | EmptyString => EmptyString
  | String c rest =>
      let n := N_of_ascii c in
      String (hexDigit (n / 16)) (String (hexDigit (n mod 16)) (toHex rest))
  end.

Fixpoint zeros (n : nat) : string :=
  match n with O => EmptyString | S m => String "0"%char (zeros m) end.

(** [s.padEnd(len, "0")]. *)
Definition padEnd0 (s : string) (len : nat) : string :=
  (s ++ zeros (len - String.length s))%string.

Definition hashStepId (stepId : string) : string :=
  ("0x" ++ padEnd0 (toHex stepId) 64)%string.

Definition showZ (z : Z) : string := pretty z.

(** *** The outside world

    Everything the agent reaches through the network or the clock.  [W]
    is the state of that world. *)

Record ContentBlock : Type := { block_type : string; block_text : string }.

Record MessageRequest : Type := {
  req_model : string;
  req_max_tokens : Z;
  req_system : string;
  req_user : string
}.

Record TavilyHit : Type := {
  hit_title : string; hit_url : string; hit_content : string; hit_score : Q
}.

(** [data] of the search response; [tv_results = None] is a missing or
    falsy [data.results]. *)
Record TavilyData : Type := { tv_answer : JSON; tv_results : option (list TavilyHit) }.

(** [data] of a JSON-RPC response; [rpc_error] holds [data.error.message]
    when [data.error] is truthy. *)
Record RpcData : Type := { rpc_error : option string; rpc_result : JSON }.

Record Response (B : Type) : Type := {
  ok : bool;
  http_status : Z;
  statusText : string;
  json : completion B
}.
Arguments ok {B}.
Arguments http_status {B}.
Arguments statusText {B}.
Arguments json {B}.

Record World (W : Type) : Type := {
  Date_now : W -> Z * W;
  toISOString : W -> string * W;
  messages_create : MessageRequest -> W -> completion (list ContentBlock) * W;
  fetch_tavily : JSON -> W -> completion (Response TavilyData) * W;
  fetch_rpc : string -> JSON -> W -> completion (Response RpcData) * W;
  (** [callContract(method, args, sessionId)].  The body in the source is
      a placeholder for the on-chain call ([callContractStub] below); the
      scheduler is modelled over any behaviour of the call. *)
  callContract : string -> list JSON -> string -> W -> completion string * W;
  (** Pure functions of the platform. *)
  JSON_stringify : JSON -> string;
  JSON_stringify_pretty : JSON -> string;
  JSON_parse : string -> option JSON;
  match_fence : string -> option string;
  trim : string -> string;
  (** [new URL(s).hostname]; [None] when the constructor throws. *)
  URL_hostname : string -> option string
}.
Arguments Date_now {W}.
Arguments toISOString {W}.
Arguments messages_create {W}.
Arguments fetch_tavily {W}.
Arguments fetch_rpc {W}.
Arguments callContract {W}.
Arguments JSON_stringify {W}.
Arguments JSON_stringify_pretty {W}.
Arguments JSON_parse {W}.
Arguments match_fence {W}.
Arguments trim {W}.
Arguments URL_hostname {W}.

(** The placeholder body of [callContract] in the source: it logs and
    returns a hash made from the clock; it never throws. *)
Definition callContractStub {W} (clock : W -> Z * W)
    (method' : string) (args : list JSON) (sessionId : string)
    : W -> completion string * W :=
  fun w => let (t, w') := clock w in (Return ("0x" ++ toHex (showZ t))%string, w').

(** A world whose [callContract] is the placeholder of the source. *)
Definition withStub {W} (env : World W) : World W :=
  {| Date_now := Date_now env; toISOString := toISOString env;
     messages_create := messages_create env; fetch_tavily := fetch_tavily env;
     fetch_rpc := fetch_rpc env; callContract := callContractStub (Date_now env);
     JSON_stringify := JSON_stringify env;
     JSON_stringify_pretty := JSON_stringify_pretty env;
     JSON_parse := JSON_parse env; match_fence := match_fence env; trim := trim env;
     URL_hostname := URL_hostname env |}.

(** *** [executor.ts] *)

Record ExecutorConfig : Type := {
  anthropicApiKey : string;
  tavilyApiKey : string;
  rpcUrl : string;
  x402ContractAddress : string;
  privateKey : string
}.

(** The fields of an [Executor] instance. *)
Record Executor : Type := mkExecutor {
  config : ExecutorConfig;
  stepResults : list StepResult;
  totalSpent : number
}.

(** [new Executor(config)]. *)
Definition newExecutor (cfg : ExecutorConfig) : Executor := mkExecutor cfg [] (Num 0).

(** An executor together with the world it runs in. *)
Record Machine (W : Type) : Type := mkMachine { self : Executor; world : W }.
Arguments mkMachine {W}.
Arguments self {W}.
Arguments world {W}.

Record RunResult : Type := {
  run_results : list StepResult;
  run_totalSpent : number;
  run_halted : bool
}.

Record ToolOutput : Type := { data : JSON; out_sources : list string }.

Definition zeroAddress : string := "0x0000000000000000000000000000000000000000".

(** [config.x402ContractAddress && config.x402ContractAddress !== "0x00..0"]. *)
Definition onChain (cfg : ExecutorConfig) : bool :=
  negb (isEmpty (x402ContractAddress cfg))
  && negb (String.eqb (x402ContractAddress cfg) zeroAddress).

Section Scheduler.
Context {W : Type} (env : World W).
#[local] Open Scope js_scope.

Definition M (A : Type) : Type := Eff (Machine W) A.

(** Calls into the world. *)
Definition now : M Z :=
  fun m => let (t, w) := Date_now env (world m) in (Return t, mkMachine (self m) w).

Definition isoNow : M string :=
  fun m => let (t, w) := toISOString env (world m) in (Return t, mkMachine (self m) w).

Definition io {A} (f : W -> completion A * W) : M A :=
  fun m => let (r, w) := f (world m) in (r, mkMachine (self m) w).

Definition this : M Executor := fun m => (Return (self m), m).

(** [this.stepResults.push(r)]. *)
Definition push (r : StepResult) : M unit :=
  fun m => (Return tt,
            mkMachine (mkExecutor (config (self m)) (stepResults (self m) ++ [r])
                                  (totalSpent (self m)))
                      (world m)).

(** [this.totalSpent += cost]. *)
Definition spend (cost : number) : M unit :=
  fun m => (Return tt,
            mkMachine (mkExecutor (config (self m)) (stepResults (self m))
                                  (plus (totalSpent (self m)) cost))
                      (world m)).

(** [tryParseJSON]: the body of a code fence if there is one, else the
    whole text, trimmed and parsed; [null] when parsing throws. *)
Definition tryParseJSON (text : string) : JSON :=
  let jsonStr := match match_fence env text with
                 | Some body => trim env body
                 | None => trim env text
                 end in
  match JSON_parse env jsonStr with
  | Some v => v
  | None => JNull
  end.

Definition truthy (v : JSON) : bool :=
  match v with
  | JUndefined | JNull => false
  | JBool b => b
  | JNum q => negb (Qeq_bool q 0)
  | JStr s => negb (isEmpty s)
  | JArr _ | JObj _ => true
  end.

Definition isCompleted (r : StepResult) : bool := bool_decide (status r = completed).

Fixpoint join (sep : string) (l : list string) : string :=
  match l with
  | [] => EmptyString
  | [x] => x
  | x :: rest => (x ++ sep ++ join sep rest)%string
  end.

Definition analystPrompt : string :=
  "You are a research analyst. Provide factual, concise answers backed by evidence. If using data from context, cite which step provided it.".

Definition replyFormat : string :=
  ("Respond with a JSON object: { " ++ dq ++ "analysis" ++ dq ++ ": " ++ dq ++ "your analysis"
   ++ dq ++ ", " ++ dq ++ "confidence" ++ dq ++ ": " ++ dq ++ "high|medium|low" ++ dq ++ ", "
   ++ dq ++ "key_points" ++ dq ++ ": [" ++ dq ++ "point1" ++ dq ++ ", " ++ dq ++ "point2"
   ++ dq ++ "] }")%string.

Definition executeAnthropic (step : Step) (plan : ExecutionPlan) : M ToolOutput :=
  const ex <- this ;
  let context :=
    join (nl ++ nl)
      (map (fun r => "[Step " ++ showZ (r_index r) ++ "]: " ++ JSON_stringify env (output r))
           (filter (fun r => isCompleted r = true) (stepResults ex)))%string in
  let model' := match cfg_anthropic (tool_config step) with
                | Some c => orElse (model c) "claude-sonnet-4-20250514"
                | None => "claude-sonnet-4-20250514"
                end in
  let maxTokens := match cfg_anthropic (tool_config step) with
                   | Some c => if max_tokens c =? 0 then 1024 else max_tokens c
                   | None => 1024
                   end in
  let content :=
    ("Research query: " ++ dq ++ query plan ++ dq ++ nl ++ nl
     ++ "Your task for this step: " ++ description step ++ nl ++ nl
     ++ (if isEmpty context then "No prior context available."
         else "Context from previous steps:" ++ nl ++ context)
     ++ nl ++ nl ++ replyFormat)%string in
  const response <- io (messages_create env
                          {| req_model := model'; req_max_tokens := maxTokens;
                             req_system := analystPrompt; req_user := content |}) ;
  match response with
  | [] => throw "Cannot read properties of undefined (reading 'type')"
  | block :: _ =>
      let text := if String.eqb (block_type block) "text" then block_text block
                  else EmptyString in
      let parsed := tryParseJSON text in
      pure {| data := if truthy parsed then parsed else JObj [("raw_text", JStr text)];
              out_sources := [("anthropic:" ++ model')%string] |}
  end.

Definition executeTavily (step : Step) : M ToolOutput :=
  const ex <- this ;
  let searchDepth := match cfg_tavily (tool_config step) with
                     | Some c => orElse (search_depth c) "advanced"
                     | None => "advanced"
                     end in
  let maxResults := match cfg_tavily (tool_config step) with
                    | Some c => if max_results c =? 0 then 5 else max_results c
                    | None => 5
                    end in
  const response <- io (fetch_tavily env
      (JObj [("api_key", JStr (tavilyApiKey (config ex)));
             ("query", JStr (description step));
             ("search_depth", JStr searchDepth);
             ("max_results", JNum (inject_Z maxResults));
             ("include_answer", JBool true);
             ("include_raw_content", JBool false)])) ;
  if negb (ok response)
  then throw ("Tavily API error: " ++ showZ (http_status response) ++ " "
              ++ statusText response)%string
  else
    const data' <- io (fun w => (json response, w)) ;
    let hits := default [] (tv_results data') in
    pure {| data := JObj [("answer", tv_answer data');
                          ("results",
                           JArr (map (fun r => JObj [("title", JStr (hit_title r));
                                                     ("url", JStr (hit_url r));
                                                     ("snippet", JStr (hit_content r));
                                                     ("relevance_score", JNum (hit_score r))])
                                     hits))];
            out_sources := map hit_url hits |}.

Definition executeBlockchainRPC (step : Step) : M ToolOutput :=
  const ex <- this ;
  let method' := match cfg_blockchain_rpc (tool_config step) with
                 | Some c => orElse (method c) "eth_call"
                 | None => "eth_call"
                 end in
  let params' := match cfg_blockchain_rpc (tool_config step) with
                 | Some c => params c
                 | None => []
                 end in
  const response <- io (fetch_rpc env (rpcUrl (config ex))
      (JObj [("jsonrpc", JStr "2.0"); ("id", JNum 1);
             ("method", JStr method'); ("params", JArr params')])) ;
  if negb (ok response)
  then throw ("RPC error: " ++ showZ (http_status response) ++ " "
              ++ statusText response)%string
  else
    const data' <- io (fun w => (json response, w)) ;
    match rpc_error data' with
    | Some message => throw ("RPC call failed: " ++ message)%string
    | None =>
        pure {| data := rpc_result data';
                out_sources := [("rpc:" ++ rpcUrl (config ex) ++ ":" ++ method')%string] |}
    end.

Definition executeTool (step : Step) (plan : ExecutionPlan) : M ToolOutput :=
  if String.eqb (tool step) "anthropic" || String.eqb (tool step) "reasoning"
  then executeAnthropic step plan
  else if String.eqb (tool step) "tavily" then executeTavily step
  else if String.eqb (tool step) "blockchain_rpc" then executeBlockchainRPC step
  else throw ("Unknown tool: " ++ tool step)%string.

(** [authorizePayment].  The local [remaining] of the source is computed
    and never read; no comparison with a budget takes place in either
    branch.  [console.log] has no effect on the state modelled here. *)
Definition authorizePayment (step : Step) (sessionId : string) : M PaymentAuthorization :=
  let remaining := if Qle_bool (estimated_cost_usd step) 0 then 0%Q
                   else estimated_cost_usd step in
  const ex <- this ;
  tryCatch
    (if onChain (config ex)
     then
       let stepIdHash := hashStepId (id step) in
       let amountWei := Qfloor (estimated_cost_usd step * 1000000) in
       const txHash <- io (callContract env "authorizePayment"
                             [JStr stepIdHash; JNum (inject_Z amountWei)] sessionId) ;
       pure {| pa_step_id := id step; amount_usd := estimated_cost_usd step;
               pa_authorized := true; tx_hash := Some txHash; pa_error := None |}
     else
       const t <- now ;
       pure {| pa_step_id := id step; amount_usd := estimated_cost_usd step;
               pa_authorized := true;
               tx_hash := Some ("sim_" ++ showZ t ++ "_" ++ id step)%string;
               pa_error := None |})
    (fun message =>
       pure {| pa_step_id := id step; amount_usd := estimated_cost_usd step;
               pa_authorized := false; tx_hash := None; pa_error := Some message |}).

Definition confirmPayment (stepId sessionId : string) : M unit :=
  const ex <- this ;
  if onChain (config ex)
  then const _ <- io (callContract env "confirmExecution" [JStr (hashStepId stepId)] sessionId) ;
       pure tt
  else pure tt.

Definition refundPayment (stepId sessionId : string) : M unit :=
  const ex <- this ;
  if onChain (config ex)
  then const _ <- io (callContract env "refund" [JStr (hashStepId stepId)] sessionId) ;
       pure tt
  else pure tt.

(** How one iteration of the [for] loop of [executeAll] ends. *)
Inductive LoopExit : Type := Next | Break.

Definition deniedResult (step : Step) (payment : PaymentAuthorization) (ts : string)
    : StepResult :=
  {| step_id := id step; r_index := index step; status := payment_denied;
     r_tool := tool step; output := JNull; actual_cost_usd := Num 0; duration_ms := 0;
     payment_tx_hash := None;
     error := Some (orElse (default EmptyString (pa_error payment))
                           "x402 payment authorization denied");
     sources := []; timestamp := ts |}.

Definition completedResult (step : Step) (payment : PaymentAuthorization)
    (out : ToolOutput) (cost : number) (duration : Z) (ts : string) : StepResult :=
  {| step_id := id step; r_index := index step; status := completed;
     r_tool := tool step; output := data out; actual_cost_usd := cost;
     duration_ms := duration; payment_tx_hash := tx_hash payment; error := None;
     sources := out_sources out; timestamp := ts |}.

Definition failedResult (step : Step) (payment : PaymentAuthorization)
    (message : string) (duration : Z) (ts : string) : StepResult :=
  {| step_id := id step; r_index := index step; status := failed;
     r_tool := tool step; output := JNull; actual_cost_usd := Num 0;
     duration_ms := duration; payment_tx_hash := tx_hash payment; error := Some message;
     sources := []; timestamp := ts |}.

(** The body of the loop, for one [step]. *)
Definition executeStep (plan : ExecutionPlan) (step : Step) : M LoopExit :=
  const payment <- authorizePayment step (session_id plan) ;
  if negb (pa_authorized payment)
  then
    const ts <- isoNow ;
    push (deniedResult step payment ts) ;;
    pure Break
  else
    const startTime <- now ;
    tryCatch
      (const out <- executeTool step plan ;
       const t <- now ;
       let duration := t - startTime in
       let actualCost := COST_PER_TOOL (tool step) in
       spend actualCost ;;
       const ts <- isoNow ;
       push (completedResult step payment out actualCost duration ts) ;;
       confirmPayment (id step) (session_id plan))
      (fun message =>
       const t <- now ;
       let duration := t - startTime in
       const ts <- isoNow ;
       push (failedResult step payment message duration ts) ;;
       refundPayment (id step) (session_id plan)) ;;
    pure Next.

(** [for (const step of plan.steps) { ... }]; the result is [halted]. *)
Fixpoint forEachStep (plan : ExecutionPlan) (remaining : list Step) : M bool :=
  match remaining with
  | [] => pure false
  | step :: rest =>
      const exit <- executeStep plan step ;
      match exit with
      | Break => pure true
      | Next => forEachStep plan rest
      end
  end.

Definition executeAll (plan : ExecutionPlan) : M RunResult :=
  const halted <- forEachStep plan (steps plan) ;
  const ex <- this ;
  pure {| run_results := stepResults ex; run_totalSpent := totalSpent ex;
          run_halted := halted |}.

Definition countCompleted (rs : list StepResult) : Z :=
  Z.of_nat (length (filter (fun r => isCompleted r = true) rs)).

Definition minus (a b : number) : number :=
  match a, b with
  | Num x, Num y => Num (x - y)
  | _, _ => NaN
  end.

Definition getBudgetStatus (plan : ExecutionPlan) : M BudgetStatus :=
  const ex <- this ;
  pure {| bs_session_id := session_id plan;
          total_locked := total_estimated_cost plan;
          total_spent := totalSpent ex;
          remaining := minus (Num (max_budget plan)) (totalSpent ex);
          steps_completed := countCompleted (stepResults ex);
          steps_remaining := step_count plan - countCompleted (stepResults ex) |}.

End Scheduler.

(** *** [synthesizer.ts] *)

(** **** Strings *)

Definition code (c : ascii) : N := N_of_ascii c.

Definition isDigit (c : ascii) : bool := ((48 <=? code c) && (code c <=? 57))%N.

Definition isLower (c : ascii) : bool := ((97 <=? code c) && (code c <=? 122))%N.

Fixpoint allChars (p : ascii -> bool) (s : string) : bool :=
  match s with
  | EmptyString => true
  | String c r => p c && allChars p r
  end.

(** [(before, Some after)] at the first character satisfying [p]. *)
Fixpoint splitAt (p : ascii -> bool) (s : string) : string * option string :=
  match s with
  | EmptyString => (EmptyString, None)
  | String c r =>
      if p c then (EmptyString, Some r)
      else let (a, b) := splitAt p r in (String c a, b)
  end.

(** [s.split(sep)] for a separator of one character. *)
Fixpoint splitOn (sep : ascii) (s : string) : list string :=
  match s with
  | EmptyString => [EmptyString]
  | String c rest =>
      if Ascii.eqb c sep then EmptyString :: splitOn sep rest
      else match splitOn sep rest with
           | first :: others => String c first :: others
           | [] => [String c EmptyString]
           end
  end.

(** What is left of [s] after the prefix [p]. *)
Fixpoint stripPrefix (p s : string) : option string :=
  match p, s with
  | EmptyString, _ => Some s
  | String a p', String b s' => if Ascii.eqb a b then stripPrefix p' s' else None
  | String _ _, EmptyString => None
  end.

Fixpoint lastChar (s : string) : option ascii :=
  match s with
  | EmptyString => None
  | String c EmptyString => Some c
  | String _ r => lastChar r
  end.

(** **** What is known of [new URL(s).hostname]

    The URL constructor belongs to the platform; it is a parameter of
    the model, the field [URL_hostname] of the world.  [knownHostname]
    holds the two cases the properties below rely on, and is silent
    ([None]) on every other string:
    - a string without a colon has no scheme, and the constructor
      throws ([Some None]);
    - [http://] or [https://], then a host made of labels separated by
      single dots, each label of lower-case letters, digits and inner
      hyphens, none beginning with [xn--] and the last one beginning
      with a letter, then the end of the string or a path, a query or a
      fragment: the host name is that host. *)

Definition isAlnum (c : ascii) : bool := isLower c || isDigit c.

Definition plainLabel (l : string) : bool :=
  match l with
  | EmptyString => false
  | String c _ =>
      isAlnum c
      && allChars (fun x => isAlnum x || (code x =? 45)%N) l
      && match lastChar l with Some z => isAlnum z | None => false end
      && negb (String.prefix "xn--" l)
  end.

Definition plainHost (h : string) : bool :=
  let labels := splitOn "." h in
  forallb plainLabel labels
  && match last labels with
     | Some (String c _) => isLower c
     | _ => false
     end.

Definition endsHost (c : ascii) : bool :=
  ((code c =? 47) || (code c =? 63) || (code c =? 35))%N.

Definition knownHostname (s : string) : option (option string) :=
  if allChars (fun c => negb (code c =? 58)%N) s then Some None
  else
    let afterScheme := match stripPrefix "https://" s with
                       | Some r => Some r
                       | None => stripPrefix "http://" s
                       end in
    match afterScheme with
    | Some r => let host := fst (splitAt endsHost r) in
                if plainHost host then Some (Some host) else None
    | None => None
    end.

(** A world whose URL constructor behaves as the platform's does on
    the strings [knownHostname] speaks of. *)
Definition conforming {W} (env : World W) : Prop :=
  forall s r, knownHostname s = Some r -> URL_hostname env s = r.

(** **** The aggregator *)

(** [[...new Set(sources)]]: the distinct strings, each at its first
    occurrence. *)
Fixpoint uniqueFrom (seen : list string) (l : list string) : list string :=
  match l with
  | [] => []
  | x :: rest =>
      if bool_decide (x ∈ seen) then uniqueFrom seen rest
      else x :: uniqueFrom (x :: seen) rest
  end.

Definition setToArray (l : list string) : list string := uniqueFrom [] l.

(** Property access [v.key] on a parsed value. *)
Fixpoint lookupField (key : string) (fields : list (string * JSON)) : JSON :=
  match fields with
  | [] => JUndefined
  | (k, v) :: rest => if String.eqb k key then v else lookupField key rest
  end.

Definition prop {S} (v : JSON) (key : string) : Eff S JSON :=
  match v with
  | JUndefined => throw ("Cannot read properties of undefined (reading '" ++ key ++ "')")
  | JNull => throw ("Cannot read properties of null (reading '" ++ key ++ "')")
  | JObj fields => pure (lookupField key fields)
  | _ => pure JUndefined
  end%string.

Definition orJSON (v d : JSON) : JSON := if truthy v then v else d.

(** [xs.map(f)] with an effectful [f], left to right. *)
Fixpoint mapM {S A B} (f : A -> Eff S B) (l : list A) : Eff S (list B) :=
  match l with
  | [] => pure []
  | x :: rest =>
      andThen (f x) (fun y => andThen (mapM f rest) (fun ys => pure (y :: ys)))
  end.

Section Synthesizer.
Context {W : Type} (env : World W).
#[local] Open Scope js_scope.

(** The fields of a [Synthesizer] instance besides the client. *)
Definition defaultModel : string := "claude-sonnet-4-20250514".

Definition clock : Eff W string :=
  fun w => let (t, w') := toISOString env w in (Return t, w').

Definition isUrl (source : string) : bool := String.prefix "http" source.

(** The callback of [unique.map] in [deduplicateSources]. *)
Definition sourceReference (source : string) : Eff W SourceReference :=
  const title' <- (if isUrl source
                   then match URL_hostname env source with
                        | Some h => pure h
                        | None => throw "Invalid URL"
                        end
                   else pure source) ;
  const ts <- clock ;
  pure {| url := if isUrl source then source else EmptyString;
          title := title'; relevance := "primary"; accessed_at := ts |}.

Definition deduplicateSources (sources' : list string) : Eff W (list SourceReference) :=
  mapM sourceReference (setToArray sources').

Definition parseJSON (text : string) : JSON :=
  let jsonStr := match match_fence env text with
                 | Some body => trim env body
                 | None => trim env text
                 end in
  match JSON_parse env jsonStr with
  | Some v => v
  | None => JObj [("answer", JStr text); ("confidence", JStr "low");
                  ("key_findings", JArr []);
                  ("assumptions", JArr [JStr "Failed to parse structured response"]);
                  ("limitations", JArr [JStr "Output was not structured JSON"])]
  end.

Definition synthesisPrompt : string :=
  String.concat nl
    ["You are a research synthesis engine. Given evidence from multiple research steps, produce a comprehensive answer.";
     EmptyString;
     "You must output ONLY valid JSON matching this exact schema:";
     "{";
     String.concat dq ["  "; "answer"; ": "; "Comprehensive answer to the research query"; ","];
     String.concat dq ["  "; "confidence"; ": "; "high"; " | "; "medium"; " | "; "low"; ","];
     String.concat dq ["  "; "key_findings"; ": ["];
     "    {";
     String.concat dq ["      "; "claim"; ": "; "A specific finding"; ","];
     String.concat dq ["      "; "evidence"; ": "; "Supporting evidence"; ","];
     String.concat dq ["      "; "source"; ": "; "Where this came from"; ","];
     String.concat dq ["      "; "confidence"; ": "; "high"; " | "; "medium"; " | "; "low";
                       EmptyString];
     "    }";
     "  ],";
     String.concat dq ["  "; "assumptions"; ": ["; "Any assumptions made"; "],"];
     String.concat dq ["  "; "limitations"; ": ["; "Any limitations of the analysis"; "]"];
     "}";
     EmptyString;
     "Rules:";
     "- Base everything on the provided evidence";
     "- Clearly separate facts from inference";
     "- If data is incomplete (execution was halted), state this";
     "- Be concise but comprehensive"].

Definition keyFinding (f : JSON) : Eff W JSON :=
  const claim <- prop f "claim" ;
  const evidence <- prop f "evidence" ;
  const source <- prop f "source" ;
  const conf <- prop f "confidence" ;
  pure (JObj [("claim", claim); ("evidence", evidence); ("source", source);
              ("confidence", orJSON conf (JStr "medium"))]).

Definition synthesize (model' : string) (query' : string) (stepResults' : list StepResult)
    (totalSpent' : number) (wasHalted : bool) (sessionId : string) : Eff W AgentResponse :=
  let completedSteps := filter (fun r => isCompleted r = true) stepResults' in
  let evidence :=
    join (nl ++ nl ++ "---" ++ nl ++ nl)
      (map (fun r => "### Step " ++ showZ (r_index r) ++ " (" ++ r_tool r ++ "):" ++ nl
                     ++ JSON_stringify_pretty env (output r) ++ nl
                     ++ "Sources: " ++ join ", " (sources r))
           completedSteps)%string in
  let allSources := concat (map sources completedSteps) in
  const response <- messages_create env
      {| req_model := model'; req_max_tokens := 2048; req_system := synthesisPrompt;
         req_user :=
           ("Research query: " ++ dq ++ query' ++ dq ++ nl ++ nl
            ++ (if wasHalted
                then "⚠️ EXECUTION WAS HALTED DUE TO BUDGET CONSTRAINTS. Results are partial."
                     ++ nl ++ nl
                else EmptyString)
            ++ "Evidence from " ++ showZ (Z.of_nat (length completedSteps))
            ++ " completed steps:" ++ nl ++ nl ++ evidence)%string |} ;
  match response with
  | [] => throw "Cannot read properties of undefined (reading 'type')"
  | block :: _ =>
      let text := if String.eqb (block_type block) "text" then block_text block
                  else EmptyString in
      let synthesis := parseJSON text in
      const sourceRefs <- deduplicateSources allSources ;
      const answer' <- prop synthesis "answer" ;
      const confidence' <- prop synthesis "confidence" ;
      const findings <- prop synthesis "key_findings" ;
      const findings' <- match orJSON findings (JArr []) with
                         | JArr items => mapM keyFinding items
                         | _ => throw "(intermediate value).map is not a function"
                         end ;
      const assumptions' <- prop synthesis "assumptions" ;
      const limitations' <- prop synthesis "limitations" ;
      let synthesisResult :=
        {| answer := orJSON answer' (JStr "Unable to synthesize results");
           confidence := orJSON confidence' (JStr "low");
           key_findings := findings';
           assumptions := orJSON assumptions' (JArr []);
           limitations := orJSON limitations' (JArr []);
           sr_sources := sourceRefs;
           total_cost_usd := totalSpent';
           steps_executed := Z.of_nat (length completedSteps);
           steps_total := Z.of_nat (length stepResults');
           was_halted := wasHalted |} in
      const ts <- clock ;
      pure {| ar_status := if wasHalted then st_halted else st_completed;
              ar_session_id := sessionId;
              ar_query := query';
              current_step := if wasHalted
                              then ("Halted at step "
                                    ++ showZ (Z.of_nat (length stepResults')))%string
                              else "synthesis_complete";
              estimated_remaining_budget := 0;
              ar_plan := None;
              actions := stepResults';
              results := Some synthesisResult;
              ar_sources := allSources;
              notes := if wasHalted
                       then "Execution halted due to budget exhaustion. Results are partial."
                       else ("Research completed. "
                             ++ showZ (Z.of_nat (length completedSteps))
                             ++ " steps executed.")%string;
              ar_timestamp := ts |}
  end.

End Synthesizer.

(** *** Vocabulary of the scheduler properties *)

Section SchedulerSpec.
Context {W : Type} (env : World W).

(** An operation that leaves the fields of the executor as they are. *)
Definition keepsSelf {A} (f : Eff (Machine W) A) : Prop :=
  forall m, self (snd (f m)) = self m.


(** The machine after [this.stepResults.push(...)] of [rs] and a change
    of [totalSpent], in the world [w]. *)
Definition after (m : Machine W) (rs : list StepResult) (spent : number) (w : W) : Machine W :=
  mkMachine (mkExecutor (config (self m)) (stepResults (self m) ++ rs) spent) w.


(** The [catch] block followed by the end of the iteration. *)
Definition catchBlock (plan : ExecutionPlan) (step : Step) (p : PaymentAuthorization) (startTime : Z) (message : string)
    : Eff (Machine W) LoopExit :=
  andThen
    (andThen (now env) (fun t =>
     andThen (isoNow env) (fun ts =>
     andThen (push (failedResult step p message (t - startTime) ts)) (fun _ =>
     refundPayment env (id step) (session_id plan)))))
    (fun _ => pure Next).


(** The cost of the completed results of [rs], added to [start] in the
    order of the list. *)
Definition spentOn (rs : list StepResult) (start : number) : number :=
  fold_left plus (map actual_cost_usd (filter (fun r => isCompleted r = true) rs)) start.

End SchedulerSpec.

(** The tools [executeTool] dispatches on. *)
Definition knownTool (t : ToolType) : bool :=
  String.eqb t "anthropic" || String.eqb t "reasoning" || String.eqb t "tavily"
  || String.eqb t "blockchain_rpc".

(** *** Vocabulary of the aggregator properties *)

(** The title [deduplicateSources] gives a source, [None] when the URL
    constructor throws. *)
Definition titleOf {W} (env : World W) (source : string) : option string :=
  if isUrl source then URL_hostname env source else Some source.

(** The entry made for one source: the URL and host name of a source
    that begins with [http], the raw string as title otherwise. *)
Definition entryFor {W} (env : World W) (source : string) (e : SourceReference) : Prop :=
  url e = (if isUrl source then source else EmptyString) /\
  titleOf env source = Some (title e) /\
  relevance e = "primary".

(** The provenance list of Scenario D. *)
Definition scenarioD : list string :=
  ["https://a.com/x"; "https://a.com/y"; "internal-note"].

(** *** A small world for running the scheduler

    The clock ticks at every reading; the model replies with an empty
    JSON object, the search finds one page, and the RPC endpoint answers
    500.  The behaviour of the contract call is a parameter. *)
Definition demoWorld (contract : string -> list JSON -> string -> Z -> completion string * Z)
    : World Z :=
  {| Date_now := fun w => (w, w + 1);
     toISOString := fun w => (("T" ++ showZ w)%string, w + 1);
     messages_create := fun _ w =>
       (Return [{| block_type := "text"; block_text := "{}" |}], w);
     fetch_tavily := fun _ w =>
       (Return {| ok := true; http_status := 200; statusText := "OK";
                  json := Return {| tv_answer := JStr "found";
                                    tv_results := Some [{| hit_title := "A page";
                                                           hit_url := "https://a.com/x";
                                                           hit_content := "text";
                                                           hit_score := 1 |}] |} |}, w);
     fetch_rpc := fun _ _ w =>
       (Return {| ok := false; http_status := 500; statusText := "Internal Server Error";
                  json := Throw "Unexpected end of JSON input" |}, w);
     callContract := contract;
     JSON_stringify := fun _ => "{}";
     JSON_stringify_pretty := fun _ => "{}";
     JSON_parse := fun s => if String.eqb s "{}" then Some (JObj []) else None;
     match_fence := fun _ => None;
     trim := fun s => s;
     URL_hostname := fun s => default None (knownHostname s) |}.

(** One call of the payment contract: method, arguments, session. *)
Definition ContractCall : Type := (string * list JSON * string)%type.

Definition lifted {W L A} (f : W -> A * W) : W * L -> A * (W * L) :=
  fun s => let (a, w) := f (fst s) in (a, (w, snd s)).

(** [env] with a log of the contract calls it was asked to make, in the
    order they were made. *)
Definition recording {W} (env : World W) : World (W * list ContractCall) :=
  {| Date_now := lifted (Date_now env);
     toISOString := lifted (toISOString env);
     messages_create := fun req => lifted (messages_create env req);
     fetch_tavily := fun body => lifted (fetch_tavily env body);
     fetch_rpc := fun u body => lifted (fetch_rpc env u body);
     callContract := fun method' args sessionId s =>
       let (r, w) := callContract env method' args sessionId (fst s) in
       (r, (w, (snd s ++ [(method', args, sessionId)])%list));
     JSON_stringify := JSON_stringify env;
     JSON_stringify_pretty := JSON_stringify_pretty env;
     JSON_parse := JSON_parse env;
     match_fence := match_fence env;
     trim := trim env;
     URL_hostname := URL_hostname env |}.

(** The placeholder contract call of the source, on the demo clock. *)
Definition stubContract : string -> list JSON -> string -> Z -> completion string * Z :=
  callContractStub (fun w => (w, w + 1)).

(** A contract call that reverts the authorisation of one step. *)
Definition denying (stepId : string)
    : string -> list JSON -> string -> Z -> completion string * Z :=
  fun method' args sessionId w =>
    if String.eqb method' "authorizePayment"
    then match args with
         | JStr h :: _ =>
             if String.eqb h (hashStepId stepId)
             then (Throw "execution reverted: X402: exceeds budget", w)
             else stubContract method' args sessionId w
         | _ => stubContract method' args sessionId w
         end
    else stubContract method' args sessionId w.

Definition noToolConfig : ToolConfig :=
  {| cfg_anthropic := None; cfg_tavily := None; cfg_blockchain_rpc := None |}.

Definition demoStep (i : Z) (tool' : ToolType) (cost : Q) : Step :=
  {| id := ("step_" ++ showZ i)%string; index := i; description := "work";
     tool := tool'; tool_config := noToolConfig; estimated_cost_usd := cost;
     depends_on := [] |}.

Definition demoPlan (budget : Q) (steps' : list Step) : ExecutionPlan :=
  {| session_id := "session"; query := "q"; steps := steps';
     step_count := Z.of_nat (length steps');
     total_estimated_cost := 0; max_budget := budget; created_at := "T" |}.

(** Scenario B of the specification: budget 0.5, three steps of 0.3. *)
Definition scenarioB : ExecutionPlan :=
  demoPlan (5 # 10) [demoStep 0 "anthropic" (3 # 10); demoStep 1 "tavily" (3 # 10);
                     demoStep 2 "reasoning" (3 # 10)].

Definition demoConfig (contractAddress : string) : ExecutorConfig :=
  {| anthropicApiKey := "k"; tavilyApiKey := "k"; rpcUrl := "http://rpc";
     x402ContractAddress := contractAddress; privateKey := "k" |}.

Definition simulated : ExecutorConfig := demoConfig EmptyString.
Definition deployedGate : ExecutorConfig :=
  demoConfig "0x00000000000000000000000000000000000000aa".

Definition fresh (cfg : ExecutorConfig) : Machine Z := mkMachine (newExecutor cfg) 0.

(** *** Further vocabulary for properties of the scheduler *)

(** A result that describes [step]: identity, tool, and per status the
    cost, error and provenance fields the scheduler fills in. *)
Definition resultOf (step : Step) (r : StepResult) : Prop :=
  step_id r = id step /\ r_index r = index step /\ r_tool r = tool step /\
  match status r with
  | completed =>
      actual_cost_usd r = COST_PER_TOOL (tool step) /\ knownTool (tool step) = true /\
      error r = None
  | failed =>
      actual_cost_usd r = Num 0 /\ is_Some (error r) /\ sources r = [] /\ output r = JNull
  | payment_denied =>
      actual_cost_usd r = Num 0 /\ is_Some (error r) /\ sources r = [] /\ output r = JNull /\
      payment_tx_hash r = None /\ duration_ms r = 0
  | skipped => False
  end.

(** The results of one step: one, or two when the step completed and its
    confirmation then threw. *)
Definition groupOf (step : Step) (g : list StepResult) : Prop :=
  Forall (resultOf step) g /\
  match map status g with
  | [completed] | [failed] | [payment_denied] | [completed; failed] => True
  | _ => False
  end.

(** The text a [payment_denied] result carries for a thrown message. *)
Definition denialText (message : string) : string :=
  orElse message "x402 payment authorization denied".

(** The table cost of the tools of the completed results of [rs], added
    to [start] in the order of the list. *)
Definition tableSpend (rs : list StepResult) (start : number) : number :=
  fold_left plus
    (map (fun r => COST_PER_TOOL (r_tool r)) (filter (fun r => isCompleted r = true) rs))
    start.

(** A run without payment contract that stops before the first step. *)
Definition emptyPlan : ExecutionPlan := demoPlan 0 [].

(** A contract call whose confirmations revert; every other call is the
    placeholder of the source. *)
Definition unconfirming : string -> list JSON -> string -> Z -> completion string * Z :=
  fun method' args sessionId w =>
    if String.eqb method' "confirmExecution"
    then (Throw "execution reverted: X402: step not authorized", w)
    else stubContract method' args sessionId w.

(** A plan of two searches. *)
Definition twoSearches : ExecutionPlan :=
  demoPlan 1 [demoStep 0 "tavily" (1 # 100); demoStep 1 "tavily" (1 # 100)].

(** No byte of the string is zero. *)
Fixpoint noNul (s : string) : bool :=
  match s with
  | EmptyString => true
  | String c rest => negb (N.eqb (N_of_ascii c) 0) && noNul rest
  end.

(** The demo world with a model that replies [text], which [JSON.parse]
    reads as [parsed] ([None] when it throws). *)
Definition replying (text : string) (parsed : option JSON) : World Z :=
  let d := demoWorld stubContract in
  {| Date_now := Date_now d;
     toISOString := toISOString d;
     messages_create := fun _ w =>
       (Return [{| block_type := "text"; block_text := text |}], w);
     fetch_tavily := fetch_tavily d;
     fetch_rpc := fetch_rpc d;
     callContract := callContract d;
     JSON_stringify := JSON_stringify d;
     JSON_stringify_pretty := JSON_stringify_pretty d;
     JSON_parse := fun s => if String.eqb s text then parsed else None;
     match_fence := match_fence d;
     trim := trim d;
     URL_hostname := URL_hostname d |}.

(** The fields of a synthesis result that come from the reply of the
    model. *)
Definition replyFields (r : SynthesisResult) : JSON * JSON * list JSON * JSON * JSON :=
  (answer r, confidence r, key_findings r, assumptions r, limitations r).

(** One completed search result, as the scheduler records it. *)
Definition searchResult (i : Z) (urls : list string) : StepResult :=
  {| step_id := ("step_" ++ showZ i)%string; r_index := i; status := completed;
     r_tool := "tavily"; output := JNull; actual_cost_usd := Num (1 # 100);
     duration_ms := 1; payment_tx_hash := None; error := None; sources := urls;
     timestamp := "T" |}.

(** ** The planner ([agent/planner.ts])

    [generatePlan] asks the model to decompose a query, gives every step
    of the reply an id, a validated tool, the table cost of that tool and
    resolved dependencies, and cuts the list to fit the budget. *)

Module Planner.

(** The operations of JavaScript numbers the planner uses, on the
    numbers the rationals denote. *)
Record Float64 : Type := {
  fadd : Q -> Q -> Q;
  fsub : Q -> Q -> Q;
  fgt : Q -> Q -> bool;
  fge : Q -> Q -> bool
}.

(** What the planner reaches besides the model client, [JSON.parse] and
    the clock: [uuidv4()]; the conversion of a value to a string in a
    template literal; [s.slice(0, n)], which counts UTF-16 code units;
    and the arithmetic of numbers. *)
Record PlannerWorld (W : Type) : Type := {
  uuidv4 : W -> string * W;
  templateString : JSON -> string;
  String_slice : string -> nat -> string;
  arith : Float64
}.
Arguments uuidv4 {W}.
Arguments templateString {W}.
Arguments String_slice {W}.
Arguments arith {W}.

(** Numbers whose value is an integer below [2^53] in magnitude are
    printed in decimal, digit for digit. *)
Definition printsIntegers {W} (penv : PlannerWorld W) : Prop :=
  forall z, (Z.abs z < 2 ^ 53)%Z -> templateString penv (JNum (inject_Z z)) = showZ z.

(** *** [parseInt] *)

(** The white space [parseInt] skips, in a string held as UTF-8 bytes:
    the ASCII characters, and the encodings of U+00A0, U+1680,
    U+2000 to U+200A, U+2028, U+2029, U+202F, U+205F, U+3000 and
    U+FEFF. *)
Definition isWhiteSpace (c : ascii) : bool :=
  ((9 <=? code c) && (code c <=? 13) || (code c =? 32))%N.

Definition isWhiteSpace2 (c0 c1 : ascii) : bool :=
  ((code c0 =? 194) && (code c1 =? 160))%N.

Definition isWhiteSpace3 (c0 c1 c2 : ascii) : bool :=
  ((code c0 =? 225) && (code c1 =? 154) && (code c2 =? 128)
   || (code c0 =? 226) && (code c1 =? 128)
      && ((128 <=? code c2) && (code c2 <=? 138) || (code c2 =? 168) || (code c2 =? 169)
          || (code c2 =? 175))
   || (code c0 =? 226) && (code c1 =? 129) && (code c2 =? 159)
   || (code c0 =? 227) && (code c1 =? 128) && (code c2 =? 128)
   || (code c0 =? 239) && (code c1 =? 187) && (code c2 =? 191))%N.

Fixpoint skipWhiteSpace (s : string) : string :=
  match s with
  | EmptyString => s
  | String c0 r0 =>
      if isWhiteSpace c0 then skipWhiteSpace r0
      else match r0 with
           | EmptyString => s
           | String c1 r1 =>
               if isWhiteSpace2 c0 c1 then skipWhiteSpace r1
               else match r1 with
                    | EmptyString => s
                    | String c2 r2 =>
                        if isWhiteSpace3 c0 c1 c2 then skipWhiteSpace r2 else s
                    end
           end
  end.

(** The value of a digit in the given radix. *)
Definition digitValue (radix : N) (c : ascii) : option N :=
  let n := code c in
  let v := if isDigit c then Some (n - 48)%N
           else if ((97 <=? n) && (n <=? 122))%N then Some (n - 87)%N
           else if ((65 <=? n) && (n <=? 90))%N then Some (n - 55)%N
           else None in
  match v with
  | Some d => if (d <? radix)%N then Some d else None
  | None => None
  end.

(** The longest prefix of digits; [acc = None] until a digit is read. *)
Fixpoint readDigits (radix : N) (s : string) (acc : option N) : option N :=
  match s with
  | EmptyString => acc
  | String c rest =>
      match digitValue radix c with
      | Some d => readDigits radix rest (Some (default 0%N acc * radix + d)%N)
      | None => acc
      end
  end.

Definition hexPrefix (s : string) : option string :=
  match s with
  | String c0 (String c1 rest) =>
      if ((code c0 =? 48) && ((code c1 =? 120) || (code c1 =? 88)))%N then Some rest else None
  | _ => None
  end.

(** [parseInt(s)], as an integer: leading white space, a sign, [0x] for
    radix 16, then the longest prefix of digits; [None] is [NaN]. *)
Definition parseInt (s : string) : option Z :=
  let s1 := skipWhiteSpace s in
  let '(negative, s2) :=
    match s1 with
    | String c rest =>
        if (code c =? 45)%N then (true, rest)
        else if (code c =? 43)%N then (false, rest)
        else (false, s1)
    | EmptyString => (false, s1)
    end in
  let magnitude := match hexPrefix s2 with
                   | Some digits => readDigits 16 digits None
                   | None => readDigits 10 s2 None
                   end in
  match magnitude with
  | Some n => Some (if negative then - Z.of_N n else Z.of_N n)
  | None => None
  end.

(** *** The helpers of the class *)

Definition validTools : list ToolType := ["anthropic"; "tavily"; "blockchain_rpc"; "reasoning"].

(** [validateTool(raw.tool)], whatever value [raw.tool] is: [includes]
    compares by strict equality, so what is no string is not in the
    list. *)
Definition validateTool (tool' : JSON) : ToolType :=
  match tool' with
  | JStr name => if existsb (String.eqb name) validTools then name else "anthropic"
  | _ => "anthropic"
  end.

(** [defaultToolConfig]; the [switch] has no default branch, which a
    validated tool never reaches. *)
Definition defaultToolConfig (tool' : ToolType) : ToolConfig :=
  if String.eqb tool' "anthropic" || String.eqb tool' "reasoning"
  then {| cfg_anthropic := Some {| model := "claude-sonnet-4-20250514"; max_tokens := 1024 |};
          cfg_tavily := None; cfg_blockchain_rpc := None |}
  else if String.eqb tool' "tavily"
  then {| cfg_anthropic := None;
          cfg_tavily := Some {| search_depth := "advanced"; max_results := 5 |};
          cfg_blockchain_rpc := None |}
  else if String.eqb tool' "blockchain_rpc"
  then {| cfg_anthropic := None; cfg_tavily := None;
          cfg_blockchain_rpc := Some {| chain_id := 1; method := "eth_call"; params := [] |} |}
  else {| cfg_anthropic := None; cfg_tavily := None; cfg_blockchain_rpc := None |}.

(** [COST_PER_TOOL[tool]] as the number a step stores; the tool is a key
    of the table whenever it comes from [validateTool]. *)
Definition tableCost (tool' : ToolType) : Q :=
  match COST_PER_TOOL tool' with Num q => q | NaN => 0%Q end.

Definition PLANNING_SYSTEM_PROMPT : string :=
  String.concat nl
    ["You are a research planning engine. Your job is to decompose a research query into a minimal set of atomic execution steps.";
     EmptyString;
     "Each step must specify:";
     "- A clear description of what to do";
     String.concat dq ["- Which tool to use: "; "anthropic"; " (reasoning/analysis), "; "tavily";
                       " (web search), "; "blockchain_rpc"; " (on-chain data)"];
     "- Dependencies on previous steps (by step ID)";
     EmptyString;
     "Rules:";
     "1. Minimize the number of steps. Do not over-decompose.";
     String.concat dq ["2. Use "; "tavily"; " for any factual data retrieval from the web."];
     String.concat dq ["3. Use "; "blockchain_rpc";
                       " for on-chain data (TVL, balances, contract state)."];
     String.concat dq ["4. Use "; "anthropic";
                       " for reasoning, analysis, and synthesis sub-tasks."];
     "5. Steps should be ordered by dependency.";
     "6. Return ONLY valid JSON matching the schema below.";
     EmptyString;
     "Output JSON schema:";
     "{";
     String.concat dq ["  "; "steps"; ": ["];
     "    {";
     String.concat dq ["      "; "description"; ": "; "string"; ","];
     String.concat dq ["      "; "tool"; ": "; "anthropic"; " | "; "tavily"; " | ";
                       "blockchain_rpc"; ","];
     String.concat dq ["      "; "depends_on_indices";
                       ": [0]  // indices of steps this depends on, empty array if none"];
     "    }";
     "  ]";
     "}"].

Section Planner.
Context {W : Type} (env : World W) (penv : PlannerWorld W).
#[local] Open Scope js_scope.

Definition uuid : Eff W string :=
  fun w => let (u, w') := uuidv4 penv w in (Return u, w').

Definition sumCosts (steps' : list Step) : Q :=
  fold_left (fun sum s => fadd (arith penv) sum (estimated_cost_usd s)) steps' 0%Q.

Definition buildPlan (sessionId query' : string) (steps' : list Step) (maxBudget : Q)
    : Eff W ExecutionPlan :=
  const ts <- clock env ;
  pure {| session_id := sessionId; query := query'; steps := steps';
          step_count := Z.of_nat (length steps');
          total_estimated_cost := sumCosts steps';
          max_budget := maxBudget; created_at := ts |}.

Definition parseJSON (text : string) : Eff W JSON :=
  let jsonStr := match match_fence env text with
                 | Some body => trim env body
                 | None => trim env text
                 end in
  match JSON_parse env jsonStr with
  | Some rawPlan => pure rawPlan
  | None => throw ("Failed to parse planning response as JSON: "
                   ++ String_slice penv jsonStr 200)%string
  end.

(** The receiver of a call [v.map(...)] written [callee] in the source:
    the elements of an array, and the TypeError of any other value. *)
Definition arrayOf (callee : string) (v : JSON) : Eff W (list JSON) :=
  match v with
  | JArr items => pure items
  | JUndefined => throw "Cannot read properties of undefined (reading 'map')"
  | JNull => throw "Cannot read properties of null (reading 'map')"
  | _ => throw (callee ++ " is not a function")%string
  end.

(** The placeholder of a dependency before the ids are known,
    [`step_${i}_pending`] for any value [i]. *)
Definition pending (i : JSON) : string :=
  ("step_" ++ templateString penv i ++ "_pending")%string.

(** [raw.description] at the declared type of the property, [string].
    The plan of a reply whose description is another value holds that
    value, which the type [Step] does not describe; the properties
    below speak of descriptions that are strings. *)
Definition declaredString (v : JSON) : string :=
  match v with
  | JStr s => s
  | _ => EmptyString
  end.

(** The callback of [rawPlan.steps.map] at position [index'], an array
    index, which is printed in decimal. *)
Definition buildStep (index' : Z) (raw : JSON) : Eff W Step :=
  const u <- uuid ;
  let stepId := ("step_" ++ showZ index' ++ "_" ++ String_slice penv u 8)%string in
  const toolValue <- prop raw "tool" ;
  let tool' := validateTool toolValue in
  const descriptionValue <- prop raw "description" ;
  const indicesValue <- prop raw "depends_on_indices" ;
  const indices <- arrayOf "(raw.depends_on_indices || []).map"
                     (orJSON indicesValue (JArr [])) ;
  pure {| id := stepId; index := index'; description := declaredString descriptionValue;
          tool := tool'; tool_config := defaultToolConfig tool';
          estimated_cost_usd := tableCost tool';
          depends_on := map pending indices |}.

(** [rawPlan.steps.map(callback)], from position [index'] on. *)
Fixpoint buildSteps (index' : Z) (raws : list JSON) : Eff W (list Step) :=
  match raws with
  | [] => pure []
  | raw :: rest =>
      const step <- buildStep index' raw ;
      const others <- buildSteps (index' + 1) rest ;
      pure (step :: others)
  end.

(** [steps[parseInt(dep.split("_")[1])]?.id || dep]. *)
Definition resolveDependency (steps' : list Step) (dep : string) : string :=
  let depIndex := match splitOn "_" dep !! 1%nat with
                  | Some field => parseInt field
                  | None => None
                  end in
  match depIndex with
  | Some i => if 0 <=? i
              then match steps' !! Z.to_nat i with
                   | Some s => orElse (id s) dep
                   | None => dep
                   end
              else dep
  | None => dep
  end.

(** The loop that resolves the dependencies; it rewrites [depends_on]
    only, and reads the ids only. *)
Definition resolveDependencies (steps' : list Step) : list Step :=
  map (fun s => {| id := id s; index := index s; description := description s;
                   tool := tool s; tool_config := tool_config s;
                   estimated_cost_usd := estimated_cost_usd s;
                   depends_on := map (resolveDependency steps') (depends_on s) |})
      steps'.

(** The loop that trims the steps to the budget. *)
Fixpoint trimSteps (budget : Q) (steps' : list Step) : list Step :=
  match steps' with
  | [] => []
  | step :: rest =>
      if fge (arith penv) budget (estimated_cost_usd step)
      then step :: trimSteps (fsub (arith penv) budget (estimated_cost_usd step)) rest
      else []
  end.

(** The argument of [messages.create]. *)
Definition planningRequest (model' query' : string) : MessageRequest :=
  {| req_model := model'; req_max_tokens := 2048;
     req_system := PLANNING_SYSTEM_PROMPT;
     req_user := ("Research query: " ++ dq ++ query' ++ dq ++ nl ++ nl
                  ++ "Decompose this into atomic execution steps. Return JSON only.")%string |}.

Definition generatePlan (model' query' : string) (maxBudget : Q) : Eff W ExecutionPlan :=
  const sessionId <- uuid ;
  const response <- messages_create env (planningRequest model' query') ;
  match response with
  | [] => throw "Cannot read properties of undefined (reading 'type')"
  | content :: _ =>
      if negb (String.eqb (block_type content) "text")
      then throw "Unexpected response type from planning LLM"
      else
        const rawPlan <- parseJSON (block_text content) ;
        const stepsValue <- prop rawPlan "steps" ;
        const raws <- arrayOf "rawPlan.steps.map" stepsValue ;
        const built <- buildSteps 0 raws ;
        let steps' := resolveDependencies built in
        let totalEstimatedCost := sumCosts steps' in
        if fgt (arith penv) totalEstimatedCost maxBudget
        then buildPlan sessionId query' (trimSteps maxBudget steps') maxBudget
        else buildPlan sessionId query' steps' maxBudget
  end.

End Planner.

(** *** Vocabulary for the properties of the planner *)

(** The property [key] of a value that is neither [null] nor
    [undefined]. *)
Definition field (v : JSON) (key : string) : JSON :=
  match v with
  | JObj fields => lookupField key fields
  | _ => JUndefined
  end.

(** The dependency indices of an element of the reply. *)
Definition indicesOf (raw : JSON) : list JSON :=
  match orJSON (field raw "depends_on_indices") (JArr []) with
  | JArr indices => indices
  | _ => []
  end.

(** An element of [steps] the callback makes a step from: any value but
    [null] whose [depends_on_indices] is falsy or an array. *)
Definition usable (raw : JSON) : bool :=
  match raw with
  | JUndefined | JNull => false
  | _ => match orJSON (field raw "depends_on_indices") (JArr []) with
         | JArr _ => true
         | _ => false
         end
  end.

(** A reply [generatePlan] makes a plan from: a value whose [steps] is
    an array of usable elements. *)
Definition plannable (rawPlan : JSON) : bool :=
  match field rawPlan "steps" with
  | JArr raws => forallb usable raws
  | _ => false
  end.

(** The placeholder of dependency [i], printed in decimal. *)
Definition placeholder (i : Z) : string := ("step_" ++ showZ i ++ "_pending")%string.

(** What dependency [i] of a reply with [ids] resolves to: the id of
    step [i] when there is one, its placeholder otherwise. *)
Definition resolved (ids : list string) (i : Z) : string :=
  if (0 <=? i) && (i <? Z.of_nat (length ids))
  then default (placeholder i) (ids !! Z.to_nat i)
  else placeholder i.

(** A step made from the element at position [j] of the reply, its
    dependencies rendered by [dep]. *)
Definition stepWith (dep : JSON -> string) (j : nat) (raw : JSON) (s : Step) : Prop :=
  index s = Z.of_nat j /\
  (exists suffix, id s = ("step_" ++ showZ (Z.of_nat j) ++ "_" ++ suffix)%string) /\
  (forall d, field raw "description" = JStr d -> description s = d) /\
  tool s = validateTool (field raw "tool") /\
  tool_config s = defaultToolConfig (tool s) /\
  estimated_cost_usd s = tableCost (tool s) /\
  depends_on s = map dep (indicesOf raw).

(** [stepWith] along two lists, positions counted from [j]. *)
Fixpoint stepsFrom (dep : JSON -> string) (j : nat) (raws : list JSON) (ss : list Step)
    : Prop :=
  match raws, ss with
  | [], [] => True
  | raw :: raws', s :: ss' => stepWith dep j raw s /\ stepsFrom dep (S j) raws' ss'
  | _, _ => False
  end.

(** What [generatePlan] does with the value [JSON.parse] returned. *)
Definition planFrom {W} (env : World W) (penv : PlannerWorld W) (sessionId query' : string)
    (maxBudget : Q) (rawPlan : JSON) : Eff W ExecutionPlan :=
  andThen (prop rawPlan "steps") (fun stepsValue =>
  andThen (arrayOf "rawPlan.steps.map" stepsValue) (fun raws =>
  andThen (buildSteps penv 0 raws) (fun built =>
    let steps' := resolveDependencies built in
    if fgt (arith penv) (sumCosts penv steps') maxBudget
    then buildPlan env penv sessionId query' (trimSteps penv maxBudget steps') maxBudget
    else buildPlan env penv sessionId query' steps' maxBudget))).

(** The text of the reply that is handed to [JSON.parse]. *)
Definition jsonText {W} (env : World W) (text : string) : string :=
  match match_fence env text with
  | Some body => trim env body
  | None => trim env text
  end.

(** *** A planner world for running examples *)

(** Arithmetic without rounding; the examples stay away from the cases
    in which rounding decides. *)
Definition unrounded : Float64 :=
  {| fadd := Qplus; fsub := Qminus;
     fgt := fun a b => negb (Qle_bool a b);
     fge := fun a b => Qle_bool b a |}.

(** The strings of the values the examples print: integers, strings and
    the literals. *)
Definition demoString (v : JSON) : string :=
  match v with
  | JUndefined => "undefined"
  | JNull => "null"
  | JBool b => if b then "true" else "false"
  | JNum q => showZ (Qnum q)
  | JStr s => s
  | JArr _ | JObj _ => "[object Object]"
  end.

(** Identifiers made from a counter, the values of the examples printed
    by [demoString], and the strings of the examples, which are ASCII,
    cut by bytes. *)
Definition demoPlanner : PlannerWorld Z :=
  {| uuidv4 := fun w => (("0000000" ++ showZ w ++ "-aaaa")%string, w + 1);
     templateString := demoString;
     String_slice := fun s n => String.substring 0 n s;
     arith := unrounded |}.

(** A reply of three steps: a search, an unknown tool that depends on
    steps 0 and 7, and a model step. *)
Definition threeSteps : list JSON :=
  [JObj [("description", JStr "find"); ("tool", JStr "tavily")];
   JObj [("description", JStr "guess"); ("tool", JStr "crystal_ball");
         ("depends_on_indices", JArr [JNum 0%Q; JNum 7%Q])];
   JObj [("description", JStr "think"); ("tool", JStr "anthropic");
         ("depends_on_indices", JArr [JNum 1%Q])]].

(** The text of that reply. *)
Definition threeStepsText : string :=
  String.concat dq
    ["{"; "steps"; ":[{"; "description"; ":"; "find"; ","; "tool"; ":"; "tavily"; "},{";
     "description"; ":"; "guess"; ","; "tool"; ":"; "crystal_ball"; ",";
     "depends_on_indices"; ":[0,7]},{";
     "description"; ":"; "think"; ","; "tool"; ":"; "anthropic"; ",";
     "depends_on_indices"; ":[1]}]}"].



End Planner.

End Agent.

(** * Properties *)

(** ** Part I: the payment ledger *)

Module GateFacts.
Import Gate.

Ltac tx_unfold :=
  unfold lockBudget, authorizePayment, confirmExecution, refund, settleBudget,
    getRemainingBudget, onlyOperator, sessionExists, sessionNotSettled,
    callTransfer, callTransferFrom, emit, bind, require, reads, writes, lift, ret,
    checked_add, checked_sub in *.

Ltac bool_to_prop :=
  repeat match goal with
  | H : negb _ = true |- _ => apply negb_true_iff in H
  | H : negb _ = false |- _ => apply negb_false_iff in H
  | H : (_ =? _) = true |- _ => apply N.eqb_eq in H
  | H : (_ =? _) = false |- _ => apply N.eqb_neq in H
  | H : (_ <=? _) = true |- _ => apply N.leb_le in H
  | H : (_ <=? _) = false |- _ => apply N.leb_gt in H
  | H : (_ <? _) = true |- _ => apply N.ltb_lt in H
  | H : (_ <? _) = false |- _ => apply N.ltb_ge in H
  end.

Ltac tx_inv H :=
  tx_unfold; simpl in H;
  repeat (case_match; simpl in H; try discriminate H);
  simplify_eq; bool_to_prop.

Section Reads.
Context {T : Type}.
Implicit Types (c : Chain T) (s : Session) (p : StepPayment).

Lemma sessionAt_setSession c sid s sid' :
  sessionAt (setSession sid s c) sid' = if decide (sid = sid') then s else sessionAt c sid'.
Proof.
  unfold sessionAt, setSession; simpl. rewrite lookup_insert.
  by case_decide.
Qed.

Lemma stepsOf_setStep c sid k p sid' :
  stepsOf (setStep sid k p c) sid' =
  if decide (sid = sid') then <[k := p]> (stepsOf c sid) else stepsOf c sid'.
Proof.
  unfold stepsOf at 1, setStep; simpl. rewrite lookup_insert.
  by case_decide.
Qed.

Lemma stepAt_setStep c sid k p sid' k' :
  stepAt (setStep sid k p c) sid' k' =
  if decide (sid = sid' ∧ k = k') then p else stepAt c sid' k'.
Proof.
  unfold stepAt. rewrite stepsOf_setStep.
  destruct (decide (sid = sid')) as [->|Hs].
  - rewrite lookup_insert. destruct (decide (k = k')) as [->|Hk].
    + by rewrite decide_True.
    + rewrite decide_False; [done | tauto].
  - rewrite decide_False; [done | tauto].
Qed.

Lemma sessionAt_setStep c sid k p sid' : sessionAt (setStep sid k p c) sid' = sessionAt c sid'.
Proof. done. Qed.

Lemma stepsOf_setSession c sid s sid' : stepsOf (setSession sid s c) sid' = stepsOf c sid'.
Proof. done. Qed.

Lemma stepAt_setSession c sid s sid' k : stepAt (setSession sid s c) sid' k = stepAt c sid' k.
Proof. done. Qed.

End Reads.

Ltac tx_go :=
  repeat (case_match; simplify_eq/=; try done);
  bool_to_prop; simplify_eq; try done;
  rewrite ?sessionAt_setStep in *; try done; try lia; try congruence.


Section Calls.
Context {T : Type} `{IERC20 T}.
Implicit Types (c : Chain T) (s : Session) (p : StepPayment).

(** What a successful call has checked and written. *)

Lemma authorizePayment_Success sender sid k a c r :
  authorizePayment sender sid k a c = Success r <->
  sender = operator c /\ payer (sessionAt c sid) <> 0 /\
  settled (sessionAt c sid) = false /\
  totalSpent (sessionAt c sid) + a <= UINT256_MAX /\
  totalSpent (sessionAt c sid) + a <= totalLocked (sessionAt c sid) /\
  authorized (stepAt c sid k) = false /\
  r = (tt, addEvent (PaymentAuthorized sid k a)
             (setStep sid k (mkStepPayment a true false false) c)).
Proof.
  split.
  - intros Hs. tx_inv Hs. repeat split; try done; congruence.
  - intros (-> & Hp & Hst & Hmax & Hle & Ha & ->). tx_unfold; simpl.
    tx_go.
Qed.

Lemma confirmExecution_Success sender sid k c r :
  confirmExecution sender sid k c = Success r <->
  sender = operator c /\ payer (sessionAt c sid) <> 0 /\
  settled (sessionAt c sid) = false /\
  authorized (stepAt c sid k) = true /\ confirmed (stepAt c sid k) = false /\
  refunded (stepAt c sid k) = false /\
  totalSpent (sessionAt c sid) + amount (stepAt c sid k) <= UINT256_MAX /\
  r = (tt, addEvent (ExecutionConfirmed sid k)
             (setSession sid
                (mkSession (payer (sessionAt c sid)) (totalLocked (sessionAt c sid))
                   (totalSpent (sessionAt c sid) + amount (stepAt c sid k))
                   (stepCount (sessionAt c sid)) (settled (sessionAt c sid)))
                (setStep sid k
                   (mkStepPayment (amount (stepAt c sid k)) (authorized (stepAt c sid k))
                      true (refunded (stepAt c sid k))) c))).
Proof.
  split.
  - intros Hs. tx_inv Hs. repeat split; try done.
    rewrite !sessionAt_setStep. congruence.
  - intros (-> & Hp & Hst & Ha & Hc & Hr & Hmax & ->). tx_unfold; simpl. tx_go.
Qed.

Lemma refund_Success sender sid k c r :
  refund sender sid k c = Success r <->
  sender = operator c /\ payer (sessionAt c sid) <> 0 /\
  settled (sessionAt c sid) = false /\
  authorized (stepAt c sid k) = true /\ confirmed (stepAt c sid k) = false /\
  refunded (stepAt c sid k) = false /\
  r = (tt, addEvent (PaymentRefunded sid k (amount (stepAt c sid k)))
             (setStep sid k
                (mkStepPayment (amount (stepAt c sid k)) (authorized (stepAt c sid k))
                   (confirmed (stepAt c sid k)) true) c)).
Proof.
  split.
  - intros Hs. tx_inv Hs. repeat split; try done; congruence.
  - intros (-> & Hp & Hst & Ha & Hc & Hr & ->). tx_unfold; simpl. tx_go.
Qed.

Lemma lockBudget_Success sender sid a n c r :
  lockBudget sender sid a n c = Success r ->
  payer (sessionAt c sid) = 0 /\ 0 < a /\ 0 < n /\
  exists t', transferFrom (this c) sender (this c) a (paymentToken c) = Success (true, t') /\
    r = (tt, addEvent (BudgetLocked sid sender a n)
               (setSession sid (mkSession sender a 0 n false) (setToken t' c))).
Proof.
  intros Hs. tx_inv Hs. repeat split; try done. eexists; split; done.
Qed.

Lemma bind_Success {A B} (m : Tx T A) (k : A -> Tx T B) c r :
  bind m k c = Success r -> exists a c1, m c = Success (a, c1) /\ k a c1 = Success r.
Proof. unfold bind. destruct (m c) as [[a c1]| |]; [eauto|done..]. Qed.

Lemma require_Success (b : bool) msg c (r : unit * Chain T) :
  require b msg c = Success r -> b = true /\ r = (tt, c).
Proof. unfold require. destruct b; [|done]. by intros [= <-]. Qed.

Lemma settleBudget_Success sender sid x c r :
  settleBudget sender sid x c = Success r ->
  sender = operator c /\ payer (sessionAt c sid) <> 0 /\
  settled (sessionAt c sid) = false /\ x <= totalLocked (sessionAt c sid) /\
  exists c', r = (tt, c') /\
    operator c' = operator c /\ this c' = this c /\
    sessions c' = <[sid := mkSession (payer (sessionAt c sid)) (totalLocked (sessionAt c sid))
                             x (stepCount (sessionAt c sid)) true]> (sessions c) /\
    stepPayments c' = stepPayments c /\
    events c' = (events c ++ [BudgetSettled sid x (totalLocked (sessionAt c sid) - x)])%list /\
    settlementTransfers c sid x (paymentToken c').
Proof.
  unfold settleBudget. intros Hs.
  apply bind_Success in Hs as ([] & c1 & Hop & Hs).
  unfold onlyOperator in Hop. apply bind_Success in Hop as (op & c0 & [= <- <-] & Hop).
  apply require_Success in Hop as [Hop%N.eqb_eq [= ->]].
  apply bind_Success in Hs as ([] & c2 & Hex & Hs).
  unfold sessionExists in Hex. apply bind_Success in Hex as (s0 & c0 & [= <- <-] & Hex).
  apply require_Success in Hex as [Hex%negb_true_iff%N.eqb_neq [= ->]].
  apply bind_Success in Hs as ([] & c3' & Hns & Hs).
  unfold sessionNotSettled in Hns. apply bind_Success in Hns as (s0 & c0 & [= <- <-] & Hns).
  apply require_Success in Hns as [Hns%negb_true_iff [= ->]].
  apply bind_Success in Hs as (s & c4' & [= <- <-] & Hs).
  apply bind_Success in Hs as ([] & c5' & Hle & Hs).
  apply require_Success in Hle as [Hle%N.leb_le [= ->]].
  apply bind_Success in Hs as ([] & c6' & [= <-] & Hs).
  apply bind_Success in Hs as (refundAmount & c2 & Hsub & Hs).
  unfold lift, checked_sub in Hsub.
  destruct (N.leb_spec x (totalLocked (sessionAt c sid))) as [_|]; [|lia].
  injection Hsub as <- <-.
  apply bind_Success in Hs as ([] & c3 & Hpay & Hs).
  apply bind_Success in Hs as ([] & c4 & Hopr & Hs).
  unfold emit, writes in Hs. injection Hs as <-.
  repeat (split; [done|]).
  eexists; split; [done|].
  assert (Hc3 : operator c3 = operator c /\ this c3 = this c /\
                sessions c3 = <[sid := mkSession (payer (sessionAt c sid))
                                  (totalLocked (sessionAt c sid)) x
                                  (stepCount (sessionAt c sid)) true]> (sessions c) /\
                stepPayments c3 = stepPayments c /\ events c3 = events c /\
                (if 0 <? totalLocked (sessionAt c sid) - x
                 then transfer (this c) (payer (sessionAt c sid))
                        (totalLocked (sessionAt c sid) - x) (paymentToken c)
                      = Success (true, paymentToken c3)
                 else paymentToken c3 = paymentToken c)).
  { destruct (0 <? totalLocked (sessionAt c sid) - x).
    - apply bind_Success in Hpay as (ok1 & c5 & Hcall & Hreq).
      apply require_Success in Hreq as [-> [= <-]].
      unfold callTransfer in Hcall; simpl in Hcall.
      destruct (transfer _ _ _ _) as [[ok t1]| |] eqn:Htr; [|done..].
      injection Hcall as -> <-. rewrite ?Htr. done.
    - injection Hpay as <-. done. }
  destruct Hc3 as (Ho3 & Ht3 & Hs3 & Hp3 & He3 & Htr3).
  assert (Hc4 : operator c4 = operator c /\ this c4 = this c /\
                sessions c4 = sessions c3 /\ stepPayments c4 = stepPayments c3 /\
                events c4 = events c3 /\
                (if 0 <? x
                 then transfer (this c) (operator c) x (paymentToken c3)
                      = Success (true, paymentToken c4)
                 else paymentToken c4 = paymentToken c3)).
  { destruct (0 <? x).
    - apply bind_Success in Hopr as (op & c5 & [= <- <-] & Hopr).
      apply bind_Success in Hopr as (ok1 & c5 & Hcall & Hreq).
      apply require_Success in Hreq as [-> [= <-]].
      unfold callTransfer in Hcall.
      destruct (transfer _ _ _ _) as [[ok t1]| |] eqn:Htr; [|done..].
      injection Hcall as -> <-. rewrite ?Ho3, ?Ht3 in *. simpl. rewrite ?Htr. done.
    - injection Hopr as <-. done. }
  destruct Hc4 as (Ho4 & Ht4 & Hs4 & Hp4 & He4 & Htr4).
  simpl. rewrite Ho4, Ht4, Hs4, Hp4, He4, Hs3, Hp3, He3.
  repeat (split; [done|]).
  exists (paymentToken c3). split; [exact Htr3|exact Htr4].
Qed.

(** A failed call changes nothing. *)
Lemma transact_failed c sender call :
  is_success (exec sender call c) = false -> transact c (sender, call) = c.
Proof. unfold transact; simpl. by destruct (exec sender call c) as [[]| |]. Qed.

Lemma transact_Success c sender call u c' :
  exec sender call c = Success (u, c') -> transact c (sender, call) = c'.
Proof. unfold transact; simpl. by intros ->. Qed.

Lemma exec_outcome c sender call :
  (exists c', exec sender call c = Success (tt, c')) \/ is_success (exec sender call c) = false.
Proof. destruct (exec sender call c) as [[[] c']| |]; eauto. Qed.

(** *** The step state machine *)

Lemma stepState_lock c sender sid a n u c' sid' k :
  lockBudget sender sid a n c = Success (u, c') -> stepAt c' sid' k = stepAt c sid' k.
Proof. intros Hs. apply lockBudget_Success in Hs as (_ & _ & _ & t' & _ & [= _ ->]). done. Qed.

Lemma stepState_settle c sender sid x u c' sid' k :
  settleBudget sender sid x c = Success (u, c') -> stepAt c' sid' k = stepAt c sid' k.
Proof.
  intros Hs. apply settleBudget_Success in Hs as (_ & _ & _ & _ & c2 & [= _ ->] & Hc).
  destruct Hc as (_ & _ & _ & Hsp & _). unfold stepAt, stepsOf. by rewrite Hsp.
Qed.

Lemma authorize_moves c sender sid k a u c' :
  authorizePayment sender sid k a c = Success (u, c') ->
  stepState c sid k = Unauthorized /\ stepState c' sid k = Authorized /\
  forall sid' k', (sid', k') <> (sid, k) -> stepAt c' sid' k' = stepAt c sid' k'.
Proof.
  intros Hs. apply authorizePayment_Success in Hs as (_ & _ & _ & _ & _ & Ha & [= _ ->]).
  unfold stepState, stateOf. rewrite Ha. split; [done|]. split.
  - change (stepAt (addEvent ?e ?c) sid k) with (stepAt c sid k).
    rewrite stepAt_setStep, decide_True by done. done.
  - intros sid' k' Hne. change (stepAt (addEvent ?e ?c) sid' k') with (stepAt c sid' k').
    rewrite stepAt_setStep, decide_False; [done|]. intros [-> ->]. done.
Qed.

Lemma confirm_moves c sender sid k u c' :
  confirmExecution sender sid k c = Success (u, c') ->
  stepState c sid k = Authorized /\ stepState c' sid k = Confirmed /\
  forall sid' k', (sid', k') <> (sid, k) -> stepAt c' sid' k' = stepAt c sid' k'.
Proof.
  intros Hs.
  apply confirmExecution_Success in Hs as (_ & _ & _ & Ha & Hc & Hr & _ & [= _ ->]).
  unfold stepState, stateOf. rewrite Ha, Hc, Hr. split; [done|]. split.
  - change (stepAt (addEvent ?e (setSession ?i ?s ?c)) sid k) with (stepAt c sid k).
    rewrite stepAt_setStep, decide_True by done. done.
  - intros sid' k' Hne.
    change (stepAt (addEvent ?e (setSession ?i ?s ?c)) sid' k') with (stepAt c sid' k').
    rewrite stepAt_setStep, decide_False; [done|]. intros [-> ->]. done.
Qed.

Lemma refund_moves c sender sid k u c' :
  refund sender sid k c = Success (u, c') ->
  stepState c sid k = Authorized /\ stepState c' sid k = Refunded /\
  forall sid' k', (sid', k') <> (sid, k) -> stepAt c' sid' k' = stepAt c sid' k'.
Proof.
  intros Hs. apply refund_Success in Hs as (_ & _ & _ & Ha & Hc & Hr & [= _ ->]).
  unfold stepState, stateOf. rewrite Ha, Hc, Hr. split; [done|]. split.
  - change (stepAt (addEvent ?e ?c) sid k) with (stepAt c sid k).
    rewrite stepAt_setStep, decide_True by done. done.
  - intros sid' k' Hne. change (stepAt (addEvent ?e ?c) sid' k') with (stepAt c sid' k').
    rewrite stepAt_setStep, decide_False; [done|]. intros [-> ->]. done.
Qed.

(** One transaction moves the state of a step along one edge at most,
    and only the call aimed at that step does. *)
Lemma stepState_transact c sender call sid k :
  stepState (transact c (sender, call)) sid k = stepState c sid k \/
  (stepMove (stepState c sid k) (stepState (transact c (sender, call)) sid k) /\
   is_success (exec sender call c) = true /\
   match call with
   | AuthorizePayment sid' k' _ => sid' = sid /\ k' = k
                                   /\ stepState c sid k = Unauthorized
   | ConfirmExecution sid' k' => sid' = sid /\ k' = k
                                 /\ stepState (transact c (sender, call)) sid k = Confirmed
   | Refund sid' k' => sid' = sid /\ k' = k
                       /\ stepState (transact c (sender, call)) sid k = Refunded
   | _ => False
   end).
Proof.
  destruct (exec_outcome c sender call) as [[c' Hs]|Hf];
    [|left; by rewrite transact_failed].
  rewrite (transact_Success _ _ _ _ _ Hs).
  destruct call as [sid' a n|sid' k' a|sid' k'|sid' k'|sid' x]; simpl in Hs.
  - left. unfold stepState. by erewrite stepState_lock.
  - destruct (decide ((sid, k) = (sid', k'))) as [[= <- <-]|Hne].
    + right. apply authorize_moves in Hs as Hm. destruct Hm as (H1 & H2 & _).
      rewrite H1, H2. simpl. rewrite Hs. repeat split; constructor.
    + left. apply authorize_moves in Hs as (_ & _ & Ho). unfold stepState. by rewrite Ho.
  - destruct (decide ((sid, k) = (sid', k'))) as [[= <- <-]|Hne].
    + right. apply confirm_moves in Hs as Hm. destruct Hm as (H1 & H2 & _).
      rewrite H1, H2. simpl. rewrite Hs. repeat split; constructor.
    + left. apply confirm_moves in Hs as (_ & _ & Ho). unfold stepState. by rewrite Ho.
  - destruct (decide ((sid, k) = (sid', k'))) as [[= <- <-]|Hne].
    + right. apply refund_moves in Hs as Hm. destruct Hm as (H1 & H2 & _).
      rewrite H1, H2. simpl. rewrite Hs. repeat split; constructor.
    + left. apply refund_moves in Hs as (_ & _ & Ho). unfold stepState. by rewrite Ho.
  - left. unfold stepState. by erewrite stepState_settle.
Qed.

(** Which calls can succeed in which step state. *)
Lemma authorize_needs_unauthorized c sender sid k a :
  stepState c sid k <> Unauthorized -> is_success (authorizePayment sender sid k a c) = false.
Proof.
  intros Hn. destruct (authorizePayment sender sid k a c) as [[u c']| |] eqn:Hs; [|done..].
  apply authorize_moves in Hs as (? & _). done.
Qed.

Lemma confirm_needs_authorized c sender sid k :
  stepState c sid k <> Authorized -> is_success (confirmExecution sender sid k c) = false.
Proof.
  intros Hn. destruct (confirmExecution sender sid k c) as [[u c']| |] eqn:Hs; [|done..].
  apply confirm_moves in Hs as (? & _). done.
Qed.

Lemma refund_needs_authorized c sender sid k :
  stepState c sid k <> Authorized -> is_success (refund sender sid k c) = false.
Proof.
  intros Hn. destruct (refund sender sid k c) as [[u c']| |] eqn:Hs; [|done..].
  apply refund_moves in Hs as (? & _). done.
Qed.

(** Along any sequence of transactions a step is authorised at most once
    and finalised (confirmed or refunded) at most once. *)
Lemma countSuccessful_authorize txs c sid k :
  (countSuccessful (isAuthorizeOf sid k) txs c <=
   match stepState c sid k with Unauthorized => 1 | _ => 0 end)%nat.
Proof.
  revert c. induction txs as [|[sender call] txs IH]; intros c; simpl.
  { case_match; lia. }
  specialize (IH (transact c (sender, call))).
  destruct (stepState_transact c sender call sid k) as [Heq|(Hmv & Hok & Hcall)].
  - rewrite Heq in IH.
    destruct (isAuthorizeOf sid k call && succeeds c (sender, call)) eqn:Hb; [|simpl; lia].
    apply andb_true_iff in Hb as [Hsel Hsuc].
    destruct call as [| sid' k' a | | |]; try done. simpl in Hsel.
    apply andb_true_iff in Hsel as [->%N.eqb_eq ->%N.eqb_eq].
    unfold succeeds in Hsuc; simpl in Hsuc.
    destruct (authorizePayment sender sid k a c) as [[u c']| |] eqn:Hs; try done.
    apply authorize_moves in Hs as Hm. destruct Hm as (H1 & H2 & _).
    rewrite (transact_Success c sender (AuthorizePayment sid k a) u c' Hs) in Heq.
    congruence.
  - inversion Hmv as [H1 H2|H1 H2|H1 H2]; rewrite <- H2 in IH; rewrite <- ?H1;
      destruct (isAuthorizeOf sid k call && succeeds c (sender, call)) eqn:Hb;
      simpl; try lia;
      destruct call as [| sid' k' a | | |]; try done;
      destruct Hcall as (_ & _ & Hun); congruence.
Qed.

Lemma countSuccessful_finalize txs c sid k :
  (countSuccessful (isFinalizeOf sid k) txs c <=
   match stepState c sid k with Unauthorized | Authorized => 1 | _ => 0 end)%nat.
Proof.
  revert c. induction txs as [|[sender call] txs IH]; intros c; simpl.
  { case_match; lia. }
  specialize (IH (transact c (sender, call))).
  destruct (stepState_transact c sender call sid k) as [Heq|(Hmv & Hok & Hcall)].
  - rewrite Heq in IH.
    destruct (isFinalizeOf sid k call && succeeds c (sender, call)) eqn:Hb; [|simpl; lia].
    apply andb_true_iff in Hb as [Hsel Hsuc].
    unfold succeeds in Hsuc; simpl in Hsuc.
    destruct call as [| | sid' k' | sid' k' |]; try done; simpl in Hsel, Hsuc;
      apply andb_true_iff in Hsel as [->%N.eqb_eq ->%N.eqb_eq].
    + destruct (confirmExecution sender sid k c) as [[u c']| |] eqn:Hs; try done.
      apply confirm_moves in Hs as Hm. destruct Hm as (H1 & H2 & _).
      rewrite (transact_Success c sender (ConfirmExecution sid k) u c' Hs) in Heq.
      congruence.
    + destruct (refund sender sid k c) as [[u c']| |] eqn:Hs; try done.
      apply refund_moves in Hs as Hm. destruct Hm as (H1 & H2 & _).
      rewrite (transact_Success c sender (Refund sid k) u c' Hs) in Heq.
      congruence.
  - destruct (isFinalizeOf sid k call && succeeds c (sender, call)) eqn:Hb.
    + destruct call as [| | sid' k' | sid' k' |]; try done;
        destruct Hcall as (_ & _ & Hfin); rewrite Hfin in IH, Hmv;
        inversion Hmv; simpl; lia.
    + inversion Hmv as [H1 H2|H1 H2|H1 H2]; rewrite <- H2 in IH; simpl; lia.
Qed.

(** *** Spend bookkeeping *)

Lemma confirmedTotal_empty : confirmedTotal ∅ = 0.
Proof. unfold confirmedTotal. by rewrite map_fold_empty. Qed.

Lemma confirmedTotal_insert_fresh (m : gmap bytes32 StepPayment) k p :
  m !! k = None -> confirmedTotal (<[k := p]> m) = confirmedAmount p + confirmedTotal m.
Proof.
  intros Hk. unfold confirmedTotal.
  rewrite (map_fold_insert_L (fun _ q acc => confirmedAmount q + acc)); [done| |done].
  intros. lia.
Qed.

Lemma confirmedTotal_insert (m : gmap bytes32 StepPayment) k p :
  confirmedTotal (<[k := p]> m) + confirmedAmount (default zeroStep (m !! k)) =
  confirmedTotal m + confirmedAmount p.
Proof.
  destruct (m !! k) as [q|] eqn:Hk; simpl.
  - rewrite <- (insert_delete_id m k q) at 2 by done.
    rewrite <- (insert_delete_eq m k p).
    rewrite !confirmedTotal_insert_fresh by apply lookup_delete_eq. lia.
  - rewrite confirmedTotal_insert_fresh by done. unfold confirmedAmount at 2. simpl. lia.
Qed.

Lemma ledgerInv_deployed (token : T) op self : ledgerInv (deployed token op self).
Proof.
  split; intros; done.
Qed.

Lemma ledgerInv_transact c tx : ledgerInv c -> ledgerInv (transact c tx).
Proof.
  intros [I1 I2 I3]. destruct tx as [sender call].
  destruct (exec_outcome c sender call) as [[c' Hs]|Hf];
    [|by rewrite transact_failed].
  rewrite (transact_Success _ _ _ _ _ Hs).
  destruct call as [sid a n|sid k a|sid k|sid k|sid x]; simpl in Hs.
  - (* lockBudget *)
    apply lockBudget_Success in Hs as (Hp & _ & _ & t' & _ & [= ->]).
    split.
    + intros sid'. change (sessionAt (addEvent ?e ?c) sid') with (sessionAt c sid').
      rewrite sessionAt_setSession. case_decide; simplify_eq/=.
      * intros _. by apply I1.
      * apply I1.
    + apply I2.
    + intros sid'. change (sessionAt (addEvent ?e ?c) sid') with (sessionAt c sid').
      rewrite sessionAt_setSession. case_decide; simplify_eq/=.
      * intros _. unfold confirmedSum.
        change (stepsOf (addEvent ?e (setSession ?i ?s (setToken ?t ?c))) sid')
          with (stepsOf c sid').
        rewrite (I1 _ Hp). by rewrite confirmedTotal_empty.
      * apply I3.
  - (* authorizePayment *)
    apply authorizePayment_Success in Hs as (_ & Hp & _ & _ & _ & Ha & [= ->]).
    split.
    + intros sid'. change (sessionAt (addEvent ?e (setStep ?i ?j ?p ?c)) sid')
        with (sessionAt c sid').
      change (stepsOf (addEvent ?e ?c) sid') with (stepsOf c sid').
      rewrite stepsOf_setStep. case_decide; simplify_eq/=; [done|apply I1].
    + intros sid' k'. change (stepAt (addEvent ?e ?c) sid' k') with (stepAt c sid' k').
      rewrite stepAt_setStep. case_decide; [done|apply I2].
    + intros sid'. change (sessionAt (addEvent ?e (setStep ?i ?j ?p ?c)) sid')
        with (sessionAt c sid').
      intros Hst. rewrite (I3 _ Hst). unfold confirmedSum.
      change (stepsOf (addEvent ?e ?c) sid') with (stepsOf c sid').
      rewrite stepsOf_setStep. case_decide; simplify_eq/=; [|done].
      pose proof (confirmedTotal_insert (stepsOf c sid') k
                    (mkStepPayment a true false false)) as Hsum.
      fold (stepAt c sid' k) in Hsum. unfold confirmedAmount in Hsum at 1 2. simpl in Hsum.
      destruct (confirmed (stepAt c sid' k)) eqn:Hc; [|lia].
      apply I2 in Hc. congruence.
  - (* confirmExecution *)
    apply confirmExecution_Success in Hs as (_ & Hp & Hst & Ha & Hc & Hr & _ & [= ->]).
    split.
    + intros sid'. change (sessionAt (addEvent ?e ?c) sid') with (sessionAt c sid').
      rewrite sessionAt_setSession.
      change (stepsOf (addEvent ?e (setSession ?i ?s ?c)) sid') with (stepsOf c sid').
      rewrite stepsOf_setStep. case_decide; simplify_eq/=; [done|].
      rewrite sessionAt_setStep. apply I1.
    + intros sid' k'.
      change (stepAt (addEvent ?e (setSession ?i ?s ?c)) sid' k') with (stepAt c sid' k').
      rewrite stepAt_setStep. case_decide; [done|apply I2].
    + intros sid'. change (sessionAt (addEvent ?e ?c) sid') with (sessionAt c sid').
      rewrite sessionAt_setSession. unfold confirmedSum.
      change (stepsOf (addEvent ?e (setSession ?i ?s ?c)) sid') with (stepsOf c sid').
      rewrite stepsOf_setStep. case_decide; simplify_eq/=.
      * intros _. rewrite (I3 _ Hst). unfold confirmedSum.
        pose proof (confirmedTotal_insert (stepsOf c sid') k
                      (mkStepPayment (amount (stepAt c sid' k)) (authorized (stepAt c sid' k))
                         true (refunded (stepAt c sid' k)))) as Hsum.
        fold (stepAt c sid' k) in Hsum. unfold confirmedAmount in Hsum at 1 2.
        simpl in Hsum. rewrite Hc in Hsum. lia.
      * rewrite sessionAt_setStep. apply I3.
  - (* refund *)
    apply refund_Success in Hs as (_ & Hp & Hst & Ha & Hc & Hr & [= ->]).
    split.
    + intros sid'. change (sessionAt (addEvent ?e (setStep ?i ?j ?p ?c)) sid')
        with (sessionAt c sid').
      change (stepsOf (addEvent ?e ?c) sid') with (stepsOf c sid').
      rewrite stepsOf_setStep. case_decide; simplify_eq/=; [done|apply I1].
    + intros sid' k'. change (stepAt (addEvent ?e ?c) sid' k') with (stepAt c sid' k').
      rewrite stepAt_setStep. case_decide as Hd; [|apply I2].
      destruct Hd as [-> ->]. simpl. by rewrite Hc.
    + intros sid'. change (sessionAt (addEvent ?e (setStep ?i ?j ?p ?c)) sid')
        with (sessionAt c sid').
      intros Hst'. rewrite (I3 _ Hst'). unfold confirmedSum.
      change (stepsOf (addEvent ?e ?c) sid') with (stepsOf c sid').
      rewrite stepsOf_setStep. case_decide; simplify_eq/=; [|done].
      pose proof (confirmedTotal_insert (stepsOf c sid') k
                    (mkStepPayment (amount (stepAt c sid' k)) (authorized (stepAt c sid' k))
                       (confirmed (stepAt c sid' k)) true)) as Hsum.
      fold (stepAt c sid' k) in Hsum. unfold confirmedAmount in Hsum at 1 2.
      simpl in Hsum. lia.
  - (* settleBudget *)
    apply settleBudget_Success in Hs as (_ & Hp & Hst & _ & c2 & [= <-] & Hc).
    destruct Hc as (_ & _ & Hse & Hsp & _).
    assert (Hsteps : forall sid', stepsOf c' sid' = stepsOf c sid')
      by (intros; unfold stepsOf; by rewrite Hsp).
    assert (Hsess : forall sid', sid' <> sid -> sessionAt c' sid' = sessionAt c sid').
    { intros sid' Hne. unfold sessionAt. rewrite Hse, lookup_insert_ne by done. done. }
    assert (Hthis : sessionAt c' sid =
                    mkSession (payer (sessionAt c sid)) (totalLocked (sessionAt c sid)) x
                              (stepCount (sessionAt c sid)) true).
    { unfold sessionAt at 1. by rewrite Hse, lookup_insert_eq. }
    split.
    + intros sid'. rewrite Hsteps. destruct (decide (sid' = sid)) as [->|Hne].
      * rewrite Hthis. simpl. done.
      * rewrite Hsess by done. apply I1.
    + intros sid' k'. unfold stepAt. rewrite Hsteps. apply I2.
    + intros sid'. unfold confirmedSum. rewrite Hsteps.
      destruct (decide (sid' = sid)) as [->|Hne].
      * rewrite Hthis. simpl. done.
      * rewrite Hsess by done. apply I3.
Qed.

Lemma ledgerInv_run txs c : ledgerInv c -> ledgerInv (run txs c).
Proof.
  revert c. induction txs as [|tx txs IH]; intros c Hc; simpl; [done|].
  apply IH. by apply ledgerInv_transact.
Qed.

(** *** Settlement *)

(** No transaction changes a settled session or its steps. *)
Lemma settled_frozen c sender call sid :
  payer (sessionAt c sid) <> 0 -> settled (sessionAt c sid) = true ->
  sessionAt (transact c (sender, call)) sid = sessionAt c sid /\
  stepsOf (transact c (sender, call)) sid = stepsOf c sid.
Proof.
  intros Hp Hst.
  destruct (exec_outcome c sender call) as [[c' Hs]|Hf];
    [|by rewrite transact_failed].
  rewrite (transact_Success _ _ _ _ _ Hs).
  destruct call as [sid' a n|sid' k a|sid' k|sid' k|sid' x]; simpl in Hs.
  - apply lockBudget_Success in Hs as (Hp' & _ & _ & t' & _ & [= ->]).
    change (stepsOf (addEvent ?e (setSession ?i ?s (setToken ?t ?c))) sid)
      with (stepsOf c sid).
    change (sessionAt (addEvent ?e ?c) sid) with (sessionAt c sid).
    rewrite sessionAt_setSession. case_decide; simplify_eq/=; done.
  - apply authorizePayment_Success in Hs as (_ & _ & Hst' & _ & _ & _ & [= ->]).
    change (sessionAt (addEvent ?e (setStep ?i ?j ?p ?c)) sid) with (sessionAt c sid).
    change (stepsOf (addEvent ?e ?c) sid) with (stepsOf c sid).
    rewrite stepsOf_setStep. case_decide; simplify_eq/=; [congruence|done].
  - apply confirmExecution_Success in Hs as (_ & _ & Hst' & _ & _ & _ & _ & [= ->]).
    change (stepsOf (addEvent ?e (setSession ?i ?s ?c)) sid) with (stepsOf c sid).
    change (sessionAt (addEvent ?e ?c) sid) with (sessionAt c sid).
    rewrite sessionAt_setSession, stepsOf_setStep.
    case_decide; simplify_eq/=; [congruence|done].
  - apply refund_Success in Hs as (_ & _ & Hst' & _ & _ & _ & [= ->]).
    change (sessionAt (addEvent ?e (setStep ?i ?j ?p ?c)) sid) with (sessionAt c sid).
    change (stepsOf (addEvent ?e ?c) sid) with (stepsOf c sid).
    rewrite stepsOf_setStep. case_decide; simplify_eq/=; [congruence|done].
  - apply settleBudget_Success in Hs as (_ & _ & Hst' & _ & c2 & [= <-] & Hc).
    destruct Hc as (_ & _ & Hse & Hsp & _).
    unfold stepsOf, sessionAt. rewrite Hsp, Hse.
    destruct (decide (sid' = sid)) as [->|Hne]; [congruence|].
    by rewrite lookup_insert_ne.
Qed.

Lemma settleBudget_settled c sender sid x :
  payer (sessionAt c sid) <> 0 -> settled (sessionAt c sid) = true ->
  settleBudget sender sid x c =
  Revert (if sender =? operator c then "X402: session already settled"
          else "X402: caller is not operator").
Proof.
  intros Hp%N.eqb_neq Hst. tx_unfold; simpl.
  destruct (sender =? operator c); simpl; [|done].
  rewrite Hp; simpl. by rewrite Hst.
Qed.

Lemma settleBudget_not_found c sender sid x :
  payer (sessionAt c sid) = 0 ->
  settleBudget sender sid x c =
  Revert (if sender =? operator c then "X402: session not found"
          else "X402: caller is not operator").
Proof.
  intros Hp%N.eqb_eq. tx_unfold; simpl.
  destruct (sender =? operator c); simpl; [|done]. by rewrite Hp.
Qed.

Lemma settleBudget_exceeds c sender sid x :
  totalLocked (sessionAt c sid) < x ->
  exists reason, settleBudget sender sid x c = Revert reason /\
    (sender = operator c -> payer (sessionAt c sid) <> 0 ->
     settled (sessionAt c sid) = false -> reason = "X402: spent exceeds locked").
Proof.
  intros Hx%N.leb_gt. tx_unfold; simpl.
  destruct (N.eqb_spec sender (operator c)); simpl; [|eexists; split; [done|done]].
  destruct (N.eqb_spec (payer (sessionAt c sid)) 0); simpl; [eexists; split; [done|done]|].
  destruct (settled (sessionAt c sid)); simpl; [eexists; split; [done|done]|].
  rewrite Hx. simpl. eexists; split; done.
Qed.

(** *** The budget check of [authorizePayment] *)

Lemma authorizePayment_budget_error c sender sid k a :
  sender = operator c -> payer (sessionAt c sid) <> 0 ->
  settled (sessionAt c sid) = false ->
  totalSpent (sessionAt c sid) + a <= UINT256_MAX ->
  (authorizePayment sender sid k a c = Revert "X402: exceeds budget" <->
   totalLocked (sessionAt c sid) < totalSpent (sessionAt c sid) + a).
Proof.
  intros -> Hp%N.eqb_neq Hst Hmax%N.leb_le. tx_unfold; simpl.
  rewrite N.eqb_refl; simpl. rewrite Hp; simpl. rewrite Hst; simpl.
  rewrite Hmax; simpl.
  destruct (N.leb_spec (totalSpent (sessionAt c sid) + a) (totalLocked (sessionAt c sid)));
    simpl.
  - split; [|lia]. destruct (authorized (stepAt c sid k)); simpl; discriminate.
  - split; [lia|done].
Qed.

End Calls.

(** *** Settlement against [MockERC20] *)

Lemma mockTransfer_balances sender to v t t' :
  mockTransfer sender to v t = Success (true, t') -> sender <> to ->
  mockBalance t' to = mockBalance t to + v /\
  mockBalance t' sender + v = mockBalance t sender /\
  forall a, a <> sender -> a <> to -> mockBalance t' a = mockBalance t a.
Proof.
  unfold mockTransfer, checked_add. intros Ht Hne.
  destruct (N.leb_spec v (mockBalance t sender)) as [Hle|]; simpl in Ht; [|done].
  case_match eqn:Hadd; simplify_eq/=.
  unfold mockBalance in *; simpl in *.
  rewrite lookup_insert_ne in Hadd by done.
  case_match; simplify_eq/=.
  rewrite lookup_insert_eq. simpl. split; [done|]. split.
  - rewrite lookup_insert_ne, lookup_insert_eq by done. simpl. lia.
  - intros a H1 H2. by rewrite !lookup_insert_ne by done.
Qed.

End GateFacts.

(** *** The ledger claims of the specification *)

Section LedgerClaims.
Import Gate GateFacts.

(** C1 (the code departs from it).  [authorizePayment] compares
    [totalSpent + amount] with [totalLocked] but reserves nothing, so two
    steps of 3 are both authorised against a budget of 5 and confirming
    both leaves [totalSpent = 6 > 5 = totalLocked]; all five calls succeed
    (one event each) and [getRemainingBudget] then panics on the
    subtraction. *)
Theorem ledger_spent_can_exceed_locked :
  let c := run [lock5; authorizeA; authorizeB; confirmA; confirmB] setUp in
  events c = [BudgetLocked 1 thePayer 5 2; PaymentAuthorized 1 10 3;
              PaymentAuthorized 1 11 3; ExecutionConfirmed 1 10;
              ExecutionConfirmed 1 11]
  /\ totalLocked (sessionAt c 1) = 5
  /\ totalSpent (sessionAt c 1) = 6
  /\ ~ totalSpent (sessionAt c 1) <= totalLocked (sessionAt c 1)
  /\ getRemainingBudget 1 c = Panic 17.
Proof. vm_compute. repeat split; try reflexivity. intros Hle. apply Hle. reflexivity. Qed.

(** C2 fails as stated: after one confirmed step of 3, settling with the
    caller-supplied value 0 stores 0 while the confirmed steps sum to 3. *)
Lemma settle_breaks_spent_is_confirmed_sum :
  ~ (forall txs sid, spentIsConfirmedSum (run txs setUp) sid).
Proof.
  intros Hall.
  specialize (Hall [lock5; authorizeA; confirmA; (theOperator, SettleBudget 1 0)] 1).
  vm_compute in Hall. discriminate Hall.
Qed.

(** C2, amended.  From deployment on, the spend of every session that is
    not settled equals the sum of the amounts of its confirmed steps; a
    successful [settleBudget] stores the value its caller supplies and
    closes the session. *)
Theorem spent_is_confirmed_sum_until_settled {T} `{IERC20 T}
    (token : T) (op self : address) (txs : list (address * Call)) (sid : bytes32) :
  let c := run txs (deployed token op self) in
  (settled (sessionAt c sid) = false -> spentIsConfirmedSum c sid) /\
  (forall sender x c', settleBudget sender sid x c = Success (tt, c') ->
     totalSpent (sessionAt c' sid) = x /\ settled (sessionAt c' sid) = true).
Proof.
  intros c. split.
  - apply (inv_spent c). apply ledgerInv_run, ledgerInv_deployed.
  - intros sender x c' Hs.
    apply settleBudget_Success in Hs as (_ & _ & _ & _ & c2 & [= <-] & Hc).
    destruct Hc as (_ & _ & Hse & _). unfold sessionAt.
    by rewrite Hse, lookup_insert_eq.
Qed.

Lemma spent_is_confirmed_sum_until_settled_witness :
  spentIsConfirmedSum (run [lock5; authorizeA; confirmA; authorizeB; refundA] setUp) 1.
Proof.
  apply (spent_is_confirmed_sum_until_settled fundedToken theOperator theGate
           [lock5; authorizeA; confirmA; authorizeB; refundA] 1).
  vm_compute. reflexivity.
Defined.

(** C3.  For every chain state and step: one transaction either leaves
    the step state alone or moves it along one edge of
    Unauthorized -> Authorized -> Confirmed | Refunded, and then it is a
    successful call aimed at that step; [authorizePayment] succeeds only
    from Unauthorized (so neither an authorised nor a confirmed nor a
    refunded step can be authorised again), [confirmExecution] and
    [refund] succeed only from Authorized; along any sequence of
    transactions the step is authorised at most once and finalised at
    most once; a rejected call leaves the whole chain state unchanged. *)
Theorem step_authorization_lifecycle {T} `{IERC20 T} (c : Chain T) (sid k : bytes32) :
  (forall sender call,
     let c' := transact c (sender, call) in
     stepState c' sid k = stepState c sid k \/
     (stepMove (stepState c sid k) (stepState c' sid k) /\
      is_success (exec sender call c) = true /\
      isAuthorizeOf sid k call || isFinalizeOf sid k call = true)) /\
  (forall sender a,
     (stepState c sid k <> Unauthorized ->
      is_success (authorizePayment sender sid k a c) = false) /\
     (is_success (authorizePayment sender sid k a c) = true ->
      stepState (transact c (sender, AuthorizePayment sid k a)) sid k = Authorized)) /\
  (forall sender,
     (stepState c sid k <> Authorized ->
      is_success (confirmExecution sender sid k c) = false /\
      is_success (refund sender sid k c) = false) /\
     (is_success (confirmExecution sender sid k c) = true ->
      stepState (transact c (sender, ConfirmExecution sid k)) sid k = Confirmed) /\
     (is_success (refund sender sid k c) = true ->
      stepState (transact c (sender, Refund sid k)) sid k = Refunded)) /\
  (forall txs,
     (countSuccessful (isAuthorizeOf sid k) txs c <= 1)%nat /\
     (countSuccessful (isFinalizeOf sid k) txs c <= 1)%nat) /\
  (forall sender call,
     is_success (exec sender call c) = false -> transact c (sender, call) = c).
Proof.
  split; [|split; [|split; [|split]]].
  - intros sender call c'. subst c'.
    destruct (stepState_transact c sender call sid k) as [Heq|(Hmv & Hok & Hcall)];
      [by left|right]. repeat split; try done.
    destruct call; try done; destruct Hcall as (-> & -> & _); simpl;
      rewrite !N.eqb_refl; done.
  - intros sender a. split; [by apply authorize_needs_unauthorized|].
    intros Hok. destruct (authorizePayment sender sid k a c) as [[u c']| |] eqn:Hs; try done.
    rewrite (transact_Success c sender (AuthorizePayment sid k a) u c' Hs).
    by apply authorize_moves in Hs as (_ & ? & _).
  - intros sender. split; [|split].
    + intros Hne. split; [by apply confirm_needs_authorized|by apply refund_needs_authorized].
    + intros Hok.
      destruct (confirmExecution sender sid k c) as [[u c']| |] eqn:Hs; try done.
      rewrite (transact_Success c sender (ConfirmExecution sid k) u c' Hs).
      by apply confirm_moves in Hs as (_ & ? & _).
    + intros Hok. destruct (refund sender sid k c) as [[u c']| |] eqn:Hs; try done.
      rewrite (transact_Success c sender (Refund sid k) u c' Hs).
      by apply refund_moves in Hs as (_ & ? & _).
  - intros txs. split.
    + etrans; [apply countSuccessful_authorize|]. case_match; lia.
    + etrans; [apply countSuccessful_finalize|]. case_match; lia.
  - intros sender call. apply transact_failed.
Qed.

(** A refunded step cannot be authorised again, and a step that was
    authorised once is confirmed by the next [confirmExecution]. *)
Lemma step_authorization_lifecycle_witness :
  is_success (authorizePayment theOperator 1 10 3 (run [lock5; authorizeA; refundA] setUp))
    = false /\
  stepState (transact (run [lock5; authorizeA] setUp) confirmA) 1 10 = Confirmed.
Proof.
  split.
  - destruct (step_authorization_lifecycle (run [lock5; authorizeA; refundA] setUp) 1 10)
      as (_ & Hauth & _).
    destruct (Hauth theOperator 3) as [Hrej _]. apply Hrej.
    vm_compute. discriminate.
  - destruct (step_authorization_lifecycle (run [lock5; authorizeA] setUp) 1 10)
      as (_ & _ & Hfin & _).
    destruct (Hfin theOperator) as (_ & Hconf & _). apply Hconf.
    vm_compute. reflexivity.
Defined.

(** C7.  A settled session rejects a second [settleBudget]; so does a
    session that does not exist, and a supplied [totalSpent] above
    [totalLocked]; a rejected call leaves the chain, token included, as it
    was.  Once a session is settled no transaction changes it or its
    steps.  A successful settlement marks the session settled, stores the
    supplied spend, and makes exactly the token transfers of
    [settlementTransfers]: [totalLocked - totalSpent] to the payer and
    [totalSpent] to the operator. *)
Theorem settleBudget_contract {T} `{IERC20 T} (c : Chain T) (sender : address)
    (sid : bytes32) (x : uint256) :
  (payer (sessionAt c sid) <> 0 -> settled (sessionAt c sid) = true ->
     settleBudget sender sid x c =
       Revert (if sender =? operator c then "X402: session already settled"
               else "X402: caller is not operator") /\
     transact c (sender, SettleBudget sid x) = c /\
     forall sender' call,
       sessionAt (transact c (sender', call)) sid = sessionAt c sid /\
       stepsOf (transact c (sender', call)) sid = stepsOf c sid) /\
  (totalLocked (sessionAt c sid) < x ->
     is_success (settleBudget sender sid x c) = false /\
     transact c (sender, SettleBudget sid x) = c) /\
  (payer (sessionAt c sid) = 0 ->
     is_success (settleBudget sender sid x c) = false /\
     transact c (sender, SettleBudget sid x) = c) /\
  (forall c', settleBudget sender sid x c = Success (tt, c') ->
     sender = operator c /\
     sessionAt c' sid = mkSession (payer (sessionAt c sid)) (totalLocked (sessionAt c sid))
                                  x (stepCount (sessionAt c sid)) true /\
     settlementTransfers c sid x (paymentToken c')).
Proof.
  split; [|split; [|split]].
  - intros Hp Hst. split; [by apply settleBudget_settled|]. split.
    + apply transact_failed. simpl. by rewrite settleBudget_settled.
    + intros sender' call. by apply settled_frozen.
  - intros Hx. destruct (settleBudget_exceeds c sender sid x Hx) as (r & Hr & _).
    split; [by rewrite Hr|]. apply transact_failed. simpl. by rewrite Hr.
  - intros Hp. split; [by rewrite settleBudget_not_found|].
    apply transact_failed. simpl. by rewrite settleBudget_not_found.
  - intros c' Hs.
    apply settleBudget_Success in Hs as (Hop & _ & _ & _ & c2 & [= <-] & Hc).
    destruct Hc as (_ & _ & Hse & _ & _ & Htr). split; [done|]. split; [|done].
    unfold sessionAt at 1. by rewrite Hse, lookup_insert_eq.
Qed.

(** Session [1] settled with a spend of 3: a second settlement, by the
    operator, is rejected and changes nothing. *)
Lemma settleBudget_contract_witness :
  let c := run [lock5; authorizeA; confirmA; (theOperator, SettleBudget 1 3)] setUp in
  settleBudget theOperator 1 3 c = Revert "X402: session already settled" /\
  transact c (theOperator, SettleBudget 1 3) = c.
Proof.
  intros c.
  destruct (settleBudget_contract c theOperator 1 3) as (Hsettled & _).
  destruct Hsettled as (Hrev & Hsame & _).
  - vm_compute. discriminate.
  - vm_compute. reflexivity.
  - split; [exact Hrev | exact Hsame].
Defined.

(** Against the token of the test suite the two transfers of a
    settlement are balance movements (cf. [test_settleBudget_refundsUnused]). *)
Lemma settleBudget_mock_balances (c c' : Chain MockERC20) sender sid x :
  settleBudget sender sid x c = Success (tt, c') ->
  let s := sessionAt c sid in
  payer s <> this c -> operator c <> this c -> payer s <> operator c ->
  mockBalance (paymentToken c') (payer s)
    = mockBalance (paymentToken c) (payer s) + (totalLocked s - x) /\
  mockBalance (paymentToken c') (operator c) = mockBalance (paymentToken c) (operator c) + x.
Proof.
  intros Hs s Hpt Hot Hpo.
  apply settleBudget_Success in Hs as (_ & _ & _ & Hx & c2 & [= <-] & Hc).
  destruct Hc as (_ & _ & _ & _ & _ & (t1 & Hpay & Hop)). fold s in Hpay, Hop.
  simpl in Hpay, Hop.
  assert (H1 : mockBalance t1 (payer s) = mockBalance (paymentToken c) (payer s)
                                          + (totalLocked s - x) /\
               mockBalance t1 (operator c) = mockBalance (paymentToken c) (operator c)).
  { destruct (N.ltb_spec 0 (totalLocked s - x)) as [Hlt|Hge].
    - apply mockTransfer_balances in Hpay as (Hto & _ & Hoth); [|done].
      split; [done|]. apply Hoth; done.
    - subst t1. split; [lia|done]. }
  destruct H1 as [H1 H2].
  destruct (N.ltb_spec 0 x) as [Hlt|Hge].
  - apply mockTransfer_balances in Hop as (Hto & _ & Hoth); [|done].
    rewrite Hto, H2. split; [|done]. rewrite Hoth by done. done.
  - rewrite Hop, H1, H2. split; [done|lia].
Qed.

Example test_settleBudget_refundsUnused :
  let before := run [lock5; (theOperator, AuthorizePayment 1 10 2); confirmA] setUp in
  let after := transact before (theOperator, SettleBudget 1 2) in
  mockBalance (paymentToken after) thePayer = mockBalance (paymentToken before) thePayer + 3 /\
  mockBalance (paymentToken after) theOperator
    = mockBalance (paymentToken before) theOperator + 2.
Proof. vm_compute. split; reflexivity. Qed.

End LedgerClaims.

(** ** Part II: the step scheduler *)

Module AgentFacts.
Import Agent.

Section Scheduler.
Context {W : Type} (env : World W).
Implicit Types (m : Machine W) (step : Step) (plan : ExecutionPlan).

(** *** Which operations leave the fields of the executor alone *)

#[local] Abbreviation keepsSelf := (@Agent.keepsSelf W _) (only parsing).

Lemma keepsSelf_pure {A} (a : A) : keepsSelf (pure a).
Proof. done. Qed.

Lemma keepsSelf_throw {A} msg : keepsSelf (@throw _ A msg).
Proof. done. Qed.

Lemma keepsSelf_this : keepsSelf this.
Proof. done. Qed.

Lemma keepsSelf_now : keepsSelf (now env).
Proof. intros m. unfold now. by destruct (Date_now env (world m)). Qed.

Lemma keepsSelf_isoNow : keepsSelf (isoNow env).
Proof. intros m. unfold isoNow. by destruct (toISOString env (world m)). Qed.

Lemma keepsSelf_io {A} (f : W -> completion A * W) : keepsSelf (io f).
Proof. intros m. unfold io. by destruct (f (world m)). Qed.

Lemma keepsSelf_andThen {A B} (f : Eff (Machine W) A) (k : A -> Eff (Machine W) B) :
  keepsSelf f -> (forall a, keepsSelf (k a)) -> keepsSelf (andThen f k).
Proof.
  intros Hf Hk m. unfold andThen. specialize (Hf m).
  destruct (f m) as [[a|e] m1]; simpl in *; [|done].
  by rewrite Hk.
Qed.

Lemma keepsSelf_tryCatch {A} (f : Eff (Machine W) A) (h : string -> Eff (Machine W) A) :
  keepsSelf f -> (forall e, keepsSelf (h e)) -> keepsSelf (tryCatch f h).
Proof.
  intros Hf Hh m. unfold tryCatch. specialize (Hf m).
  destruct (f m) as [[a|e] m1]; simpl in *; [done|].
  by rewrite Hh.
Qed.

Ltac keeps :=
  repeat first
    [ apply keepsSelf_pure | apply keepsSelf_throw | apply keepsSelf_this
    | apply keepsSelf_now | apply keepsSelf_isoNow | apply keepsSelf_io
    | apply keepsSelf_andThen; [|intros ?]
    | apply keepsSelf_tryCatch; [|intros ?]
    | case_match ].

Lemma keepsSelf_executeTool step plan : keepsSelf (executeTool env step plan).
Proof.
  unfold executeTool, executeAnthropic, executeTavily, executeBlockchainRPC. keeps.
Qed.

Lemma keepsSelf_authorizePayment step sid : keepsSelf (authorizePayment env step sid).
Proof. unfold authorizePayment. keeps. Qed.

Lemma keepsSelf_confirmPayment k sid : keepsSelf (confirmPayment env k sid).
Proof. unfold confirmPayment. keeps. Qed.

Lemma keepsSelf_refundPayment k sid : keepsSelf (refundPayment env k sid).
Proof. unfold refundPayment. keeps. Qed.

(** *** Unfolding one effect at a time *)

Lemma andThen_eq {S A B} (f : Eff S A) (k : A -> Eff S B) (s : S) :
  andThen f k s = match f s with
                  | (Return a, s') => k a s'
                  | (Throw e, s') => (Throw e, s')
                  end.
Proof. done. Qed.

Lemma tryCatch_eq {S A} (f : Eff S A) (h : string -> Eff S A) (s : S) :
  tryCatch f h s = match f s with
                   | (Return a, s') => (Return a, s')
                   | (Throw e, s') => h e s'
                   end.
Proof. done. Qed.

Lemma now_eq m :
  now env m = (Return (fst (Date_now env (world m))),
               mkMachine (self m) (snd (Date_now env (world m)))).
Proof. unfold now. by destruct (Date_now env (world m)). Qed.

Lemma isoNow_eq m :
  isoNow env m = (Return (fst (toISOString env (world m))),
                  mkMachine (self m) (snd (toISOString env (world m)))).
Proof. unfold isoNow. by destruct (toISOString env (world m)). Qed.

Lemma push_eq r m :
  push r m = (Return tt, mkMachine (mkExecutor (config (self m)) (stepResults (self m) ++ [r])
                                               (totalSpent (self m))) (world m)).
Proof. done. Qed.

Lemma spend_eq c m :
  spend c m = (Return tt, mkMachine (mkExecutor (config (self m)) (stepResults (self m))
                                                (plus (totalSpent (self m)) c)) (world m)).
Proof. done. Qed.

(** *** Payment authorisation *)

(** [authorizePayment] never throws: the outcome of the contract call
    becomes the [authorized] flag, and in simulated mode the
    authorisation is granted whatever the cost. *)
Lemma authorizePayment_returns step sid m :
  exists p m1, authorizePayment env step sid m = (Return p, m1) /\ self m1 = self m /\
    pa_step_id p = id step /\
    if onChain (config (self m))
    then match callContract env "authorizePayment"
                 [JStr (hashStepId (id step));
                  JNum (inject_Z (Qfloor (estimated_cost_usd step * 1000000)))]
                 sid (world m) with
         | (Return txHash, w) =>
             pa_authorized p = true /\ tx_hash p = Some txHash /\ world m1 = w
         | (Throw msg, w) =>
             pa_authorized p = false /\ tx_hash p = None /\ pa_error p = Some msg
             /\ world m1 = w
         end
    else pa_authorized p = true.
Proof.
  unfold authorizePayment, andThen, tryCatch, this, io, now, pure.
  destruct (onChain (config (self m))); simpl.
  - destruct (callContract env _ _ sid (world m)) as [[txHash|msg] w]; simpl;
      eexists _, _; (split; [done|]); done.
  - destruct (Date_now env (world m)) as [t w]; simpl.
    eexists _, _; (split; [done|]); done.
Qed.

Lemma authorizePayment_simulated step sid m :
  onChain (config (self m)) = false ->
  exists p m1, authorizePayment env step sid m = (Return p, m1) /\ pa_authorized p = true.
Proof.
  intros Hsim. destruct (authorizePayment_returns step sid m) as (p & m1 & Hp & _ & _ & Hc).
  rewrite Hsim in Hc. eauto.
Qed.

(** *** One iteration of the loop *)

Lemma executeStep_denied plan step m p m1 :
  authorizePayment env step (session_id plan) m = (Return p, m1) ->
  pa_authorized p = false ->
  executeStep env plan step m =
  (Return Break,
   after m [deniedResult step p (fst (toISOString env (world m1)))] (totalSpent (self m))
         (snd (toISOString env (world m1)))).
Proof.
  intros Hauth Hden. pose proof (keepsSelf_authorizePayment step (session_id plan) m) as Hk.
  rewrite Hauth in Hk; simpl in Hk.
  unfold executeStep, andThen. rewrite Hauth, Hden; simpl.
  unfold isoNow, push, pure, after. destruct (toISOString env (world m1)) as [ts w]; simpl.
  by rewrite Hk.
Qed.

(** When the tool throws: the failed result is pushed, nothing is spent,
    and [refundPayment] is what remains of the iteration. *)
Lemma executeStep_tool_throws plan step m p m1 msg m2 :
  authorizePayment env step (session_id plan) m = (Return p, m1) ->
  pa_authorized p = true ->
  executeTool env step plan (mkMachine (self m1) (snd (Date_now env (world m1))))
    = (Throw msg, m2) ->
  let t0 := fst (Date_now env (world m1)) in
  let t := fst (Date_now env (world m2)) in
  let w3 := snd (Date_now env (world m2)) in
  executeStep env plan step m =
  andThen (refundPayment env (id step) (session_id plan)) (fun _ => pure Next)
    (after m [failedResult step p msg (t - t0) (fst (toISOString env w3))]
           (totalSpent (self m)) (snd (toISOString env w3))).
Proof.
  intros Hauth Hok Htool t0 t w3; subst t0 t w3.
  pose proof (keepsSelf_authorizePayment step (session_id plan) m) as Hk.
  rewrite Hauth in Hk; simpl in Hk.
  pose proof (keepsSelf_executeTool step plan
                (mkMachine (self m1) (snd (Date_now env (world m1))))) as Hk2.
  rewrite Htool in Hk2; simpl in Hk2.
  match goal with |- _ = ?r => set (rhs := r) end.
  unfold executeStep. rewrite andThen_eq, Hauth, Hok.
  change (negb true) with false. cbv beta iota.
  rewrite andThen_eq, now_eq. cbv beta iota.
  rewrite andThen_eq, tryCatch_eq, andThen_eq, Htool. cbv beta iota.
  rewrite andThen_eq, now_eq. cbv beta iota.
  rewrite andThen_eq, isoNow_eq. cbv beta iota.
  rewrite andThen_eq, push_eq. cbv beta iota.
  subst rhs. unfold after. simpl. rewrite Hk2, Hk. done.
Qed.

Lemma catchBlock_summary plan step p t0 msg mh res m' :
  catchBlock env plan step p t0 msg mh = (res, m') ->
  res <> Return Break /\ config (self m') = config (self mh) /\
  totalSpent (self m') = totalSpent (self mh) /\
  exists d ts,
    stepResults (self m') = (stepResults (self mh) ++ [failedResult step p msg d ts])%list.
Proof.
  unfold catchBlock.
  rewrite andThen_eq, andThen_eq, now_eq. cbv beta iota.
  rewrite andThen_eq, isoNow_eq. cbv beta iota.
  rewrite andThen_eq, push_eq. cbv beta iota.
  match goal with |- context [refundPayment env ?k ?sid ?mx] =>
    pose proof (keepsSelf_refundPayment k sid mx) as Hk;
    destruct (refundPayment env k sid mx) as [[[]|e] m4]
  end; simpl in Hk; intros [= <- <-]; rewrite Hk; simpl;
    (split; [done|]); (split; [done|]); (split; [done|]); eexists _, _; done.
Qed.

(** What one iteration does to the executor, whatever the world does. *)
Lemma executeStep_summary plan step m res m' :
  executeStep env plan step m = (res, m') ->
  config (self m') = config (self m) /\
  exists new, stepResults (self m') = (stepResults (self m) ++ new)%list /\
    totalSpent (self m') = spentOn new (totalSpent (self m)) /\
    Forall (fun r => step_id r = id step /\ r_index r = index step) new /\
    match res with
    | Return Break => exists r, new = [r] /\ status r = payment_denied
    | _ => Forall (fun r => status r <> payment_denied) new /\ new <> []
    end.
Proof.
  destruct (authorizePayment_returns step (session_id plan) m)
    as (p & m1 & Hauth & Hs1 & _).
  destruct (pa_authorized p) eqn:Hok.
  2:{ rewrite (executeStep_denied _ _ _ _ _ Hauth Hok). intros [= <- <-].
      split; [done|]. eexists [_]. split; [done|]. split; [done|]. split.
      - by repeat constructor.
      - eexists. split; done. }
  unfold executeStep. rewrite andThen_eq, Hauth, Hok.
  change (negb true) with false. cbv beta iota.
  rewrite andThen_eq, now_eq. cbv beta iota.
  set (t0 := fst (Date_now env (world m1))).
  set (w1 := snd (Date_now env (world m1))).
  rewrite andThen_eq, tryCatch_eq, andThen_eq.
  pose proof (keepsSelf_executeTool step plan (mkMachine (self m1) w1)) as Hk2.
  destruct (executeTool env step plan (mkMachine (self m1) w1)) as [[out|msg] m2];
    simpl in Hk2; cbv beta iota.
  - (* the tool returned *)
    rewrite andThen_eq, now_eq. cbv beta iota.
    rewrite andThen_eq, spend_eq. cbv beta iota.
    rewrite andThen_eq, isoNow_eq. cbv beta iota.
    rewrite andThen_eq, push_eq. cbv beta iota.
    match goal with |- context [confirmPayment env ?k ?sid ?mx] =>
      pose proof (keepsSelf_confirmPayment k sid mx) as Hk3;
      destruct (confirmPayment env k sid mx) as [[[]|e] m3]
    end; simpl in Hk3; cbv beta iota.
    + intros [= <- <-]. rewrite Hk3, Hk2, Hs1. simpl. split; [done|].
      eexists [_]. split; [done|]. split; [done|]. split.
      * by repeat constructor.
      * split; [|done]. by repeat constructor.
    + intros Hc. fold (catchBlock env plan step p t0 e m3) in Hc.
      apply catchBlock_summary in Hc as (Hres & Hcfg & Hsp & d & ts & Hrs).
      rewrite Hcfg, Hsp, Hrs, Hk3, Hk2, Hs1. simpl. split; [done|].
      eexists [_; _]. split; [by rewrite <- app_assoc|]. split; [done|]. split.
      * by repeat constructor.
      * destruct res as [[]|]; try done; (split; [|done]); by repeat constructor.
  - (* the tool threw *)
    intros Hc. fold (catchBlock env plan step p t0 msg m2) in Hc.
    apply catchBlock_summary in Hc as (Hres & Hcfg & Hsp & d & ts & Hrs).
    rewrite Hcfg, Hsp, Hrs, Hk2, Hs1. split; [done|].
    eexists [_]. split; [done|]. split; [done|]. split.
    + by repeat constructor.
    + destruct res as [[]|]; try done; (split; [|done]); by repeat constructor.
Qed.

(** *** The loop *)

Lemma spentOn_app a b start : spentOn (a ++ b) start = spentOn b (spentOn a start).
Proof. unfold spentOn. by rewrite filter_app, map_app, fold_left_app. Qed.

Lemma forEachStep_cons plan step rest m :
  forEachStep env plan (step :: rest) m =
  match executeStep env plan step m with
  | (Return Next, m1) => forEachStep env plan rest m1
  | (Return Break, m1) => (Return true, m1)
  | (Throw e, m1) => (Throw e, m1)
  end.
Proof.
  simpl. rewrite andThen_eq.
  by destruct (executeStep env plan step m) as [[[]|e] m1].
Qed.

(** Steps processed without halting are a prefix that can be cut off. *)
Lemma forEachStep_app plan pre rest m m1 :
  forEachStep env plan pre m = (Return false, m1) ->
  forEachStep env plan (pre ++ rest) m = forEachStep env plan rest m1.
Proof.
  revert m. induction pre as [|s pre IH]; intros m.
  - by intros [= <-].
  - rewrite <- app_comm_cons, !forEachStep_cons.
    destruct (executeStep env plan s m) as [[[]|e] m2]; try done. apply IH.
Qed.

(** What a run of the loop does to the executor: it only appends
    results, each for a step of the list; what it adds to [totalSpent]
    is the cost of the completed results it appended; a denied result
    is the last one appended and exists exactly when the loop reports
    [halted]. *)
Lemma forEachStep_summary plan l m res m' :
  forEachStep env plan l m = (res, m') ->
  config (self m') = config (self m) /\
  exists new, stepResults (self m') = (stepResults (self m) ++ new)%list /\
    totalSpent (self m') = spentOn new (totalSpent (self m)) /\
    Forall (fun r => exists s, s ∈ l /\ step_id r = id s /\ r_index r = index s) new /\
    (forall i r, new !! i = Some r -> status r = payment_denied ->
                 res = Return true /\ S i = length new) /\
    (res = Return true -> exists r, last new = Some r /\ status r = payment_denied) /\
    (res = Return false -> length l <= length new)%nat.
Proof.
  revert m. induction l as [|s l IH]; intros m.
  - intros [= <- <-]. split; [done|]. exists []. rewrite app_nil_r.
    repeat split; try done; simpl; lia.
  - rewrite forEachStep_cons.
    destruct (executeStep env plan s m) as [r1 m1] eqn:Hstep.
    apply executeStep_summary in Hstep as (Hcfg & new1 & Hrs & Hsp & Hids & Hres).
    assert (Hids' : Forall (fun r => exists s0, s0 ∈ s :: l /\ step_id r = id s0
                                      /\ r_index r = index s0) new1).
    { eapply Forall_impl; [exact Hids|]. intros r [? ?]. exists s.
      split; [apply list_elem_of_here|done]. }
    destruct r1 as [[]|e].
    + (* the iteration went on *)
      intros Hrest. apply IH in Hrest as (Hcfg2 & new2 & Hrs2 & Hsp2 & Hids2 & Hden & Hlast & Hlen).
      destruct Hres as [Hnd Hne].
      split; [congruence|]. exists (new1 ++ new2)%list.
      split; [by rewrite Hrs2, Hrs, app_assoc|].
      split; [by rewrite spentOn_app, <- Hsp, Hsp2|].
      split.
      { apply Forall_app. split; [done|]. eapply Forall_impl; [exact Hids2|].
        intros r (s0 & Hin & ?). exists s0. split; [by apply list_elem_of_further|done]. }
      split; [|split].
      * intros i r Hi Hst. destruct (decide (i < length new1)%nat) as [Hlt|Hge].
        -- rewrite lookup_app_l in Hi by done.
           rewrite Forall_lookup in Hnd. by apply Hnd in Hi.
        -- rewrite lookup_app_r in Hi by lia.
           destruct (Hden _ _ Hi Hst) as [-> Hl]. split; [done|].
           rewrite length_app. lia.
      * intros Ht. destruct (Hlast Ht) as (r & Hl & Hst). exists r. split; [|done].
        rewrite last_app. by rewrite Hl.
      * intros Hf. specialize (Hlen Hf). rewrite length_app. simpl.
        destruct new1; [done|]. simpl. lia.
    + (* the authorisation was denied *)
      intros [= <- <-]. destruct Hres as (r & -> & Hst).
      split; [done|]. exists [r].
      split; [done|]. split; [done|]. split; [done|]. split; [|split].
      * intros i r' Hi _. destruct i; [done|]. by destruct i.
      * intros _. by exists r.
      * done.
    + (* an exception escaped *)
      intros [= <- <-]. destruct Hres as [Hnd Hne].
      split; [done|]. exists new1.
      split; [done|]. split; [done|]. split; [done|]. split; [|split].
      * intros i r Hi Hst. rewrite Forall_lookup in Hnd. by apply Hnd in Hi.
      * done.
      * done.
Qed.

(** *** When an iteration can break *)

Lemma executeStep_authorized plan step m p m1 :
  authorizePayment env step (session_id plan) m = (Return p, m1) ->
  pa_authorized p = true ->
  fst (executeStep env plan step m) <> Return Break.
Proof.
  intros Hauth Hok. unfold executeStep. rewrite andThen_eq, Hauth, Hok.
  change (negb true) with false. cbv beta iota.
  rewrite andThen_eq, now_eq. cbv beta iota. rewrite andThen_eq.
  match goal with |- context [tryCatch ?f ?h ?mx] => destruct (tryCatch f h mx) as [[[]|e] m2] end;
    done.
Qed.

(** In simulated mode the loop never halts. *)
Lemma forEachStep_simulated plan l m :
  onChain (config (self m)) = false ->
  fst (forEachStep env plan l m) <> Return true.
Proof.
  revert m. induction l as [|s l IH]; intros m Hsim; [done|].
  rewrite forEachStep_cons.
  destruct (authorizePayment_simulated s (session_id plan) m Hsim) as (p & m1 & Hauth & Hok).
  pose proof (executeStep_authorized plan s m p m1 Hauth Hok) as Hnb.
  destruct (executeStep env plan s m) as [[[]|e] m2] eqn:Hstep; try done.
  apply IH. apply executeStep_summary in Hstep as (Hcfg & _). by rewrite Hcfg.
Qed.

(** *** When the tool throws *)

Lemma executeTool_unknown step plan m :
  knownTool (tool step) = false ->
  executeTool env step plan m = (Throw ("Unknown tool: " ++ tool step)%string, m).
Proof.
  unfold knownTool, executeTool. intros Hk.
  repeat (apply orb_false_iff in Hk as [Hk ?]).
  by repeat match goal with Hx : String.eqb _ _ = false |- _ => rewrite Hx; clear Hx end.
Qed.

Lemma executeTavily_not_ok step plan m resp w :
  tool step = "tavily" ->
  (forall body, fetch_tavily env body (world m) = (Return resp, w)) ->
  ok resp = false ->
  executeTool env step plan m =
  (Throw ("Tavily API error: " ++ showZ (http_status resp) ++ " " ++ statusText resp)%string,
   mkMachine (self m) w).
Proof.
  intros Ht Hfetch Hok. unfold executeTool. rewrite Ht. simpl.
  unfold executeTavily. rewrite andThen_eq. cbv beta iota. simpl.
  rewrite andThen_eq. unfold io at 1. rewrite Hfetch, Hok. done.
Qed.

Lemma executeRpc_not_ok step plan m resp w :
  tool step = "blockchain_rpc" ->
  (forall u body, fetch_rpc env u body (world m) = (Return resp, w)) ->
  ok resp = false ->
  executeTool env step plan m =
  (Throw ("RPC error: " ++ showZ (http_status resp) ++ " " ++ statusText resp)%string,
   mkMachine (self m) w).
Proof.
  intros Ht Hfetch Hok. unfold executeTool. rewrite Ht. simpl.
  unfold executeBlockchainRPC. rewrite andThen_eq. cbv beta iota. simpl.
  rewrite andThen_eq. unfold io at 1. rewrite Hfetch, Hok. done.
Qed.

Lemma executeRpc_error step plan m resp w d message :
  tool step = "blockchain_rpc" ->
  (forall u body, fetch_rpc env u body (world m) = (Return resp, w)) ->
  ok resp = true -> json resp = Return d -> rpc_error d = Some message ->
  executeTool env step plan m =
  (Throw ("RPC call failed: " ++ message)%string, mkMachine (self m) w).
Proof.
  intros Ht Hfetch Hok Hjson Herr. unfold executeTool. rewrite Ht. simpl.
  unfold executeBlockchainRPC. rewrite andThen_eq. cbv beta iota. simpl.
  rewrite andThen_eq. unfold io at 1. rewrite Hfetch, Hok. cbv beta iota. simpl.
  rewrite andThen_eq. unfold io. simpl. rewrite Hjson, Herr. done.
Qed.

(** [refundPayment], by what it sends. *)
Lemma refundPayment_eq k sid m :
  refundPayment env k sid m =
  if onChain (config (self m))
  then match callContract env "refund" [JStr (hashStepId k)] sid (world m) with
       | (Return _, w') => (Return tt, mkMachine (self m) w')
       | (Throw e, w') => (Throw e, mkMachine (self m) w')
       end
  else (Return tt, m).
Proof.
  unfold refundPayment. rewrite andThen_eq. cbv beta iota. simpl.
  destruct (onChain (config (self m))); [|done].
  rewrite andThen_eq. unfold io.
  by destruct (callContract env "refund" [JStr (hashStepId k)] sid (world m)) as [[h|e] w'].
Qed.

(** The refund call returns in simulated mode and with the placeholder
    contract call of the source. *)
Lemma refundPayment_returns k sid m :
  onChain (config (self m)) = false \/ callContract env = callContractStub (Date_now env) ->
  exists w, refundPayment env k sid m = (Return tt, mkMachine (self m) w).
Proof.
  intros Hmode. unfold refundPayment. rewrite andThen_eq. cbv beta iota. simpl.
  destruct (onChain (config (self m))) eqn:Hon.
  - destruct Hmode as [|Hstub]; [done|]. rewrite andThen_eq. unfold io. rewrite Hstub.
    unfold callContractStub. destruct (Date_now env (world m)) as [t w]. simpl. eauto.
  - destruct m. eauto.
Qed.

End Scheduler.
End AgentFacts.

(** *** The scheduler claims of the specification *)

Section SchedulerClaims.
Import Agent AgentFacts.

(** C4 (the code departs from it).  On the plan of Scenario B the
    scheduler denies nothing: in simulated mode, and with a contract
    address and the placeholder contract call of the source, all three
    steps complete, the run is not halted and three steps count as
    executed.  No branch of [authorizePayment] compares a cost with the
    budget. *)
Theorem scenario_B_is_never_denied :
  (exists r m', executeAll (demoWorld stubContract) scenarioB (fresh simulated) = (Return r, m')
     /\ map status (run_results r) = [completed; completed; completed]
     /\ run_halted r = false /\ countCompleted (run_results r) = 3%Z) /\
  (exists r m', executeAll (demoWorld stubContract) scenarioB (fresh deployedGate)
                = (Return r, m')
     /\ map status (run_results r) = [completed; completed; completed]
     /\ run_halted r = false /\ countCompleted (run_results r) = 3%Z).
Proof.
  split; eexists _, _; (split; [vm_compute; reflexivity|]); vm_compute; repeat split.
Qed.

(** C5.  When the steps before [step] were processed without a halt and
    the authorisation of [step] is denied (its contract call threw),
    [executeAll] returns: the result list is the one built so far followed
    by one [payment_denied] result for [step], [halted] is set, and what
    was appended before the denial are results of the earlier steps only,
    none of them denied.  Moreover, whenever [executeAll] returns, a
    [payment_denied] result among those it appended is the last one and
    the run is halted. *)
Theorem denial_halts_the_run {W} (env : World W) (plan : ExecutionPlan)
    (pre : list Step) (step : Step) (post : list Step)
    (m m1 m2 : Machine W) (p : PaymentAuthorization) :
  steps plan = (pre ++ step :: post)%list ->
  forEachStep env plan pre m = (Return false, m1) ->
  authorizePayment env step (session_id plan) m1 = (Return p, m2) ->
  pa_authorized p = false ->
  (exists denied earlier m',
     executeAll env plan m =
       (Return {| run_results := (stepResults (self m) ++ earlier ++ [denied])%list;
                  run_totalSpent := totalSpent (self m1);
                  run_halted := true |}, m')
     /\ status denied = payment_denied /\ step_id denied = id step
     /\ stepResults (self m1) = (stepResults (self m) ++ earlier)%list
     /\ Forall (fun r => status r <> payment_denied /\
                         exists s, s ∈ pre /\ step_id r = id s /\ r_index r = index s)
               earlier) /\
  (forall plan' m0 r m', executeAll env plan' m0 = (Return r, m') ->
     exists new, run_results r = (stepResults (self m0) ++ new)%list /\
       forall i x, new !! i = Some x -> status x = payment_denied ->
                   run_halted r = true /\ S i = length new).
Proof.
  intros Hsteps Hpre Hauth Hden. split.
  - pose proof Hpre as Hsum.
    apply forEachStep_summary in Hsum as (_ & earlier & Hrs & _ & Hids & Hnd & _).
    exists (deniedResult step p (fst (toISOString env (world m2)))), earlier. eexists.
    split.
    + unfold executeAll. rewrite andThen_eq, Hsteps, (forEachStep_app _ _ _ _ _ _ Hpre).
      rewrite forEachStep_cons, (executeStep_denied _ _ _ _ _ _ Hauth Hden).
      cbv beta iota. unfold after. rewrite andThen_eq. simpl.
      rewrite Hrs, <- app_assoc. reflexivity.
    + split; [done|]. split; [done|]. split; [done|].
      apply Forall_lookup. intros i r Hi. split.
      * intros Hst. by destruct (Hnd _ _ Hi Hst).
      * rewrite Forall_lookup in Hids. by apply (Hids i).
  - intros plan' m0 r m'. unfold executeAll. rewrite andThen_eq.
    destruct (forEachStep env plan' (steps plan') m0) as [[h|e] m3] eqn:Hloop; [|done].
    rewrite andThen_eq. simpl. intros [= <- <-]. simpl.
    apply forEachStep_summary in Hloop as (_ & new & Hrs & _ & _ & Hnd & _).
    exists new. split; [done|]. intros i x Hi Hst.
    destruct (Hnd _ _ Hi Hst) as [[= ->] Hl]. done.
Qed.

(** The gate reverts the authorisation of the second step of three. *)
Lemma denial_halts_the_run_witness :
  exists r m', executeAll (demoWorld (denying "step_1")) scenarioB (fresh deployedGate)
               = (Return r, m')
    /\ map status (run_results r) = [completed; payment_denied]
    /\ run_halted r = true.
Proof.
  pose (env := demoWorld (denying "step_1")).
  pose (s0 := demoStep 0 "anthropic" (3 # 10)).
  pose (s1 := demoStep 1 "tavily" (3 # 10)).
  pose (s2 := demoStep 2 "reasoning" (3 # 10)).
  pose (m1 := snd (forEachStep env scenarioB [s0] (fresh deployedGate))).
  pose (p := {| pa_step_id := id s1; amount_usd := 3 # 10; pa_authorized := false;
                tx_hash := None;
                pa_error := Some "execution reverted: X402: exceeds budget" |}).
  destruct (denial_halts_the_run env scenarioB [s0] s1 [s2] (fresh deployedGate) m1 m1 p)
    as [(denied & earlier & m' & Hrun & Hst & _ & Hearlier & _) _].
  - reflexivity.
  - vm_compute. reflexivity.
  - vm_compute. reflexivity.
  - reflexivity.
  - eexists _, m'. split; [exact Hrun|]. split; [|reflexivity].
    simpl. rewrite !map_app. simpl. rewrite Hst.
    assert (He : earlier = stepResults (self m1)).
    { change (stepResults (self (fresh deployedGate))) with (@nil StepResult) in Hearlier.
      by rewrite Hearlier. }
    rewrite He. vm_compute. reflexivity.
Defined.

(** C6.  When a step is authorised and its tool throws, the iteration
    pushes one [failed] result carrying the thrown message with an
    actual cost of 0 and leaves [totalSpent] as it was.  With a payment
    contract it then makes the contract call [refund] with the hash of
    the id of that step, for the session of the plan, right after the
    failed result was stamped, and nothing else: the world after the
    iteration is the world that call leaves.  Without
    a contract (simulated mode) there is nothing to send.  The iteration
    never breaks the loop, so the failure sets no halt, and once it
    returns the loop goes on with the next step; it returns in simulated
    mode and with the placeholder contract call of the source (a [refund]
    call that throws is passed on).  An unrecognised tool, a non-success
    HTTP response of the search or the RPC endpoint, and an RPC error
    member, each make the tool throw. *)
Theorem tool_failure_is_refunded_and_skipped {W} (env : World W) (plan : ExecutionPlan)
    (step : Step) (rest : list Step) (m m1 m2 : Machine W) (p : PaymentAuthorization)
    (msg : string) :
  authorizePayment env step (session_id plan) m = (Return p, m1) ->
  pa_authorized p = true ->
  executeTool env step plan (mkMachine (self m1) (snd (Date_now env (world m1))))
    = (Throw msg, m2) ->
  (exists d ts,
     let w := snd (toISOString env (snd (Date_now env (world m2)))) in
     let r := failedResult step p msg d ts in
     let sent := callContract env "refund" [JStr (hashStepId (id step))] (session_id plan) w in
     status r = failed /\ error r = Some msg /\ actual_cost_usd r = Num 0 /\
     executeStep env plan step m =
       (if onChain (config (self m))
        then match sent with
             | (Return _, w') => (Return Next, after m [r] (totalSpent (self m)) w')
             | (Throw e, w') => (Throw e, after m [r] (totalSpent (self m)) w')
             end
        else (Return Next, after m [r] (totalSpent (self m)) w)) /\
     fst (executeStep env plan step m) <> Return Break /\
     (forall m4, executeStep env plan step m = (Return Next, m4) ->
        forEachStep env plan (step :: rest) m = forEachStep env plan rest m4 /\
        stepResults (self m4) = (stepResults (self m) ++ [r])%list /\
        totalSpent (self m4) = totalSpent (self m)) /\
     (onChain (config (self m)) = false \/ callContract env = callContractStub (Date_now env) ->
        exists m4, executeStep env plan step m = (Return Next, m4))) /\
  (forall step' plan' m', knownTool (tool step') = false ->
     executeTool env step' plan' m' = (Throw ("Unknown tool: " ++ tool step')%string, m')) /\
  (forall step' plan' m' resp w, tool step' = "tavily" ->
     (forall body, fetch_tavily env body (world m') = (Return resp, w)) -> ok resp = false ->
     fst (executeTool env step' plan' m') =
       Throw ("Tavily API error: " ++ showZ (http_status resp) ++ " " ++ statusText resp)%string) /\
  (forall step' plan' m' resp w, tool step' = "blockchain_rpc" ->
     (forall u body, fetch_rpc env u body (world m') = (Return resp, w)) ->
     (ok resp = false ->
      fst (executeTool env step' plan' m') =
        Throw ("RPC error: " ++ showZ (http_status resp) ++ " " ++ statusText resp)%string) /\
     (forall d message, ok resp = true -> json resp = Return d -> rpc_error d = Some message ->
      fst (executeTool env step' plan' m') = Throw ("RPC call failed: " ++ message)%string)).
Proof.
  intros Hauth Hok Htool. split; [|split; [|split]].
  - pose proof (executeStep_tool_throws env _ _ _ _ _ _ _ Hauth Hok Htool) as Hstep.
    cbv zeta in Hstep. rewrite andThen_eq, refundPayment_eq in Hstep.
    unfold after in Hstep at 1 2 3 4. simpl self in Hstep. simpl config in Hstep.
    simpl world in Hstep.
    eexists _, _. cbv zeta.
    split; [reflexivity|]. split; [reflexivity|]. split; [reflexivity|].
    assert (Heq : executeStep env plan step m =
      (if onChain (config (self m))
       then match callContract env "refund" [JStr (hashStepId (id step))] (session_id plan)
                    (snd (toISOString env (snd (Date_now env (world m2))))) with
            | (Return _, w') =>
                (Return Next,
                 after m [failedResult step p msg
                            (fst (Date_now env (world m2)) - fst (Date_now env (world m1)))
                            (fst (toISOString env (snd (Date_now env (world m2)))))]
                       (totalSpent (self m)) w')
            | (Throw e, w') =>
                (Throw e,
                 after m [failedResult step p msg
                            (fst (Date_now env (world m2)) - fst (Date_now env (world m1)))
                            (fst (toISOString env (snd (Date_now env (world m2)))))]
                       (totalSpent (self m)) w')
            end
       else (Return Next,
             after m [failedResult step p msg
                        (fst (Date_now env (world m2)) - fst (Date_now env (world m1)))
                        (fst (toISOString env (snd (Date_now env (world m2)))))]
                   (totalSpent (self m))
                   (snd (toISOString env (snd (Date_now env (world m2)))))))).
    { rewrite Hstep. destruct (onChain (config (self m))); [|done].
      by destruct (callContract env "refund" _ _ _) as [[h|e] w']. }
    split; [exact Heq|]. split; [|split].
    + rewrite Heq. destruct (onChain (config (self m))); [|done].
      by destruct (callContract env "refund" _ _ _) as [[h|e] w'].
    + intros m4 Hm4. rewrite forEachStep_cons, Hm4. split; [done|].
      rewrite Heq in Hm4. destruct (onChain (config (self m))).
      * destruct (callContract env "refund" _ _ _) as [[h|e] w']; [|done].
        by injection Hm4 as <-.
      * by injection Hm4 as <-.
    + intros Hmode. rewrite Heq. destruct (onChain (config (self m))); [|eauto].
      destruct Hmode as [|Hstub]; [done|]. rewrite Hstub. unfold callContractStub.
      destruct (Date_now env (snd (toISOString env (snd (Date_now env (world m2))))))
        as [t w4]. eauto.
  - intros. by apply executeTool_unknown.
  - intros step' plan' m' resp w Ht Hfetch Hnok.
    by rewrite (executeTavily_not_ok env step' plan' m' resp w).
  - intros step' plan' m' resp w Ht Hfetch. split.
    + intros Hnok. by rewrite (executeRpc_not_ok env step' plan' m' resp w).
    + intros d message Hok' Hjson Herr.
      by rewrite (executeRpc_error env step' plan' m' resp w d message).
Qed.

(** With a payment contract whose calls are logged: the RPC endpoint of
    the demo world answers 500, the step fails, the contract receives
    [authorizePayment] and then [refund] for the hash of [step_0] and
    the session of the plan, and the search step after it runs. *)
Lemma tool_failure_is_refunded_and_skipped_witness :
  let env := recording (demoWorld stubContract) in
  let bad := demoStep 0 "blockchain_rpc" (1 # 10) in
  let good := demoStep 1 "tavily" (1 # 10) in
  let plan := demoPlan 1 [bad; good] in
  let m := mkMachine (newExecutor deployedGate) (0%Z, []) in
  exists m4,
    forEachStep env plan [bad; good] m = forEachStep env plan [good] m4 /\
    map status (stepResults (self m4)) = [failed] /\
    map error (stepResults (self m4)) = [Some "RPC error: 500 Internal Server Error"] /\
    totalSpent (self m4) = Num 0 /\
    snd (world m4)
      = [("authorizePayment", [JStr (hashStepId "step_0"); JNum (inject_Z 100000)], "session");
         ("refund", [JStr (hashStepId "step_0")], "session")].
Proof.
  intros env bad good plan m.
  pose (m1 := snd (authorizePayment env bad (session_id plan) m)).
  pose (p := {| pa_step_id := id bad; amount_usd := 1 # 10; pa_authorized := true;
                tx_hash := Some "0x30"; pa_error := None |}).
  pose (m2 := snd (executeTool env bad plan
                     (mkMachine (self m1) (snd (Date_now env (world m1)))))).
  destruct (tool_failure_is_refunded_and_skipped env plan bad [good] m
              m1 m2 p "RPC error: 500 Internal Server Error")
    as [(d & ts & _ & _ & _ & _ & _ & Hnext & _) _].
  - vm_compute. reflexivity.
  - reflexivity.
  - vm_compute. reflexivity.
  - pose (m4 := snd (executeStep env plan bad m)).
    assert (Hm4 : executeStep env plan bad m = (Return Next, m4)) by (vm_compute; reflexivity).
    destruct (Hnext m4 Hm4) as (Hloop & Hrs & Hsp).
    exists m4. split; [exact Hloop|]. rewrite Hrs, Hsp.
    split; [reflexivity|]. split; [reflexivity|]. split; [reflexivity|].
    vm_compute. reflexivity.
Defined.

(** C10.  [executeAll] starts from the [stepResults] and [totalSpent] the
    instance already holds: whenever a first call has returned and a
    second call (with any plan) returns, the second result list is the
    first one followed by the results of the second run, and the second
    [totalSpent] is the first one increased by the costs of the steps the
    second run completed. *)
Theorem executeAll_accumulates_across_calls {W} (env : World W)
    (plan1 plan2 : ExecutionPlan) (m m1 m2 : Machine W) (r1 r2 : RunResult) :
  executeAll env plan1 m = (Return r1, m1) ->
  executeAll env plan2 m1 = (Return r2, m2) ->
  exists new,
    run_results r2 = (run_results r1 ++ new)%list /\
    run_totalSpent r2 = spentOn new (run_totalSpent r1) /\
    Forall (fun r => exists s, s ∈ steps plan2 /\ step_id r = id s) new /\
    (run_halted r2 = false -> length (steps plan2) <= length new)%nat.
Proof.
  unfold executeAll. rewrite !andThen_eq.
  destruct (forEachStep env plan1 (steps plan1) m) as [[h1|e1] m1'] eqn:Hl1; [|done].
  rewrite andThen_eq. simpl. intros [= <- <-].
  destruct (forEachStep env plan2 (steps plan2) m1') as [[h2|e2] m2'] eqn:Hl2; [|done].
  rewrite andThen_eq. simpl. intros [= <- <-]. simpl.
  apply forEachStep_summary in Hl2 as (_ & new & Hrs & Hsp & Hids & _ & _ & Hlen).
  exists new. split; [done|]. split; [done|]. split.
  - eapply Forall_impl; [exact Hids|]. intros r (s & ? & ? & ?). eauto.
  - intros ->. by apply Hlen.
Qed.

(** Running the plan of Scenario B twice on one instance: the second
    call returns six results, the first three being those of the first
    call, and twice the spend. *)
Lemma executeAll_accumulates_across_calls_witness :
  let env := demoWorld stubContract in
  let first := executeAll env scenarioB (fresh simulated) in
  let second := executeAll env scenarioB (snd first) in
  exists r1 r2 new,
    fst first = Return r1 /\ fst second = Return r2 /\
    run_results r2 = (run_results r1 ++ new)%list /\
    length (run_results r1) = 3%nat /\ length new = 3%nat /\
    run_totalSpent r1 <> run_totalSpent r2.
Proof.
  intros env first second.
  destruct (fst first) as [r1|] eqn:H1; [|vm_compute in H1; discriminate H1].
  destruct (fst second) as [r2|] eqn:H2; [|vm_compute in H2; discriminate H2].
  destruct (executeAll_accumulates_across_calls env scenarioB scenarioB
              (fresh simulated) (snd first) (snd second) r1 r2) as (new & Hrs & Hsp & _ & Hlen).
  - rewrite <- H1. apply surjective_pairing.
  - rewrite <- H2. apply surjective_pairing.
  - exists r1, r2, new. split; [done|]. split; [done|]. split; [exact Hrs|].
    assert (Hr1 : Return r1 = fst first) by done.
    assert (Hr2 : Return r2 = fst second) by done.
    vm_compute in Hr1, Hr2. injection Hr1 as ->. injection Hr2 as ->.
    simpl in Hrs. split; [reflexivity|]. split.
    + apply (f_equal length) in Hrs. simpl in Hrs. lia.
    + simpl. discriminate.
Defined.

End SchedulerClaims.

(** ** Part III: the aggregator *)

Module SynthFacts.
Import Agent AgentFacts.

(** *** [[...new Set(sources)]] *)

Lemma elem_of_uniqueFrom seen l x :
  x ∈ uniqueFrom seen l <-> x ∈ l /\ x ∉ seen.
Proof.
  revert seen. induction l as [|y l IH]; intros seen; simpl.
  - split; [by intros ?%elem_of_nil|by intros [?%elem_of_nil _]].
  - case_bool_decide as Hy.
    + rewrite IH, elem_of_cons. split; [tauto|]. intros [[->|?] ?]; tauto.
    + rewrite !elem_of_cons, IH, elem_of_cons. split.
      * intros [->|[? ?]]; tauto.
      * intros [[->|?] ?]; [tauto|]. destruct (decide (x = y)); tauto.
Qed.

Lemma NoDup_uniqueFrom seen l : NoDup (uniqueFrom seen l).
Proof.
  revert seen. induction l as [|y l IH]; intros seen; simpl; [constructor|].
  case_bool_decide; [done|]. constructor; [|done].
  rewrite elem_of_uniqueFrom, elem_of_cons. tauto.
Qed.

Lemma uniqueFrom_sublist seen l : sublist (uniqueFrom seen l) l.
Proof.
  revert seen. induction l as [|y l IH]; intros seen; simpl; [done|].
  case_bool_decide; [by apply sublist_cons|by apply sublist_skip].
Qed.

Lemma uniqueFrom_NoDup seen l :
  NoDup l -> (forall x, x ∈ l -> x ∉ seen) -> uniqueFrom seen l = l.
Proof.
  revert seen. induction l as [|y l IH]; intros seen Hnd Hseen; simpl; [done|].
  apply NoDup_cons in Hnd as [Hy Hnd].
  rewrite bool_decide_eq_false_2 by (apply Hseen; left).
  f_equal. apply IH; [done|]. intros x Hx. rewrite elem_of_cons.
  intros [->|Hs]; [done|]. apply (Hseen x); [by right|done].
Qed.

Section Aggregator.
Context {W : Type} (env : World W).

(** *** One source *)

Lemma sourceReference_eq source w :
  sourceReference env source w =
  match titleOf env source with
  | Some t =>
      (Return {| url := if isUrl source then source else EmptyString; title := t;
                 relevance := "primary"; accessed_at := fst (toISOString env w) |},
       snd (toISOString env w))
  | None => (Throw "Invalid URL", w)
  end.
Proof.
  unfold sourceReference, titleOf. rewrite andThen_eq.
  destruct (isUrl source); [destruct (URL_hostname env source)|];
    simpl; rewrite ?andThen_eq; unfold clock; by destruct (toISOString env w).
Qed.

(** *** The whole list *)

Lemma mapM_sourceReference_returns l w :
  Forall (fun s => is_Some (titleOf env s)) l ->
  exists out w', mapM (sourceReference env) l w = (Return out, w') /\
    Forall2 (entryFor env) l out.
Proof.
  revert w. induction l as [|s l IH]; intros w Hall; simpl.
  - eexists [], w. split; [done|constructor].
  - apply Forall_cons in Hall as [[t Ht] Hall].
    rewrite andThen_eq, sourceReference_eq, Ht. cbv beta iota.
    destruct (IH (snd (toISOString env w)) Hall) as (out & w' & Hout & Hents).
    rewrite andThen_eq, Hout. cbv beta iota. eexists _, _. split; [done|].
    constructor; [|done]. unfold entryFor. simpl. by rewrite Ht.
Qed.

Lemma mapM_sourceReference_throws l w s :
  s ∈ l -> titleOf env s = None ->
  exists w', mapM (sourceReference env) l w = (Throw "Invalid URL", w').
Proof.
  revert w. induction l as [|x l IH]; intros w Hin Hbad; [by apply elem_of_nil in Hin|].
  simpl. rewrite andThen_eq, sourceReference_eq.
  destruct (titleOf env x) as [t|] eqn:Ht; [|eauto].
  cbv beta iota. rewrite andThen_eq.
  apply elem_of_cons in Hin as [->|Hin]; [congruence|].
  destruct (IH (snd (toISOString env w)) Hin Hbad) as (w' & ->). eauto.
Qed.

(** The list, whatever the URL constructor does. *)
Lemma mapM_sourceReference_outcome l w :
  match mapM (sourceReference env) l w with
  | (Return out, _) => Forall2 (entryFor env) l out
  | (Throw e, _) => e = "Invalid URL" /\ exists s, s ∈ l /\ titleOf env s = None
  end.
Proof.
  revert w. induction l as [|s l IH]; intros w; simpl; [constructor|].
  rewrite andThen_eq, sourceReference_eq.
  destruct (titleOf env s) as [t|] eqn:Ht.
  - cbv beta iota. rewrite andThen_eq. specialize (IH (snd (toISOString env w))).
    destruct (mapM (sourceReference env) l (snd (toISOString env w))) as [[out|e] w'].
    + simpl. constructor; [|done]. unfold entryFor. simpl. by rewrite Ht.
    + destruct IH as (-> & x & Hx & Hbad). split; [done|]. exists x.
      split; [by apply list_elem_of_further|done].
  - split; [done|]. exists s. split; [apply list_elem_of_here|done].
Qed.

Lemma entryFor_accepted l out s :
  Forall2 (entryFor env) l out -> s ∈ l -> isUrl s = true -> is_Some (URL_hostname env s).
Proof.
  induction 1 as [|x e l out (_ & Ht & _) _ IH]; [by intros ?%elem_of_nil|].
  intros [->|Hin]%elem_of_cons Hu; [|by apply IH].
  unfold titleOf in Ht. rewrite Hu in Ht. by rewrite Ht.
Qed.

Lemma elem_of_setToArray l s : s ∈ setToArray l <-> s ∈ l.
Proof.
  unfold setToArray. rewrite elem_of_uniqueFrom. split; [tauto|].
  intros ?. split; [done|apply not_elem_of_nil].
Qed.

Lemma titleOf_None s :
  titleOf env s = None <-> isUrl s = true /\ URL_hostname env s = None.
Proof. unfold titleOf. destruct (isUrl s); [tauto|]. split; [done|]. by intros [? _]. Qed.

End Aggregator.

(** The demo world parses the URLs [knownHostname] speaks of as the
    platform does. *)
Lemma demoWorld_conforming contract : conforming (demoWorld contract).
Proof. intros s r Hs. simpl. by rewrite Hs. Qed.

Lemma conforming_scenarioD {W} (env : World W) :
  conforming env ->
  titleOf env "https://a.com/x" = Some "a.com" /\
  titleOf env "https://a.com/y" = Some "a.com" /\
  titleOf env "internal-note" = Some "internal-note" /\
  URL_hostname env "httpx" = None.
Proof.
  intros Hc. unfold titleOf. simpl isUrl. cbv beta iota.
  change (isUrl "https://a.com/x") with true.
  change (isUrl "https://a.com/y") with true.
  change (isUrl "internal-note") with false. cbv beta iota.
  repeat split; try done; apply Hc; vm_compute; reflexivity.
Qed.

End SynthFacts.
(** *** The aggregator claims of the specification *)

Section AggregatorClaims.
Import Agent AgentFacts SynthFacts.

(** C8 fails as stated: it is not for every input list that the entries
    are the distinct input strings.  On the list that holds [httpx]
    alone, which begins with [http] and has no scheme, the URL
    constructor throws and [deduplicateSources] returns nothing. *)
Lemma deduplication_is_not_total :
  ~ (forall env : World Z, conforming env ->
       forall sources' w, exists out w',
         deduplicateSources env sources' w = (Return out, w') /\
         Forall2 (entryFor env) (setToArray sources') out).
Proof.
  intros Hall.
  destruct (Hall (demoWorld stubContract) (demoWorld_conforming _) ["httpx"] 0%Z)
    as (out & w' & Hrun & _).
  vm_compute in Hrun. discriminate Hrun.
Qed.

(** C8, amended.  On the provenance list of Scenario D the aggregator
    returns exactly three entries, titled [a.com], [a.com] and
    [internal-note].  In general, for every input list, the distinct
    input strings are taken in the order of first occurrence; when
    [deduplicateSources] returns, it returns one entry for each of them,
    with the host name the URL constructor gives as title and the string
    as URL for a source that begins with [http], the raw string as title
    (and an empty URL) otherwise, and the constructor has accepted every
    source that begins with [http]; when the constructor rejects one of
    these, [deduplicateSources] throws and returns no entry at all. *)
Theorem deduplicateSources_entries {W} (env : World W) :
  (conforming env -> forall w, exists e1 e2 e3 w',
     deduplicateSources env scenarioD w = (Return [e1; e2; e3], w') /\
     (url e1, title e1) = ("https://a.com/x", "a.com") /\
     (url e2, title e2) = ("https://a.com/y", "a.com") /\
     (url e3, title e3) = (EmptyString, "internal-note")) /\
  (forall sources' w,
     NoDup (setToArray sources') /\
     (forall s, s ∈ setToArray sources' <-> s ∈ sources') /\
     sublist (setToArray sources') sources' /\
     ((forall s, s ∈ sources' -> isUrl s = true -> is_Some (URL_hostname env s)) ->
      exists out w', deduplicateSources env sources' w = (Return out, w') /\
                     Forall2 (entryFor env) (setToArray sources') out) /\
     match deduplicateSources env sources' w with
     | (Return out, _) =>
         Forall2 (entryFor env) (setToArray sources') out /\
         (forall s, s ∈ sources' -> isUrl s = true -> is_Some (URL_hostname env s))
     | (Throw e, _) =>
         e = "Invalid URL" /\
         exists s, s ∈ sources' /\ isUrl s = true /\ URL_hostname env s = None
     end).
Proof.
  split.
  - intros Hc w. destruct (conforming_scenarioD env Hc) as (Hx & Hy & Hn & _).
    unfold deduplicateSources.
    replace (setToArray scenarioD) with scenarioD by (vm_compute; reflexivity).
    unfold scenarioD. simpl mapM.
    rewrite andThen_eq, sourceReference_eq, Hx.
    cbv beta iota. rewrite andThen_eq, andThen_eq, sourceReference_eq, Hy.
    cbv beta iota. rewrite andThen_eq, andThen_eq, sourceReference_eq, Hn.
    cbv beta iota. rewrite andThen_eq. simpl. eexists _, _, _, _. split; [reflexivity|].
    repeat split.
  - intros sources' w.
    split; [apply NoDup_uniqueFrom|].
    split; [apply elem_of_setToArray|].
    split; [apply uniqueFrom_sublist|].
    split.
    + intros Hok. apply mapM_sourceReference_returns. apply Forall_forall. intros s Hs.
      rewrite elem_of_setToArray in Hs.
      unfold titleOf. destruct (isUrl s) eqn:Hu; [by apply Hok|done].
    + unfold deduplicateSources.
      pose proof (mapM_sourceReference_outcome env (setToArray sources') w) as Hout.
      destruct (mapM (sourceReference env) (setToArray sources') w) as [[out|e] w'].
      * split; [done|]. intros s Hs Hu.
        eapply entryFor_accepted; [exact Hout| |done]. by apply elem_of_setToArray.
      * destruct Hout as (-> & s & Hs & Hbad). split; [done|]. exists s.
        rewrite elem_of_setToArray in Hs. apply titleOf_None in Hbad as [Hu Hnone]. done.
Qed.

(** The general part, on a list with a repeated URL. *)
Lemma deduplicateSources_entries_witness :
  let l := ["https://a.com/x"; "note"; "https://a.com/x"; "http://b.org"] in
  setToArray l = ["https://a.com/x"; "note"; "http://b.org"] /\
  exists out w', deduplicateSources (demoWorld stubContract) l 0%Z = (Return out, w') /\
                 Forall2 (entryFor (demoWorld stubContract)) (setToArray l) out /\
                 map title out = ["a.com"; "note"; "b.org"].
Proof.
  intros l. split; [vm_compute; reflexivity|].
  destruct (deduplicateSources_entries (demoWorld stubContract)) as [_ Hgen].
  destruct (Hgen l 0%Z) as (_ & _ & _ & _ & Hout).
  destruct (deduplicateSources (demoWorld stubContract) l 0%Z) as [[out|e] w'] eqn:Hrun;
    [|vm_compute in Hrun; discriminate Hrun].
  exists out, w'. split; [reflexivity|]. split; [apply Hout|].
  vm_compute in Hrun. by injection Hrun as <- _.
Defined.

(** C9.  A source that begins with [http] and that the URL constructor
    rejects makes [deduplicateSources] throw, whatever else the list
    holds, and with it [synthesize] on any result list in which a
    completed step carries that source.  [httpx] is such a string: it
    begins with [http] and, having no colon, has no scheme. *)
Theorem deduplicateSources_throws {W} (env : World W) (sources' : list string)
    (s : string) (w : W) :
  s ∈ sources' -> isUrl s = true -> URL_hostname env s = None ->
  (exists w', deduplicateSources env sources' w = (Throw "Invalid URL", w')) /\
  (forall model' query' rs total halted sid r w0,
     r ∈ rs -> status r = completed -> s ∈ sources r ->
     exists msg w', synthesize env model' query' rs total halted sid w0 = (Throw msg, w')) /\
  (isUrl "httpx" = true /\ (conforming env -> URL_hostname env "httpx" = None)).
Proof.
  intros Hin Hu Hbad.
  assert (Ht : titleOf env s = None) by (apply titleOf_None; done).
  split; [|split].
  - apply mapM_sourceReference_throws with s; [|done]. by apply elem_of_setToArray.
  - intros model' query' rs total halted sid r w0 Hr Hst Hs.
    unfold synthesize. rewrite andThen_eq.
    destruct (messages_create env _ w0) as [[[|block blocks]|e] w1]; [eauto..| |eauto].
    rewrite andThen_eq. unfold deduplicateSources.
    match goal with |- context [mapM (sourceReference env) ?l w1] =>
      destruct (mapM_sourceReference_throws env l w1 s) as (w' & ->) end; [|done|eauto].
    apply elem_of_setToArray.
    apply list_elem_of_In, in_concat. exists (sources r). split; [|by apply list_elem_of_In].
    apply in_map. apply list_elem_of_In, list_elem_of_filter. split; [|done].
    unfold isCompleted. by rewrite bool_decide_eq_true.
  - split; [reflexivity|]. intros Hc. by apply conforming_scenarioD.
Qed.

Lemma deduplicateSources_throws_witness :
  exists w', deduplicateSources (demoWorld stubContract) ["https://a.com/x"; "httpx"] 0%Z
             = (Throw "Invalid URL", w').
Proof.
  destruct (deduplicateSources_throws (demoWorld stubContract)
              ["https://a.com/x"; "httpx"] "httpx" 0%Z) as [Hthrow [_ [_ Hx]]].
  - apply list_elem_of_In. simpl. tauto.
  - reflexivity.
  - destruct (conforming_scenarioD _ (demoWorld_conforming stubContract)) as (_ & _ & _ & H).
    exact H.
  - exact Hthrow.
Defined.

End AggregatorClaims.

(** ** Further properties of the payment ledger *)

Section LedgerMore.
Import Gate GateFacts.
Context {T : Type} `{IERC20 T}.
Implicit Types (c : Chain T).

Lemma exec_frame c sender call c' :
  exec sender call c = Success (tt, c') ->
  operator c' = operator c /\ this c' = this c /\
  forall sid, sid <> targetSession call ->
    sessionAt c' sid = sessionAt c sid /\ stepsOf c' sid = stepsOf c sid.
Proof.
  destruct call as [s a n|s k a|s k|s k|s x]; simpl; intros Hs.
  - apply lockBudget_Success in Hs as (_ & _ & _ & t' & _ & [= ->]).
    repeat split; try done.
    change (sessionAt (addEvent ?e ?c) sid) with (sessionAt c sid).
    rewrite sessionAt_setSession. by rewrite decide_False by done.
  - apply authorizePayment_Success in Hs as (_ & _ & _ & _ & _ & _ & [= ->]).
    repeat split; try done.
    change (stepsOf (addEvent ?e ?c) sid) with (stepsOf c sid).
    rewrite stepsOf_setStep. by rewrite decide_False by done.
  - apply confirmExecution_Success in Hs as (_ & _ & _ & _ & _ & _ & _ & [= ->]).
    repeat split; try done.
    + change (sessionAt (addEvent ?e ?c) sid) with (sessionAt c sid).
      rewrite sessionAt_setSession. by rewrite decide_False by done.
    + change (stepsOf (addEvent ?e (setSession ?i ?s ?c)) sid) with (stepsOf c sid).
      rewrite stepsOf_setStep. by rewrite decide_False by done.
  - apply refund_Success in Hs as (_ & _ & _ & _ & _ & _ & [= ->]).
    repeat split; try done.
    change (stepsOf (addEvent ?e ?c) sid) with (stepsOf c sid).
    rewrite stepsOf_setStep. by rewrite decide_False by done.
  - apply settleBudget_Success in Hs as (_ & _ & _ & _ & c2 & [= <-] & Hc).
    destruct Hc as (Ho & Ht & Hse & Hsp & _). split; [done|]. split; [done|].
    intros sid Hne. unfold sessionAt, stepsOf. rewrite Hse, Hsp.
    by rewrite lookup_insert_ne.
Qed.

Lemma confirm_session c sender sid k u c' :
  confirmExecution sender sid k c = Success (u, c') ->
  sessionAt c' sid =
  mkSession (payer (sessionAt c sid)) (totalLocked (sessionAt c sid))
            (totalSpent (sessionAt c sid) + amount (stepAt c sid k))
            (stepCount (sessionAt c sid)) (settled (sessionAt c sid)).
Proof.
  intros Hs.
  apply confirmExecution_Success in Hs as (_ & _ & _ & _ & _ & _ & _ & [= -> ->]).
  unfold sessionAt at 1. simpl. by rewrite lookup_insert_eq.
Qed.

Lemma refund_session c sender sid k u c' sid' :
  refund sender sid k c = Success (u, c') -> sessionAt c' sid' = sessionAt c sid'.
Proof. intros Hs. by apply refund_Success in Hs as (_ & _ & _ & _ & _ & _ & [= -> ->]). Qed.

(** X1.  Sessions are independent: a transaction leaves every session other
    than the one it names, and the steps of those sessions, as they
    were. *)
Theorem transaction_touches_one_session c sender call sid :
  sid <> targetSession call ->
  sessionAt (transact c (sender, call)) sid = sessionAt c sid /\
  stepsOf (transact c (sender, call)) sid = stepsOf c sid.
Proof.
  intros Hne. destruct (exec_outcome c sender call) as [[c' Hs]|Hf];
    [|by rewrite transact_failed].
  rewrite (transact_Success _ _ _ _ _ Hs).
  by apply (exec_frame _ _ _ _ Hs).
Qed.

(** X2.  Access control: every call but [lockBudget] reverts with the
    operator message when sent by anyone else, whatever the state of the
    session, and changes nothing. *)
Theorem only_operator_may_run_sessions c sender call :
  operatorOnly call = true -> sender <> operator c ->
  exec sender call c = Revert "X402: caller is not operator" /\
  transact c (sender, call) = c.
Proof.
  intros Hcall Hne%N.eqb_neq.
  assert (Hrev : exec sender call c = Revert "X402: caller is not operator").
  { destruct call; try done; simpl; tx_unfold; simpl; by rewrite Hne. }
  split; [done|]. apply transact_failed. by rewrite Hrev.
Qed.

(** X3.  What a successful call does to the budget of its session:
    [confirmExecution] adds the amount of the step to [totalSpent], while
    [authorizePayment] and [refund] leave the session record, hence the
    remaining budget, exactly as it was. *)
Theorem budget_moves_only_on_confirm c sender call c' :
  exec sender call c = Success (tt, c') ->
  match call with
  | AuthorizePayment sid _ _ | Refund sid _ => sessionAt c' sid = sessionAt c sid
  | ConfirmExecution sid k =>
      totalLocked (sessionAt c' sid) = totalLocked (sessionAt c sid) /\
      totalSpent (sessionAt c' sid)
        = totalSpent (sessionAt c sid) + amount (stepAt c sid k) /\
      (forall r c1, getRemainingBudget sid c' = Success (r, c1) ->
         getRemainingBudget sid c = Success (r + amount (stepAt c sid k), c))
  | _ => True
  end.
Proof.
  destruct call as [s a n|s k a|s k|s k|s x]; simpl; intros Hs; try done.
  - by apply authorizePayment_Success in Hs as (_ & _ & _ & _ & _ & _ & [= ->]).
  - apply confirmExecution_Success in Hs as (_ & _ & _ & _ & _ & _ & _ & [= ->]).
    change (sessionAt (addEvent ?e ?c) s) with (sessionAt c s).
    rewrite sessionAt_setSession, decide_True by done. simpl.
    rewrite ?sessionAt_setStep. split; [done|]. split; [done|].
    intros r c1. unfold getRemainingBudget, bind, reads, lift, checked_sub.
    change (sessionAt (addEvent ?e ?c) s) with (sessionAt c s).
    rewrite sessionAt_setSession, decide_True by done. simpl.
    rewrite ?sessionAt_setStep.
    destruct (N.leb_spec (totalSpent (sessionAt c s) + amount (stepAt c s k))
                         (totalLocked (sessionAt c s))) as [Hle|]; [|done].
    intros [= <- _].
    destruct (N.leb_spec (totalSpent (sessionAt c s)) (totalLocked (sessionAt c s)));
      [|lia].
    do 2 f_equal. lia.
  - by apply refund_Success in Hs as (_ & _ & _ & _ & _ & _ & [= ->]).
Qed.

Lemma step_after c sender call c' sid k :
  exec sender call c = Success (tt, c') ->
  stepAt c' sid k = stepAt c sid k \/
  (call = ConfirmExecution sid k /\ confirmed (stepAt c sid k) = false /\
   refunded (stepAt c sid k) = false /\
   stepAt c' sid k = mkStepPayment (amount (stepAt c sid k)) true true false) \/
  (call = Refund sid k /\ confirmed (stepAt c sid k) = false /\
   stepAt c' sid k = mkStepPayment (amount (stepAt c sid k)) true false true) \/
  (exists a, call = AuthorizePayment sid k a /\ authorized (stepAt c sid k) = false /\
             stepAt c' sid k = mkStepPayment a true false false).
Proof.
  destruct call as [s a n|s k' a|s k'|s k'|s x]; simpl; intros Hs.
  - left. by eapply stepState_lock.
  - apply authorizePayment_Success in Hs as (_ & _ & _ & _ & _ & Ha & [= ->]).
    change (stepAt (addEvent ?e ?c) sid k) with (stepAt c sid k).
    rewrite stepAt_setStep. case_decide as Hd; [|by left].
    destruct Hd as [-> ->]. right. right. right. eauto.
  - apply confirmExecution_Success in Hs as (_ & _ & _ & Ha & Hc & Hr & _ & [= ->]).
    change (stepAt (addEvent ?e (setSession ?i ?s ?c)) sid k) with (stepAt c sid k).
    rewrite stepAt_setStep. case_decide as Hd; [|by left].
    destruct Hd as [-> ->]. right. left. rewrite Ha, Hr. done.
  - apply refund_Success in Hs as (_ & _ & _ & Ha & Hc & Hr & [= ->]).
    change (stepAt (addEvent ?e ?c) sid k) with (stepAt c sid k).
    rewrite stepAt_setStep. case_decide as Hd; [|by left].
    destruct Hd as [-> ->]. right. right. left. rewrite Ha, Hc. done.
  - left. by eapply stepState_settle.
Qed.

Lemma flagsInv_transact c tx : flagsInv c -> flagsInv (transact c tx).
Proof.
  intros [I1 I2 I3]. destruct tx as [sender call].
  destruct (exec_outcome c sender call) as [[c' Hs]|Hf];
    [|by rewrite transact_failed].
  rewrite (transact_Success _ _ _ _ _ Hs).
  split; intros sid k;
    destruct (step_after c sender call c' sid k Hs)
      as [->|[(_ & ? & ? & ->)|[(_ & ? & ->)|(a & _ & ? & ->)]]]; simpl; auto.
Qed.

Lemma flagsInv_run txs c : flagsInv c -> flagsInv (run txs c).
Proof.
  revert c. induction txs as [|tx txs IH]; intros c Hc; simpl; [done|].
  apply IH. by apply flagsInv_transact.
Qed.

(** X4.  From deployment on: a step is never both confirmed and refunded, and
    once [isStepAuthorized] or [isStepConfirmed] reads [true] it reads
    [true] after every further sequence of transactions (a refunded step
    still reads as authorised). *)
Theorem step_flags_are_monotone (token : T) (op self : address)
    (txs more : list (address * Call)) (sid k : bytes32) :
  let c := run txs (deployed token op self) in
  let c' := run more c in
  (confirmed (stepAt c sid k) && refunded (stepAt c sid k) = false) /\
  (authorized (stepAt c sid k) = true -> authorized (stepAt c' sid k) = true) /\
  (confirmed (stepAt c sid k) = true -> confirmed (stepAt c' sid k) = true) /\
  (refunded (stepAt c sid k) = true -> refunded (stepAt c' sid k) = true).
Proof.
  intros c c'.
  assert (Hinv : flagsInv c) by (apply flagsInv_run; split; intros; done).
  split.
  { destruct (confirmed (stepAt c sid k)) eqn:Hc; [|done].
    by rewrite (flags_exclusive c Hinv). }
  subst c'. clearbody c. revert c Hinv.
  induction more as [|[sender call] more IH]; intros c Hinv; [done|].
  simpl. specialize (IH _ (flagsInv_transact _ (sender, call) Hinv)).
  destruct IH as (IHa & IHc & IHr).
  assert (Hstep : (authorized (stepAt c sid k) = true ->
                   authorized (stepAt (transact c (sender, call)) sid k) = true) /\
                  (confirmed (stepAt c sid k) = true ->
                   confirmed (stepAt (transact c (sender, call)) sid k) = true) /\
                  (refunded (stepAt c sid k) = true ->
                   refunded (stepAt (transact c (sender, call)) sid k) = true)).
  { destruct (exec_outcome c sender call) as [[c' Hs]|Hf];
      [|by rewrite transact_failed].
    rewrite (transact_Success _ _ _ _ _ Hs).
    destruct (step_after c sender call c' sid k Hs)
      as [->|[(_ & Hc & Hr & ->)|[(_ & Hc & ->)|(a & _ & Ha & ->)]]]; simpl.
    - done.
    - repeat split; try done. congruence.
    - repeat split; try done. congruence.
    - repeat split; try done.
      + intros Hc. apply (flags_confirmed c Hinv) in Hc. congruence.
      + intros Hr. apply (flags_refunded c Hinv) in Hr. congruence. }
  destruct Hstep as (Ha & Hc & Hr). repeat split; auto.
Qed.

(** *** The call pattern of the scheduler *)

Lemma run_app (l1 l2 : list (address * Call)) c : run (l1 ++ l2) c = run l2 (run l1 c).
Proof. unfold run. by rewrite fold_left_app. Qed.

Lemma transact_operator c tx : operator (transact c tx) = operator c.
Proof.
  destruct tx as [sender call].
  destruct (exec_outcome c sender call) as [[c' Hs]|Hf]; [|by rewrite transact_failed].
  rewrite (transact_Success _ _ _ _ _ Hs). by apply (exec_frame _ _ _ _ Hs).
Qed.

Lemma authorize_keeps_session c sender sid k a sid' :
  sessionAt (transact c (sender, AuthorizePayment sid k a)) sid' = sessionAt c sid'.
Proof.
  destruct (exec_outcome c sender (AuthorizePayment sid k a)) as [[c' Hs]|Hf];
    [|by rewrite transact_failed].
  rewrite (transact_Success _ _ _ _ _ Hs). simpl in Hs.
  by apply authorizePayment_Success in Hs as (_ & _ & _ & _ & _ & _ & [= ->]).
Qed.

Lemma round_keeps_quiescent c sid k a (ok : bool) :
  quiescent c sid ->
  quiescent (run (roundCalls (operator c) sid (k, a, ok)) c) sid.
Proof.
  intros (Hle & Hmax & Hnone). simpl.
  set (fin := if ok then ConfirmExecution sid k else Refund sid k).
  destruct (exec_outcome c (operator c) (AuthorizePayment sid k a)) as [[c1 Hs]|Hf].
  - rewrite (transact_Success _ _ _ _ _ Hs). simpl in Hs.
    apply authorizePayment_Success in Hs as (_ & Hp & Hst & _ & Hbud & Ha & [= ->]).
    set (c1 := addEvent (PaymentAuthorized sid k a)
                 (setStep sid k (mkStepPayment a true false false) c)).
    assert (Hk : stepAt c1 sid k = mkStepPayment a true false false).
    { subst c1. change (stepAt (addEvent ?e ?c) sid k) with (stepAt c sid k).
      by rewrite stepAt_setStep, decide_True. }
    assert (Hother : forall k', k' <> k -> stepAt c1 sid k' = stepAt c sid k').
    { intros k' Hne. subst c1.
      change (stepAt (addEvent ?e ?c) sid k') with (stepAt c sid k').
      rewrite stepAt_setStep, decide_False; [done|]. intros [_ ->]. done. }
    assert (Hsess : sessionAt c1 sid = sessionAt c sid) by done.
    assert (Hop : operator c1 = operator c) by done.
    destruct ok; subst fin.
    + (* confirmed *)
      assert (Hc : exists c2, confirmExecution (operator c) sid k c1 = Success (tt, c2)).
      { eexists. apply confirmExecution_Success. rewrite Hk, Hsess, Hop. simpl.
        repeat split; try done. lia. }
      destruct Hc as (c2 & Hc).
      rewrite (transact_Success c1 (operator c) (ConfirmExecution sid k) tt c2 Hc).
      apply confirm_moves in Hc as Hm. destruct Hm as (_ & Hk2 & Hoth2).
      apply confirm_session in Hc as Hs2. rewrite Hk, Hsess in Hs2. simpl in Hs2.
      unfold quiescent. rewrite Hs2. simpl. split; [lia|]. split; [done|].
      intros k'. destruct (decide (k' = k)) as [->|Hne].
      * rewrite Hk2. done.
      * unfold stepState. rewrite Hoth2 by congruence. rewrite Hother by done. apply Hnone.
    + (* refunded *)
      assert (Hc : exists c2, refund (operator c) sid k c1 = Success (tt, c2)).
      { eexists. apply refund_Success. rewrite Hk, Hsess, Hop. simpl.
        repeat split; done. }
      destruct Hc as (c2 & Hc).
      rewrite (transact_Success c1 (operator c) (Refund sid k) tt c2 Hc).
      apply refund_moves in Hc as Hm. destruct Hm as (_ & Hk2 & Hoth2).
      apply (refund_session _ _ _ _ _ _ sid) in Hc as Hs2. rewrite Hsess in Hs2.
      unfold quiescent. rewrite Hs2. split; [done|]. split; [done|].
      intros k'. destruct (decide (k' = k)) as [->|Hne].
      * rewrite Hk2. done.
      * unfold stepState. rewrite Hoth2 by congruence. rewrite Hother by done. apply Hnone.
  - rewrite (transact_failed _ _ _ Hf).
    rewrite transact_failed; [done|]. subst fin. destruct ok; simpl.
    + apply confirm_needs_authorized, Hnone.
    + apply refund_needs_authorized, Hnone.
Qed.

Lemma roundCalls_operator c sid round :
  operator (run (roundCalls (operator c) sid round) c) = operator c.
Proof. destruct round as [[k a] ok]. simpl. by rewrite !transact_operator. Qed.

(** X5.  Used the way the scheduler uses it, one step authorised and then
    confirmed or refunded before the next, the ledger keeps a session
    within its budget: after any number of such rounds nothing is
    outstanding and [totalSpent <= totalLocked], and this also holds
    after the authorisation that opens the next round. *)
Theorem sequential_use_stays_within_budget c sid
    (rounds : list (bytes32 * uint256 * bool)) (k : bytes32) (a : uint256) :
  quiescent c sid ->
  quiescent (run (schedulerCalls (operator c) sid rounds) c) sid /\
  (totalSpent (sessionAt (transact (run (schedulerCalls (operator c) sid rounds) c)
                                   (operator c, AuthorizePayment sid k a)) sid)
   <= totalLocked (sessionAt (run (schedulerCalls (operator c) sid rounds) c) sid)).
Proof.
  intros Hq.
  assert (Hc' : quiescent (run (schedulerCalls (operator c) sid rounds) c) sid /\
                operator (run (schedulerCalls (operator c) sid rounds) c) = operator c).
  { clear k a. revert c Hq. induction rounds as [|r rounds IH]; intros c Hq; [done|].
    unfold schedulerCalls. simpl concat. rewrite run_app.
    pose proof (roundCalls_operator c sid r) as Hop.
    destruct r as [[k a] ok].
    pose proof (round_keeps_quiescent c sid k a ok Hq) as Hq1.
    destruct (IH (run (roundCalls (operator c) sid (k, a, ok)) c) Hq1) as [Hq2 Hop2].
    rewrite Hop in Hq2, Hop2. split; [exact Hq2|exact Hop2]. }
  destruct Hc' as [Hq' _]. split; [done|].
  rewrite authorize_keeps_session. apply Hq'.
Qed.

Lemma events_transact c sender call :
  events (transact c (sender, call))
  = (events c ++ if succeeds c (sender, call) then [eventOf c sender call] else [])%list.
Proof.
  unfold succeeds. simpl.
  destruct (exec_outcome c sender call) as [[c' Hs]|Hf].
  - rewrite (transact_Success _ _ _ _ _ Hs), Hs. simpl.
    destruct call as [s a n|s k a|s k|s k|s x]; simpl in Hs.
    + by apply lockBudget_Success in Hs as (_ & _ & _ & t' & _ & [= ->]).
    + by apply authorizePayment_Success in Hs as (_ & _ & _ & _ & _ & _ & [= ->]).
    + by apply confirmExecution_Success in Hs as (_ & _ & _ & _ & _ & _ & _ & [= ->]).
    + by apply refund_Success in Hs as (_ & _ & _ & _ & _ & _ & [= ->]).
    + by apply settleBudget_Success in Hs as (_ & _ & _ & _ & c2 & [= ->] & _ & _ & _ & _ & -> & _).
  - rewrite (transact_failed _ _ _ Hf), Hf. by rewrite app_nil_r.
Qed.

(** X22.  The event log records exactly the successful transactions: a
    transaction that succeeds appends one event, the one of its function
    with its arguments (the stored amount for a refund, the unused part
    of the budget for a settlement); a transaction that reverts or
    panics appends none. *)
Theorem event_log_records_successes c (txs : list (address * Call)) :
  events (run txs c) = (events c ++ logged txs c)%list /\
  length (logged txs c) = countSuccessful (fun _ => true) txs c.
Proof.
  revert c. induction txs as [|[sender call] txs IH]; intros c.
  - simpl. by rewrite app_nil_r.
  - destruct (IH (transact c (sender, call))) as [Hlog Hlen].
    change (run ((sender, call) :: txs) c) with (run txs (transact c (sender, call))).
    rewrite Hlog, events_transact, <- app_assoc. simpl.
    split; [done|]. rewrite length_app, Hlen.
    by destruct (succeeds c (sender, call)).
Qed.

End LedgerMore.

Section LedgerMoreWitnesses.
Import Gate GateFacts.

Lemma transaction_touches_one_session_witness :
  sessionAt (transact (run [lock5; authorizeA] setUp) (thePayer, LockBudget 2 7 1)) 1
    = sessionAt (run [lock5; authorizeA] setUp) 1.
Proof.
  apply (transaction_touches_one_session (run [lock5; authorizeA] setUp) thePayer
           (LockBudget 2 7 1) 1).
  simpl. discriminate.
Defined.

Lemma only_operator_may_run_sessions_witness :
  exec thePayer (SettleBudget 1 0) (run [lock5] setUp) = Revert "X402: caller is not operator".
Proof.
  apply (only_operator_may_run_sessions (run [lock5] setUp) thePayer (SettleBudget 1 0)).
  - reflexivity.
  - vm_compute. discriminate.
Defined.

Lemma budget_moves_only_on_confirm_witness :
  totalSpent (sessionAt (transact (run [lock5; authorizeA] setUp) confirmA) 1) = 0 + 3.
Proof.
  pose (c := run [lock5; authorizeA] setUp).
  pose (c' := transact c confirmA).
  destruct (budget_moves_only_on_confirm c theOperator (ConfirmExecution 1 10) c')
    as (_ & Hspent & _).
  - vm_compute. reflexivity.
  - exact Hspent.
Defined.

Lemma step_flags_are_monotone_witness :
  authorized (stepAt (run [refundA; authorizeB] (run [lock5; authorizeA] setUp)) 1 10) = true.
Proof.
  destruct (step_flags_are_monotone fundedToken theOperator theGate
              [lock5; authorizeA] [refundA; authorizeB] 1 10) as (_ & Hauth & _).
  apply Hauth. vm_compute. reflexivity.
Defined.

(** Three rounds against a budget of 5: 3 confirmed, 3 denied, 2
    confirmed. *)
Lemma sequential_use_stays_within_budget_witness :
  let c := run [lock5] setUp in
  quiescent (run (schedulerCalls theOperator 1 [(10, 3, true); (11, 3, true); (12, 2, true)]) c)
            1.
Proof.
  intros c.
  apply (sequential_use_stays_within_budget c 1
           [(10, 3, true); (11, 3, true); (12, 2, true)] 0 0).
  split; [vm_compute; discriminate|]. split; [vm_compute; discriminate|].
  intros k. unfold stepState, stepAt.
  replace (stepsOf c 1) with (∅ : gmap bytes32 StepPayment) by (vm_compute; reflexivity).
  rewrite lookup_empty. simpl. discriminate.
Defined.

End LedgerMoreWitnesses.

(** *** The gate against the token of the test suite *)

Section MockLedger.
Import Gate GateFacts.
Implicit Types (c : Chain MockERC20) (t : MockERC20).

Lemma mockTransferFrom_Success sender from to v t r :
  mockTransferFrom sender from to v t = Success r ->
  v <= mockBalance t from /\ v <= mockAllowance t from sender /\
  exists t', r = (true, t') /\
    mockAllowance t' from sender + v = mockAllowance t from sender /\
    (from <> to -> mockBalance t' to = mockBalance t to + v /\
                   mockBalance t' from + v = mockBalance t from) /\
    (from = to -> mockBalance t' to = mockBalance t to) /\
    (forall a, a <> from -> a <> to -> mockBalance t' a = mockBalance t a).
Proof.
  unfold mockTransferFrom, checked_add. intros Ht.
  destruct (N.leb_spec v (mockBalance t from)) as [Hb|]; simpl in Ht; [|done].
  destruct (N.leb_spec v (mockAllowance t from sender)) as [Hal|]; simpl in Ht; [|done].
  repeat (case_match; simplify_eq/=).
  split; [done|]. split; [done|]. eexists. split; [done|].
  unfold mockBalance, mockAllowance in *; simpl in *.
  rewrite !lookup_insert_eq. simpl. split; [lia|]. split; [|split].
  - intros Hne. rewrite (lookup_insert_ne _ from to) by done.
    rewrite (lookup_insert_ne _ to from) by done.
    rewrite lookup_insert_eq. simpl. split; [done|lia].
  - intros ->. rewrite lookup_insert_eq. simpl. lia.
  - intros a H1 H2. by rewrite !lookup_insert_ne by done.
Qed.

Lemma mockTransfer_Success sender to v t r :
  mockTransfer sender to v t = Success r ->
  v <= mockBalance t sender /\
  exists t', r = (true, t') /\
    (sender <> to -> mockBalance t' to = mockBalance t to + v /\
                     mockBalance t' sender + v = mockBalance t sender) /\
    (sender = to -> mockBalance t' to = mockBalance t to) /\
    (forall a, a <> sender -> a <> to -> mockBalance t' a = mockBalance t a).
Proof.
  unfold mockTransfer, checked_add. intros Ht.
  destruct (N.leb_spec v (mockBalance t sender)) as [Hb|]; simpl in Ht; [|done].
  repeat (case_match; simplify_eq/=).
  split; [done|]. eexists. split; [done|].
  unfold mockBalance in *; simpl in *.
  rewrite !lookup_insert_eq. simpl. split; [|split].
  - intros Hne. rewrite (lookup_insert_ne _ sender to) by done.
    rewrite (lookup_insert_ne _ to sender) by done.
    rewrite lookup_insert_eq. simpl. split; [done|lia].
  - intros ->. rewrite lookup_insert_eq. simpl. lia.
  - intros a H1 H2. by rewrite !lookup_insert_ne by done.
Qed.

(** X6.  [lockBudget] against [MockERC20], completely: it reverts with the
    first failing check of [lockRejection]; otherwise it panics when the
    balance of the gate would overflow, and else succeeds, recording the
    caller as payer of a fresh session (nothing spent, not settled) and
    moving the amount from the caller to the gate out of the caller's
    allowance. *)
Theorem lockBudget_on_mock c sender sid a n :
  sender <> this c ->
  match lockRejection c sender sid a n with
  | Some reason => lockBudget sender sid a n c = Revert reason
  | None =>
      if mockBalance (paymentToken c) (this c) + a <=? UINT256_MAX
      then exists c', lockBudget sender sid a n c = Success (tt, c') /\
             sessionAt c' sid = mkSession sender a 0 n false /\
             stepPayments c' = stepPayments c /\
             mockBalance (paymentToken c') (this c) = mockBalance (paymentToken c) (this c) + a /\
             mockBalance (paymentToken c') sender + a = mockBalance (paymentToken c) sender /\
             mockAllowance (paymentToken c') sender (this c) + a
               = mockAllowance (paymentToken c) sender (this c)
      else lockBudget sender sid a n c = Panic 17
  end.
Proof.
  intros Hne. unfold lockRejection.
  unfold lockBudget, bind, reads, require; simpl.
  destruct (N.eqb_spec (payer (sessionAt c sid)) 0) as [Hp|]; simpl; [|done].
  destruct (N.eqb_spec a 0) as [->|Ha]; simpl; [done|].
  assert (Hlt : (0 <? a) = true) by (apply N.ltb_lt; lia). rewrite Hlt; simpl.
  destruct (N.eqb_spec n 0) as [->|Hn]; simpl; [done|].
  assert (Hlt' : (0 <? n) = true) by (apply N.ltb_lt; lia). rewrite Hlt'; simpl.
  unfold callTransferFrom; simpl.
  destruct (mockTransferFrom (this c) sender (this c) a (paymentToken c))
    as [[ok t']| |] eqn:Htr.
  - apply mockTransferFrom_Success in Htr as Hx.
    destruct Hx as (Hb & Hal & t2 & [= -> ->] & Hal' & Hmove & _ & _).
    destruct (Hmove Hne) as [Hto Hfrom].
    destruct (N.ltb_spec (mockBalance (paymentToken c) sender) a); [lia|].
    destruct (N.ltb_spec (mockAllowance (paymentToken c) sender (this c)) a); [lia|].
    assert (Hfit : (mockBalance (paymentToken c) (this c) + a <=? UINT256_MAX) = true).
    { revert Htr. unfold mockTransferFrom, checked_add. simpl.
      destruct (N.leb_spec a (mockBalance (paymentToken c) sender)); simpl; [|done].
      destruct (N.leb_spec a (mockAllowance (paymentToken c) sender (this c)));
        simpl; [|done].
      unfold mockBalance at 1. simpl. rewrite lookup_insert_ne by done.
      fold (mockBalance (paymentToken c) (this c)).
      by destruct (_ <=? UINT256_MAX). }
    rewrite Hfit. simpl. eexists. split; [reflexivity|].
    split; [unfold sessionAt; simpl; by rewrite lookup_insert_eq|]. done.
  - revert Htr. unfold mockTransferFrom, checked_add. simpl.
    destruct (N.leb_spec a (mockBalance (paymentToken c) sender)) as [Hb|Hb]; simpl.
    + destruct (N.ltb_spec (mockBalance (paymentToken c) sender) a); [lia|].
      destruct (N.leb_spec a (mockAllowance (paymentToken c) sender (this c)))
        as [Hal|Hal]; simpl.
      * by destruct (_ <=? UINT256_MAX).
      * destruct (N.ltb_spec (mockAllowance (paymentToken c) sender (this c)) a); [|lia].
        by intros [= ->].
    + destruct (N.ltb_spec (mockBalance (paymentToken c) sender) a); [|lia].
      by intros [= ->].
  - revert Htr. unfold mockTransferFrom, checked_add. simpl.
    destruct (N.leb_spec a (mockBalance (paymentToken c) sender)); simpl; [|done].
    destruct (N.leb_spec a (mockAllowance (paymentToken c) sender (this c)));
      simpl; [|done].
    destruct (N.ltb_spec (mockBalance (paymentToken c) sender) a); [lia|].
    destruct (N.ltb_spec (mockAllowance (paymentToken c) sender (this c)) a); [lia|].
    unfold mockBalance at 1. simpl. rewrite lookup_insert_ne by done.
    fold (mockBalance (paymentToken c) (this c)).
    destruct (_ <=? UINT256_MAX); [done|]. by intros [= ->].
Qed.

Lemma lockBudget_on_mock_witness :
  lockBudget thePayer 1 500 2 setUp = Revert "Insufficient balance" /\
  exists c', lockBudget thePayer 1 5 2 setUp = Success (tt, c') /\
             mockBalance (paymentToken c') theGate = 5.
Proof.
  split.
  - apply (lockBudget_on_mock setUp thePayer 1 500 2). vm_compute. discriminate.
  - pose proof (lockBudget_on_mock setUp thePayer 1 5 2) as Hl.
    change (lockRejection setUp thePayer 1 5 2) with (@None string) in Hl.
    change (mockBalance (paymentToken setUp) (this setUp) + 5 <=? UINT256_MAX)
      with true in Hl.
    destruct Hl as (c' & Hs & _ & _ & Hbal & _); [vm_compute; discriminate|].
    exists c'. split; [exact Hs|]. change theGate with (this setUp).
    rewrite Hbal. vm_compute. reflexivity.
Defined.

(** *** Solvency of the escrow *)

Lemma escrowed_fold_fresh (m : gmap bytes32 Session) sid s :
  m !! sid = None ->
  map_fold (fun _ s acc => openLocked s + acc) 0 (<[sid := s]> m)
  = openLocked s + map_fold (fun _ s acc => openLocked s + acc) 0 m.
Proof.
  intros Hk.
  rewrite (map_fold_insert_L (fun _ q acc => openLocked q + acc)); [done| |done].
  intros. lia.
Qed.

Lemma escrowed_fold_insert (m : gmap bytes32 Session) sid s :
  map_fold (fun _ s acc => openLocked s + acc) 0 (<[sid := s]> m)
    + openLocked (default zeroSession (m !! sid))
  = map_fold (fun _ s acc => openLocked s + acc) 0 m + openLocked s.
Proof.
  destruct (m !! sid) as [q|] eqn:Hk; simpl.
  - rewrite <- (insert_delete_id m sid q) at 2 by done.
    rewrite <- (insert_delete_eq m sid s).
    rewrite !escrowed_fold_fresh by apply lookup_delete_eq. lia.
  - rewrite escrowed_fold_fresh by done. change (openLocked zeroSession) with 0. lia.
Qed.

Lemma escrowed_setSession {T} (c : Chain T) sid s :
  escrowed (setSession sid s c) + openLocked (sessionAt c sid) = escrowed c + openLocked s.
Proof. unfold escrowed, sessionAt. simpl. apply escrowed_fold_insert. Qed.

Lemma gate_balance_after_transfer c to v t t' :
  mockTransfer (this c) to v t = Success (true, t') ->
  mockBalance t (this c) <= mockBalance t' (this c) + v.
Proof.
  intros Ht. apply mockTransfer_Success in Ht as (_ & t2 & [= <-] & Hmove & Hself & _).
  destruct (decide (this c = to)) as [Heq|Hne].
  - rewrite <- Heq in Hself. rewrite (Hself eq_refl). lia.
  - destruct (Hmove Hne) as [_ Hfrom]. lia.
Qed.

Lemma solvent_transact c sender call :
  sender <> this c ->
  escrowed c <= mockBalance (paymentToken c) (this c) ->
  escrowed (transact c (sender, call))
    <= mockBalance (paymentToken (transact c (sender, call))) (this c).
Proof.
  intros Hne Hinv.
  destruct (exec_outcome c sender call) as [[c' Hs]|Hf];
    [|by rewrite transact_failed].
  rewrite (transact_Success _ _ _ _ _ Hs).
  destruct call as [sid a n|sid k a|sid k|sid k|sid x]; simpl in Hs.
  - apply lockBudget_Success in Hs as (Hp & _ & _ & t' & Htr & [= ->]).
    simpl in Htr. apply mockTransferFrom_Success in Htr
      as (_ & _ & t2 & [= <-] & _ & Hmove & _ & _).
    destruct (Hmove Hne) as [Hto _].
    change (escrowed (addEvent ?e ?c)) with (escrowed c).
    pose proof (escrowed_setSession (setToken t' c) sid (mkSession sender a 0 n false)) as He.
    change (sessionAt (setToken t' c) sid) with (sessionAt c sid) in He.
    change (escrowed (setToken t' c)) with (escrowed c) in He.
    unfold openLocked at 2 in He. simpl in He. simpl.
    rewrite Hto. clear Hmove Hto Hne Hp.
    assert (Hle : forall e ol ec b : N, e + ol = ec + a -> ec <= b -> e <= b + a)
      by (intros; lia).
    eapply Hle; [exact He|exact Hinv].
  - apply authorizePayment_Success in Hs as (_ & _ & _ & _ & _ & _ & [= ->]). done.
  - apply confirmExecution_Success in Hs as (_ & _ & Hst & _ & _ & _ & _ & [= ->]).
    change (escrowed (addEvent ?e ?c)) with (escrowed c).
    match goal with |- context [setSession sid ?s ?c0] =>
      pose proof (escrowed_setSession c0 sid s) as He end.
    rewrite sessionAt_setStep in He. unfold openLocked in He. simpl in He.
    rewrite ?sessionAt_setStep in He. rewrite Hst in He |- *. simpl.
    change (escrowed (setStep ?i ?j ?p ?c)) with (escrowed c) in He.
    unfold uint256 in *. lia.
  - apply refund_Success in Hs as (_ & _ & _ & _ & _ & _ & [= ->]). done.
  - apply settleBudget_Success in Hs as (_ & _ & Hst & Hx & c2 & [= <-] & Hc).
    destruct Hc as (_ & _ & Hse & _ & _ & (t1 & Hpay & Hop)).
    simpl in Hpay, Hop.
    assert (He : escrowed c' + totalLocked (sessionAt c sid) = escrowed c).
    { pose proof (escrowed_fold_insert (sessions c) sid
                    (mkSession (payer (sessionAt c sid)) (totalLocked (sessionAt c sid)) x
                               (stepCount (sessionAt c sid)) true)) as Hf.
      fold (sessionAt c sid) in Hf. unfold escrowed. rewrite Hse.
      replace (openLocked (sessionAt c sid)) with (totalLocked (sessionAt c sid)) in Hf
        by (unfold openLocked; by rewrite Hst).
      change (openLocked (mkSession _ _ _ _ true)) with 0 in Hf.
      unfold uint256 in *. lia. }
    assert (H1 : mockBalance (paymentToken c) (this c)
                 <= mockBalance t1 (this c) + (totalLocked (sessionAt c sid) - x)).
    { destruct (0 <? totalLocked (sessionAt c sid) - x).
      - by apply gate_balance_after_transfer in Hpay.
      - subst t1. unfold uint256 in *. lia. }
    assert (H2 : mockBalance t1 (this c) <= mockBalance (paymentToken c') (this c) + x).
    { destruct (0 <? x).
      - by apply gate_balance_after_transfer in Hop.
      - rewrite Hop. unfold uint256 in *. lia. }
    unfold uint256 in *. lia.
Qed.

(** X7.  The gate stays solvent: as long as the gate itself sends no
    transaction, the tokens it holds in [MockERC20] are at least the sum
    of [totalLocked] over the sessions that are not yet settled, from
    deployment on and whatever the token held before. *)
Theorem escrow_covers_open_sessions (t : MockERC20) (op self : address)
    (txs : list (address * Call)) :
  neverFrom self txs ->
  let c := run txs (deployed t op self) in
  escrowed c <= mockBalance (paymentToken c) self.
Proof.
  intros Hnever. cbv zeta.
  assert (Hgen : forall c, this c = self ->
            escrowed c <= mockBalance (paymentToken c) self ->
            escrowed (run txs c) <= mockBalance (paymentToken (run txs c)) self).
  { induction Hnever as [|[sender call] txs Hne _ IH]; intros c Hthis Hinv; [done|].
    simpl. apply IH.
    - destruct (exec_outcome c sender call) as [[c' Hs]|Hf];
        [|by rewrite transact_failed].
      rewrite (transact_Success _ _ _ _ _ Hs).
      apply exec_frame in Hs as (_ & -> & _). done.
    - rewrite <- Hthis. apply solvent_transact; [by rewrite Hthis|by rewrite Hthis]. }
  apply Hgen; [done|]. unfold escrowed. simpl. rewrite map_fold_empty. lia.
Qed.

Lemma escrow_covers_open_sessions_witness :
  let c := run [lock5; authorizeA; confirmA; (thePayer, LockBudget 2 7 1);
                (theOperator, SettleBudget 1 3)] setUp in
  escrowed c <= mockBalance (paymentToken c) theGate.
Proof.
  apply (escrow_covers_open_sessions fundedToken theOperator theGate).
  repeat constructor; vm_compute; discriminate.
Defined.

End MockLedger.

(** ** Further properties of the step scheduler *)

Section SchedulerMore.
Import Agent AgentFacts.
Context {W : Type} (env : World W).
Implicit Types (m : Machine W) (step : Step) (plan : ExecutionPlan).

Lemma spentOn_cons (r : StepResult) rs start :
  spentOn (r :: rs) start =
  spentOn rs (if isCompleted r then plus start (actual_cost_usd r) else start).
Proof.
  unfold spentOn. rewrite filter_cons.
  destruct (isCompleted r) eqn:Hc.
  - rewrite decide_True by done. done.
  - rewrite decide_False by congruence. done.
Qed.

Lemma spentOn_nil start : spentOn [] start = start.
Proof. done. Qed.

Lemma isCompleted_status (r : StepResult) :
  isCompleted r = match status r with completed => true | _ => false end.
Proof. unfold isCompleted. by destruct (status r). Qed.

Lemma executeTool_known step plan m out m' :
  executeTool env step plan m = (Return out, m') -> knownTool (tool step) = true.
Proof.
  intros Hrun. destruct (knownTool (tool step)) eqn:Hk; [done|].
  by rewrite executeTool_unknown in Hrun.
Qed.

Lemma confirmPayment_simulated k sid m :
  onChain (config (self m)) = false -> confirmPayment env k sid m = (Return tt, m).
Proof.
  intros Hsim. unfold confirmPayment. rewrite andThen_eq. simpl. by rewrite Hsim.
Qed.

Lemma refundPayment_simulated k sid m :
  onChain (config (self m)) = false -> refundPayment env k sid m = (Return tt, m).
Proof.
  intros Hsim. unfold refundPayment. rewrite andThen_eq. simpl. by rewrite Hsim.
Qed.

Lemma catchBlock_group plan step p t0 msg mh res m' :
  catchBlock env plan step p t0 msg mh = (res, m') ->
  res <> Return Break /\ config (self m') = config (self mh) /\
  totalSpent (self m') = totalSpent (self mh) /\
  (onChain (config (self mh)) = false -> res = Return Next) /\
  exists r, stepResults (self m') = (stepResults (self mh) ++ [r])%list /\
            resultOf step r /\ status r = failed /\ error r = Some msg.
Proof.
  unfold catchBlock.
  rewrite andThen_eq, andThen_eq, now_eq. cbv beta iota.
  rewrite andThen_eq, isoNow_eq. cbv beta iota.
  rewrite andThen_eq, push_eq. cbv beta iota.
  match goal with |- context [refundPayment env ?k ?sid ?mx] =>
    pose proof (keepsSelf_refundPayment env k sid mx) as Hk;
    pose proof (refundPayment_simulated k sid mx) as Hsim;
    destruct (refundPayment env k sid mx) as [[[]|e] m4]
  end; simpl in Hk, Hsim; intros [= <- <-]; rewrite Hk; simpl;
    (split; [done|]); (split; [done|]); (split; [done|]);
    (split; [intros Hs; specialize (Hsim Hs); congruence|]);
    eexists; (split; [reflexivity|]); repeat split; eauto.
Qed.

(** One iteration, by shape of what it appends. *)
Lemma executeStep_group plan step m res m' :
  executeStep env plan step m = (res, m') ->
  config (self m') = config (self m) /\
  (onChain (config (self m)) = false -> res = Return Next) /\
  exists g, stepResults (self m') = (stepResults (self m) ++ g)%list /\
    totalSpent (self m') = spentOn g (totalSpent (self m)) /\
    groupOf step g /\
    (res = Return Break <-> map status g = [payment_denied]) /\
    (onChain (config (self m)) = false -> length g = 1%nat).
Proof.
  destruct (authorizePayment_returns env step (session_id plan) m)
    as (p & m1 & Hauth & Hs1 & _ & Hmode).
  destruct (pa_authorized p) eqn:Hok.
  2:{ rewrite (executeStep_denied env _ _ _ _ _ Hauth Hok). intros [= <- <-].
      split; [done|]. split.
      { intros Hsim. rewrite Hsim in Hmode. congruence. }
      eexists [_]. split; [done|]. split; [done|]. split; [|split].
      - split; [|done]. apply List.Forall_cons; [|apply List.Forall_nil].
        unfold resultOf. simpl. repeat split; eauto.
      - done.
      - done. }
  unfold executeStep. rewrite andThen_eq, Hauth, Hok.
  change (negb true) with false. cbv beta iota.
  rewrite andThen_eq, now_eq. cbv beta iota.
  set (t0 := fst (Date_now env (world m1))).
  set (w1 := snd (Date_now env (world m1))).
  rewrite andThen_eq, tryCatch_eq, andThen_eq.
  pose proof (keepsSelf_executeTool env step plan (mkMachine (self m1) w1)) as Hk2.
  destruct (executeTool env step plan (mkMachine (self m1) w1)) as [[out|msg] m2] eqn:Htool;
    simpl in Hk2; cbv beta iota.
  - (* the tool returned *)
    apply executeTool_known in Htool as Hknown.
    rewrite andThen_eq, now_eq. cbv beta iota.
    rewrite andThen_eq, spend_eq. cbv beta iota.
    rewrite andThen_eq, isoNow_eq. cbv beta iota.
    rewrite andThen_eq, push_eq. cbv beta iota.
    match goal with |- context [confirmPayment env ?k ?sid ?mx] =>
      pose proof (keepsSelf_confirmPayment env k sid mx) as Hk3;
      pose proof (confirmPayment_simulated k sid mx) as Hsim;
      destruct (confirmPayment env k sid mx) as [[[]|e] m3]
    end; simpl in Hk3, Hsim; cbv beta iota.
    + intros [= <- <-]. rewrite Hk3, Hk2, Hs1. simpl. split; [done|]. split; [done|].
      eexists [_]. split; [done|]. split; [done|]. split; [|split].
      * split; [|done]. apply List.Forall_cons; [|apply List.Forall_nil].
        unfold resultOf. simpl. done.
      * done.
      * done.
    + intros Hc. fold (catchBlock env plan step p t0 e m3) in Hc.
      apply catchBlock_group in Hc as (Hres & Hcfg & Hsp & _ & r & Hrs & Hr & Hst & _).
      rewrite Hcfg, Hsp, Hrs, Hk3, Hk2, Hs1. simpl. split; [done|]. split.
      { intros Hs. rewrite <- Hs1, <- Hk2 in Hs. specialize (Hsim Hs). congruence. }
      eexists [_; r]. split; [by rewrite <- app_assoc|]. split.
      { rewrite !spentOn_cons, spentOn_nil, !isCompleted_status, Hst. done. }
      split; [|split].
      * split; [|simpl; by rewrite Hst].
        apply List.Forall_cons; [|apply List.Forall_cons; [exact Hr|apply List.Forall_nil]].
        unfold resultOf. simpl. done.
      * simpl. rewrite Hst. split; [done|congruence].
      * intros Hs. rewrite <- Hs1, <- Hk2 in Hs. specialize (Hsim Hs). congruence.
  - (* the tool threw *)
    intros Hc. fold (catchBlock env plan step p t0 msg m2) in Hc.
    apply catchBlock_group in Hc as (Hres & Hcfg & Hsp & Hnext & r & Hrs & Hr & Hst & _).
    rewrite Hcfg, Hsp, Hrs, Hk2, Hs1. split; [done|]. split.
    { intros Hs. apply Hnext. by rewrite Hk2, Hs1. }
    eexists [r]. split; [done|]. split.
    { rewrite spentOn_cons, spentOn_nil, isCompleted_status, Hst. done. }
    split; [|split].
    + split; [|simpl; by rewrite Hst]. apply List.Forall_cons; [exact Hr|apply List.Forall_nil].
    + simpl. rewrite Hst. split; [done|congruence].
    + done.
Qed.

(** The loop, by the groups of results of the steps it went through. *)
Lemma forEachStep_groups plan l m res m' :
  forEachStep env plan l m = (res, m') ->
  config (self m') = config (self m) /\
  exists groups,
    stepResults (self m') = (stepResults (self m) ++ concat groups)%list /\
    totalSpent (self m') = spentOn (concat groups) (totalSpent (self m)) /\
    Forall2 groupOf (take (length groups) l) groups /\
    (res = Return false ->
       length groups = length l /\
       Forall (fun g => map status g <> [payment_denied]) groups) /\
    (res = Return true ->
       exists g, last groups = Some g /\ map status g = [payment_denied]) /\
    (onChain (config (self m)) = false ->
       res = Return false /\ Forall (fun g => length g = 1%nat) groups).
Proof.
  revert m. induction l as [|s l IH]; intros m.
  - intros [= <- <-]. split; [done|]. exists []. simpl. rewrite app_nil_r.
    split; [done|]. split; [done|]. split; [constructor|].
    split; [by split; [|constructor]|]. split; [done|]. by split; [|constructor].
  - rewrite forEachStep_cons.
    destruct (executeStep env plan s m) as [r1 m1] eqn:Hstep.
    apply executeStep_group in Hstep
      as (Hcfg & Hnext & g & Hrs & Hsp & Hg & Hbreak & Hone).
    destruct r1 as [[]|e].
    + intros Hrest.
      apply IH in Hrest as (Hcfg2 & gs & Hrs2 & Hsp2 & Hgs & Hfalse & Htrue & Hsim).
      split; [congruence|]. exists (g :: gs). simpl.
      split; [by rewrite Hrs2, Hrs, <- app_assoc|].
      split; [by rewrite spentOn_app, <- Hsp, Hsp2|].
      split; [constructor; [exact Hg|exact Hgs]|]. split; [|split].
      * intros Hres. destruct (Hfalse Hres) as [Hlen Hnd]. split; [by rewrite Hlen|].
        constructor; [|done]. intros Hd. by apply Hbreak in Hd.
      * intros Hres. destruct (Htrue Hres) as (g' & Hlast & Hd). exists g'.
        split; [|done]. destruct gs; [done|]. done.
      * intros Hs. rewrite <- Hcfg in Hs. destruct (Hsim Hs) as [-> Hall].
        split; [done|]. rewrite Hcfg in Hs. constructor; auto.
    + intros [= <- <-]. split; [done|]. exists [g]. simpl. rewrite app_nil_r.
      split; [done|]. split; [done|]. split; [constructor; [exact Hg|constructor]|].
      split; [done|]. split.
      * intros _. exists g. split; [done|]. by apply Hbreak.
      * intros Hs. by specialize (Hnext Hs).
    + intros [= <- <-]. split; [done|]. exists [g]. simpl. rewrite app_nil_r.
      split; [done|]. split; [done|]. split; [constructor; [exact Hg|constructor]|].
      split; [done|]. split; [done|].
      intros Hs. by specialize (Hnext Hs).
Qed.

Lemma executeAll_eq plan m :
  executeAll env plan m =
  match forEachStep env plan (steps plan) m with
  | (Return halted, m1) =>
      (Return {| run_results := stepResults (self m1); run_totalSpent := totalSpent (self m1);
                 run_halted := halted |}, m1)
  | (Throw e, m1) => (Throw e, m1)
  end.
Proof.
  unfold executeAll. rewrite andThen_eq.
  destruct (forEachStep env plan (steps plan) m) as [[h|e] m1]; [|done].
  by rewrite andThen_eq.
Qed.

Lemma spentOn_tableSpend rs start :
  Forall (fun r => exists s, resultOf s r) rs -> spentOn rs start = tableSpend rs start.
Proof.
  unfold spentOn, tableSpend. intros Hall. f_equal.
  induction Hall as [|r rs (s & Hid & Hix & Htool & Hst) _ IH]; [done|].
  rewrite filter_cons. destruct (decide (isCompleted r = true)) as [Hc|Hc]; [|done].
  simpl. rewrite IH. f_equal.
  rewrite isCompleted_status in Hc. destruct (status r); try done.
  destruct Hst as (-> & _). by rewrite Htool.
Qed.

Lemma knownTool_cost t :
  knownTool t = true -> exists q, COST_PER_TOOL t = Num q /\ (0 < q)%Q.
Proof.
  unfold knownTool, COST_PER_TOOL. intros Hk.
  destruct (String.eqb t "anthropic"); [by eexists|].
  destruct (String.eqb t "tavily"); [by eexists|].
  destruct (String.eqb t "blockchain_rpc"); [by eexists|].
  destruct (String.eqb t "reasoning"); [by eexists|]. done.
Qed.

Lemma resultOf_cost s r :
  resultOf s r ->
  if isCompleted r then exists q, actual_cost_usd r = Num q /\ (0 < q)%Q
  else actual_cost_usd r = Num 0.
Proof.
  intros (_ & _ & _ & Hst). rewrite isCompleted_status.
  destruct (status r); try done.
  - destruct Hst as (-> & Hk & _). by apply knownTool_cost.
  - by destruct Hst.
  - by destruct Hst.
Qed.

Lemma spentOn_grows rs q0 :
  Forall (fun r => exists s, resultOf s r) rs ->
  exists q, spentOn rs (Num q0) = Num q /\ (q0 <= q)%Q.
Proof.
  intros Hall. revert q0. induction Hall as [|r rs (s & Hr) _ IH]; intros q0.
  - exists q0. split; [done|]. lra.
  - rewrite spentOn_cons. apply resultOf_cost in Hr.
    destruct (isCompleted r).
    + destruct Hr as (c & -> & Hpos). simpl.
      destruct (IH (q0 + c)%Q) as (q & -> & Hle). exists q. split; [done|]. lra.
    + apply IH.
Qed.

Lemma groups_results (l : list Step) groups :
  Forall2 groupOf l groups -> Forall (fun r => exists s, resultOf s r) (concat groups).
Proof.
  induction 1 as [|s g l gs [Hg _] _ IH]; [constructor|].
  simpl. apply Forall_app. split; [|done].
  eapply Forall_impl; [exact Hg|]. eauto.
Qed.

(** X8.  The results of a call of [executeAll] follow the plan: the
    results it appends are, step by step in the order of the plan, one
    group per step it went through; a group is one completed, failed or
    denied result of that step, or a completed result followed by a
    failed one (when the confirmation threw after the tool had
    returned).  No result has status [skipped].  A run that is not
    halted went through every step and has no denied result; a halted
    run ends with the denied result of the step it stopped at. *)
Theorem results_follow_the_plan plan m r m' :
  executeAll env plan m = (Return r, m') ->
  exists groups,
    run_results r = (stepResults (self m) ++ concat groups)%list /\
    Forall2 groupOf (take (length groups) (steps plan)) groups /\
    (run_halted r = false ->
       length groups = length (steps plan) /\
       Forall (fun g => map status g <> [payment_denied]) groups) /\
    (run_halted r = true ->
       exists g, last groups = Some g /\ map status g = [payment_denied]).
Proof.
  rewrite executeAll_eq.
  destruct (forEachStep env plan (steps plan) m) as [[h|e] m1] eqn:Hloop; [|done].
  intros [= <- <-]. simpl.
  apply forEachStep_groups in Hloop as (_ & gs & Hrs & _ & Hgs & Hfalse & Htrue & _).
  exists gs. split; [done|]. split; [done|]. split.
  - intros ->. by apply Hfalse.
  - intros ->. by apply Htrue.
Qed.

(** X9.  What a call of [executeAll] adds to [totalSpent] is the table
    cost [COST_PER_TOOL] of the tool of each result it completed, in
    order; the estimate carried by the step plays no part.  Completed
    results are charged a positive amount, all others zero, so a total
    that was a number stays a number and never decreases. *)
Theorem spend_is_the_table_cost plan m r m' :
  executeAll env plan m = (Return r, m') ->
  exists new,
    run_results r = (stepResults (self m) ++ new)%list /\
    run_totalSpent r = tableSpend new (totalSpent (self m)) /\
    Forall (fun x => if isCompleted x
                     then exists q, actual_cost_usd x = Num q /\ (0 < q)%Q
                     else actual_cost_usd x = Num 0) new /\
    (forall q0, totalSpent (self m) = Num q0 ->
                exists q, run_totalSpent r = Num q /\ (q0 <= q)%Q).
Proof.
  rewrite executeAll_eq.
  destruct (forEachStep env plan (steps plan) m) as [[h|e] m1] eqn:Hloop; [|done].
  intros [= <- <-]. simpl.
  apply forEachStep_groups in Hloop as (_ & gs & Hrs & Hsp & Hgs & _).
  apply groups_results in Hgs.
  exists (concat gs). split; [done|]. split; [|split].
  - by rewrite Hsp, spentOn_tableSpend.
  - eapply Forall_impl; [exact Hgs|]. intros x (s & Hx). by eapply resultOf_cost.
  - intros q0 Hq. rewrite Hsp, Hq. by apply spentOn_grows.
Qed.

(** The loop without a payment contract. *)
Lemma forEachStep_simulated_results plan l m :
  onChain (config (self m)) = false ->
  exists m' new,
    forEachStep env plan l m = (Return false, m') /\
    config (self m') = config (self m) /\
    stepResults (self m') = (stepResults (self m) ++ new)%list /\
    totalSpent (self m') = spentOn new (totalSpent (self m)) /\
    Forall2 (fun s x => resultOf s x /\ (status x = completed \/ status x = failed)) l new.
Proof.
  intros Hsim.
  destruct (forEachStep env plan l m) as [res m1] eqn:Hloop.
  apply forEachStep_groups in Hloop as (Hcfg & gs & Hrs & Hsp & Hgs & Hfalse & _ & Hs).
  destruct (Hs Hsim) as [-> Hone]. destruct (Hfalse eq_refl) as [Hlen Hnd].
  rewrite Hlen, firstn_all in Hgs.
  exists m1, (concat gs). split; [done|].
  split; [done|]. split; [done|]. split; [done|].
  clear -Hgs Hone Hnd.
  induction Hgs as [|s g l gs' [Hg Hshape] _ IH]; [constructor|].
  apply Forall_cons in Hone as [Hg1 Hone]. apply Forall_cons in Hnd as [Hgd Hnd].
  destruct g as [|x [|? ?]]; try done. simpl.
  constructor; [|by apply IH].
  apply Forall_cons in Hg as [Hx _]. split; [done|].
  simpl in Hshape, Hgd. destruct (status x); try done; auto.
Qed.

(** X10.  Without a payment contract (no address, or the zero address)
    [executeAll] always returns and never halts: it appends exactly one
    result per step, in the order of the plan, each one [completed] or
    [failed], and leaves the configuration as it was. *)
Theorem simulated_run_is_total plan m :
  onChain (config (self m)) = false ->
  exists r m' new,
    executeAll env plan m = (Return r, m') /\
    run_halted r = false /\
    config (self m') = config (self m) /\
    run_results r = (stepResults (self m) ++ new)%list /\
    Forall2 (fun s x => resultOf s x /\ (status x = completed \/ status x = failed))
            (steps plan) new.
Proof.
  intros Hsim. rewrite executeAll_eq.
  destruct (forEachStep_simulated_results plan (steps plan) m Hsim)
    as (m1 & new & -> & Hcfg & Hrs & _ & Hall).
  eexists _, m1, new. split; [done|]. simpl. by repeat split.
Qed.

Lemma completed_or_failed (l : list Step) new :
  Forall2 (fun s x => resultOf s x /\ (status x = completed \/ status x = failed)) l new ->
  (countCompleted new + Z.of_nat (length (filter (fun x => status x = failed) new))
   = Z.of_nat (length l))%Z /\
  Forall (fun r => exists s, resultOf s r) new.
Proof.
  unfold countCompleted.
  induction 1 as [|s x l new [Hx Hst] _ [IH1 IH2]]; [by split|].
  split; [|constructor; eauto].
  rewrite !filter_cons, isCompleted_status.
  destruct Hst as [Hst|Hst]; rewrite Hst.
  - rewrite decide_True, decide_False by done. simpl length. lia.
  - rewrite decide_False, decide_True by done. simpl length. lia.
Qed.

(** X21.  [getBudgetStatus] after a run of a new executor without payment
    contract, on a plan whose [step_count] is the number of its steps:
    [steps_completed] counts the completed results and [steps_remaining]
    is the number of failed ones, which the run will not take up again;
    the two add up to [step_count].  [total_spent] is the total of the
    run, a number, and [remaining] is [max_budget] less that total;
    [total_locked] is the estimated total of the plan, not its budget. *)
Theorem budget_status_after_simulated_run plan m :
  onChain (config (self m)) = false ->
  stepResults (self m) = [] -> totalSpent (self m) = Num 0 ->
  step_count plan = Z.of_nat (length (steps plan)) ->
  exists r m' bs q,
    executeAll env plan m = (Return r, m') /\
    getBudgetStatus plan m' = (Return bs, m') /\
    steps_completed bs = countCompleted (run_results r) /\
    steps_remaining bs
      = Z.of_nat (length (filter (fun x => status x = failed) (run_results r))) /\
    (steps_completed bs + steps_remaining bs = step_count plan)%Z /\
    total_spent bs = run_totalSpent r /\ run_totalSpent r = Num q /\
    remaining bs = Num (max_budget plan - q) /\
    total_locked bs = total_estimated_cost plan.
Proof.
  intros Hsim Hnew Hzero Hcount. rewrite executeAll_eq.
  destruct (forEachStep_simulated_results plan (steps plan) m Hsim)
    as (m1 & new & -> & Hcfg & Hrs & Hsp & Hall).
  rewrite Hnew in Hrs. simpl in Hrs. rewrite Hzero in Hsp.
  destruct (completed_or_failed _ _ Hall) as [Hsum Hres].
  destruct (spentOn_grows new 0 Hres) as (q & Hq & _).
  eexists _, m1, _, q. split; [reflexivity|].
  unfold getBudgetStatus. rewrite andThen_eq. simpl.
  split; [reflexivity|]. simpl. rewrite Hrs, Hsp, Hq, Hcount.
  split; [done|]. split; [lia|]. split; [lia|]. by repeat split.
Qed.

(** *** When the confirmation fails *)

Lemma confirmPayment_throws k sid m e w' :
  onChain (config (self m)) = true ->
  callContract env "confirmExecution" [JStr (hashStepId k)] sid (world m) = (Throw e, w') ->
  confirmPayment env k sid m = (Throw e, mkMachine (self m) w').
Proof.
  intros Hon Hc. unfold confirmPayment. rewrite andThen_eq. simpl. rewrite Hon.
  rewrite andThen_eq. unfold io. by rewrite Hc.
Qed.

Lemma refundPayment_called k sid m h w' :
  onChain (config (self m)) = true ->
  callContract env "refund" [JStr (hashStepId k)] sid (world m) = (Return h, w') ->
  refundPayment env k sid m = (Return tt, mkMachine (self m) w').
Proof.
  intros Hon Hc. unfold refundPayment. rewrite andThen_eq. simpl. rewrite Hon.
  rewrite andThen_eq. unfold io. by rewrite Hc.
Qed.

Lemma executeStep_confirm_throws plan step m e :
  onChain (config (self m)) = true ->
  (forall args w, exists h w',
      callContract env "authorizePayment" args (session_id plan) w = (Return h, w')) ->
  (forall args w, exists w',
      callContract env "confirmExecution" args (session_id plan) w = (Throw e, w')) ->
  (forall args w, exists h w',
      callContract env "refund" args (session_id plan) w = (Return h, w')) ->
  (forall m0, exists out m1, executeTool env step plan m0 = (Return out, m1)) ->
  exists c f w',
    executeStep env plan step m =
      (Return Next,
       after m [c; f] (plus (totalSpent (self m)) (COST_PER_TOOL (tool step))) w') /\
    resultOf step c /\ status c = completed /\
    resultOf step f /\ status f = failed /\ error f = Some e.
Proof.
  intros Hon Hauth Hconf Hrefund Htool.
  destruct (authorizePayment_returns env step (session_id plan) m)
    as (p & m1 & Hp & Hs1 & _ & Hmode).
  rewrite Hon in Hmode.
  match type of Hmode with context [callContract env _ ?args _ ?w] =>
    destruct (Hauth args w) as (h & w' & Hcall); rewrite Hcall in Hmode
  end.
  destruct Hmode as (Hok & _ & _).
  destruct (Htool (mkMachine (self m1) (snd (Date_now env (world m1)))))
    as (out & m2 & Hout).
  pose proof (keepsSelf_executeTool env step plan
                (mkMachine (self m1) (snd (Date_now env (world m1))))) as Hk2.
  rewrite Hout in Hk2. simpl in Hk2.
  apply executeTool_known in Hout as Hknown.
  unfold executeStep. rewrite andThen_eq, Hp, Hok.
  change (negb true) with false. cbv beta iota.
  rewrite andThen_eq, now_eq. cbv beta iota.
  rewrite andThen_eq, tryCatch_eq, andThen_eq, Hout. cbv beta iota.
  rewrite andThen_eq, now_eq. cbv beta iota.
  rewrite andThen_eq, spend_eq. cbv beta iota.
  rewrite andThen_eq, isoNow_eq. cbv beta iota.
  rewrite andThen_eq, push_eq. cbv beta iota.
  match goal with |- context [confirmPayment env ?k ?sid ?mx] =>
    destruct (Hconf [JStr (hashStepId k)] (world mx)) as (w3 & Hc);
    rewrite (confirmPayment_throws k sid mx e w3);
      [|simpl; by rewrite Hk2, Hs1|exact Hc]
  end.
  cbv beta iota.
  rewrite andThen_eq, now_eq. cbv beta iota.
  rewrite andThen_eq, isoNow_eq. cbv beta iota.
  rewrite andThen_eq, push_eq. cbv beta iota.
  match goal with |- context [refundPayment env ?k ?sid ?mx] =>
    destruct (Hrefund [JStr (hashStepId k)] (world mx)) as (h4 & w4 & Hr);
    rewrite (refundPayment_called k sid mx h4 w4);
      [|simpl; by rewrite Hk2, Hs1|exact Hr]
  end.
  cbv beta iota. unfold after, pure. simpl. rewrite ?Hk2, ?Hs1, <- app_assoc. simpl.
  eexists _, _, _. split; [reflexivity|].
  unfold resultOf. simpl. repeat split; eauto.
Qed.

(** X11.  When the payment contract accepts authorisations and refunds
    but every confirmation call throws, a run in which every tool
    returns is not halted, and every step of the plan is reported twice
    in a row: as [completed] and then as [failed] with the message of the
    confirmation.  The cost of every step stays in [totalSpent]: the
    failure does not take the charge back. *)
Theorem confirmation_failure_keeps_the_charge plan m e :
  onChain (config (self m)) = true ->
  (forall args w, exists h w',
      callContract env "authorizePayment" args (session_id plan) w = (Return h, w')) ->
  (forall args w, exists w',
      callContract env "confirmExecution" args (session_id plan) w = (Throw e, w')) ->
  (forall args w, exists h w',
      callContract env "refund" args (session_id plan) w = (Return h, w')) ->
  (forall s m0, s ∈ steps plan -> exists out m1, executeTool env s plan m0 = (Return out, m1)) ->
  exists r m' new,
    executeAll env plan m = (Return r, m') /\
    run_halted r = false /\
    run_results r = (stepResults (self m) ++ new)%list /\
    map status new = concat (map (fun _ => [completed; failed]) (steps plan)) /\
    map step_id new = concat (map (fun s => [id s; id s]) (steps plan)) /\
    Forall (fun x => status x = failed -> error x = Some e) new /\
    run_totalSpent r =
      fold_left plus (map (fun s => COST_PER_TOOL (tool s)) (steps plan)) (totalSpent (self m)).
Proof.
  intros Hon Hauth Hconf Hrefund Htool. rewrite executeAll_eq.
  assert (Hloop : exists m' new,
    forEachStep env plan (steps plan) m = (Return false, m') /\
    stepResults (self m') = (stepResults (self m) ++ new)%list /\
    map status new = concat (map (fun _ => [completed; failed]) (steps plan)) /\
    map step_id new = concat (map (fun s => [id s; id s]) (steps plan)) /\
    Forall (fun x => status x = failed -> error x = Some e) new /\
    totalSpent (self m') =
      fold_left plus (map (fun s => COST_PER_TOOL (tool s)) (steps plan)) (totalSpent (self m))).
  { revert m Hon Htool. induction (steps plan) as [|s l IH]; intros m Hon Htool.
    - exists m, []. rewrite app_nil_r. repeat split; done.
    - rewrite forEachStep_cons.
      destruct (executeStep_confirm_throws plan s m e Hon Hauth Hconf Hrefund)
        as (c & f & w' & -> & Hc & Hsc & Hf & Hsf & Hef).
      { intros m0. apply Htool. apply list_elem_of_here. }
      destruct (IH (after m [c; f] (plus (totalSpent (self m)) (COST_PER_TOOL (tool s))) w'))
        as (m' & new & -> & Hrs & Hst & Hids & Herr & Hsp).
      { exact Hon. }
      { intros s0 m0 Hin. apply Htool. by apply list_elem_of_further. }
      exists m', (c :: f :: new). split; [done|].
      split; [rewrite Hrs; simpl; by rewrite <- app_assoc|].
      split; [simpl; by rewrite Hsc, Hsf, Hst|].
      split.
      { destruct Hc as (Hic & _). destruct Hf as (Hif & _). simpl.
        by rewrite Hic, Hif, Hids. }
      split; [|exact Hsp].
      constructor; [intros; congruence|]. constructor; [done|]. exact Herr. }
  destruct Hloop as (m' & new & -> & Hrs & Hst & Hids & Herr & Hsp).
  eexists _, m', new. split; [reflexivity|]. simpl. by repeat split.
Qed.

(** *** Provenance strings of the tools *)

Lemma deduplicateSources_plain (s : string) w :
  isUrl s = false ->
  deduplicateSources env [s] w =
  (Return [{| url := EmptyString; title := s; relevance := "primary";
              accessed_at := fst (toISOString env w) |}],
   snd (toISOString env w)).
Proof.
  intros Hs. unfold deduplicateSources, setToArray. simpl.
  unfold sourceReference, andThen, pure, clock. rewrite Hs.
  by destruct (toISOString env w).
Qed.

(** X12.  A model step ([anthropic] or [reasoning]) or an RPC step that
    returns yields exactly one provenance string, [anthropic:<model>] or
    [rpc:<url>:<method>], which does not begin with [http]:
    [deduplicateSources] gives it an entry with the string itself as
    title and an empty [url], and cannot throw on it.  Only the sources
    of a search step are parsed as URLs. *)
Theorem model_and_rpc_sources_are_plain plan step m out m' :
  executeTool env step plan m = (Return out, m') ->
  tool step <> "tavily" ->
  exists s,
    out_sources out = [s] /\
    ((exists model', model' <> EmptyString /\ s = ("anthropic:" ++ model')%string) \/
     (exists method', method' <> EmptyString /\
        s = ("rpc:" ++ rpcUrl (config (self m)) ++ ":" ++ method')%string)) /\
    forall w, deduplicateSources env (out_sources out) w =
      (Return [{| url := EmptyString; title := s; relevance := "primary";
                  accessed_at := fst (toISOString env w) |}],
       snd (toISOString env w)).
Proof.
  intros Hrun Hns. unfold executeTool in Hrun.
  assert (HorElse : forall a d, d <> EmptyString -> orElse a d <> EmptyString).
  { intros a d Hd. unfold orElse. by destruct a. }
  destruct (String.eqb (tool step) "anthropic" || String.eqb (tool step) "reasoning").
  - unfold executeAnthropic in Hrun. rewrite andThen_eq in Hrun. simpl in Hrun.
    rewrite andThen_eq in Hrun. unfold io in Hrun.
    destruct (messages_create env _ (world m)) as [[[|b bs]|e] w1]; try done.
    injection Hrun as <- <-. simpl. eexists. split; [reflexivity|]. split.
    + left. eexists. split; [|reflexivity].
      destruct (cfg_anthropic (tool_config step)); [by apply HorElse|done].
    + intros w. by apply deduplicateSources_plain.
  - destruct (String.eqb_spec (tool step) "tavily") as [|_]; [done|].
    destruct (String.eqb (tool step) "blockchain_rpc"); [|done].
    unfold executeBlockchainRPC in Hrun. rewrite andThen_eq in Hrun. simpl in Hrun.
    rewrite andThen_eq in Hrun. unfold io in Hrun.
    destruct (fetch_rpc env _ _ (world m)) as [[resp|e] w1]; [|done].
    destruct (ok resp); [|done]. simpl in Hrun.
    rewrite andThen_eq in Hrun.
    destruct (json resp) as [d|e]; [|done].
    destruct (rpc_error d); [done|].
    injection Hrun as <- <-. simpl. eexists. split; [reflexivity|]. split.
    + right. eexists. split; [|reflexivity].
      destruct (cfg_blockchain_rpc (tool_config step)); [by apply HorElse|done].
    + intros w. by apply deduplicateSources_plain.
Qed.

End SchedulerMore.

(** *** The stand-in for the hash of a step id *)

Section StepIdHash.
Import Agent.

Lemma length_toHex s : String.length (toHex s) = (2 * String.length s)%nat.
Proof. induction s as [|c s IH]; simpl; lia. Qed.

Lemma length_zeros n : String.length (zeros n) = n.
Proof. induction n; simpl; lia. Qed.

Lemma length_string_app (a b : string) :
  String.length (a ++ b) = (String.length a + String.length b)%nat.
Proof. induction a as [|c a IH]; simpl; [done|by rewrite IH]. Qed.

Lemma hexDigit_inj a b :
  (a < 16)%N -> (b < 16)%N -> hexDigit a = hexDigit b -> a = b.
Proof.
  intros Ha Hb.
  assert (Hcases : forall x : N, (x < 16)%N ->
    x = 0%N \/ x = 1%N \/ x = 2%N \/ x = 3%N \/ x = 4%N \/ x = 5%N \/ x = 6%N \/
    x = 7%N \/ x = 8%N \/ x = 9%N \/ x = 10%N \/ x = 11%N \/ x = 12%N \/ x = 13%N \/
    x = 14%N \/ x = 15%N).
  { intros x Hx. lia. }
  destruct (Hcases a Ha) as [->|[->|[->|[->|[->|[->|[->|[->|[->|[->|[->|[->|[->|[->|[->| ->]]]]]]]]]]]]]]];
  destruct (Hcases b Hb) as [->|[->|[->|[->|[->|[->|[->|[->|[->|[->|[->|[->|[->|[->|[->| ->]]]]]]]]]]]]]]];
  simpl; intros H; first [reflexivity | discriminate H].
Qed.

Lemma hex_byte_inj c1 c2 :
  hexDigit (N_of_ascii c1 / 16) = hexDigit (N_of_ascii c2 / 16) ->
  hexDigit (N_of_ascii c1 mod 16) = hexDigit (N_of_ascii c2 mod 16) ->
  c1 = c2.
Proof.
  intros Hhi Hlo.
  pose proof (N_ascii_bounded c1) as B1. pose proof (N_ascii_bounded c2) as B2.
  apply hexDigit_inj in Hhi; [|apply N.Div0.div_lt_upper_bound; lia..].
  apply hexDigit_inj in Hlo; [|apply N.mod_lt; lia..].
  rewrite <- (ascii_N_embedding c1), <- (ascii_N_embedding c2). f_equal.
  rewrite (N.div_mod (N_of_ascii c1) 16), (N.div_mod (N_of_ascii c2) 16) by lia.
  by rewrite Hhi, Hlo.
Qed.

Lemma padded_hex_inj s1 : forall s2 n,
  noNul s1 = true -> noNul s2 = true ->
  (toHex s1 ++ zeros (n - String.length (toHex s1)))%string =
  (toHex s2 ++ zeros (n - String.length (toHex s2)))%string ->
  s1 = s2.
Proof.
  assert (Hnul : forall c r n, noNul (String c r) = true ->
            zeros n <> (toHex (String c r) ++ zeros (n - String.length (toHex (String c r))))%string).
  { intros c r n Hc Heq. simpl in Hc. apply andb_true_iff in Hc as [Hc _].
    apply negb_true_iff, N.eqb_neq in Hc.
    destruct n as [|[|n]]; simpl in Heq; try discriminate Heq.
    injection Heq as Hhi Hlo _.
    apply Hc. change "0"%char with (hexDigit 0) in Hhi, Hlo.
    pose proof (N_ascii_bounded c) as B.
    apply hexDigit_inj in Hhi; [|lia|apply N.Div0.div_lt_upper_bound; lia].
    apply hexDigit_inj in Hlo; [|lia|apply N.mod_lt; lia].
    rewrite (N.div_mod (N_of_ascii c) 16) by lia. lia. }
  induction s1 as [|c1 r1 IH]; intros [|c2 r2] n H1 H2 Heq.
  - done.
  - exfalso. simpl toHex in Heq at 1. simpl in Heq. rewrite Nat.sub_0_r in Heq.
    by eapply (Hnul c2 r2 n).
  - exfalso. symmetry in Heq. simpl toHex in Heq at 1.
    change (String.length EmptyString) with 0%nat in Heq.
    rewrite Nat.sub_0_r in Heq. simpl append in Heq at 1.
    by eapply (Hnul c1 r1 n).
  - simpl in Heq. injection Heq as Hhi Hlo Hrest.
    simpl in H1, H2. apply andb_true_iff in H1 as [_ H1]. apply andb_true_iff in H2 as [_ H2].
    f_equal; [by apply hex_byte_inj|].
    apply (IH r2 (n - 2)%nat H1 H2).
    by rewrite <- !Nat.sub_add_distr.
Qed.

(** X13.  [hashStepId] is hex encoding padded with zeros, not a hash: its
    result is [0x] followed by 64 characters for an id of at most 32
    bytes, and longer (two characters per byte, nothing cut off) for a
    longer id.  Two ids without zero bytes that get the same result are
    equal. *)
Theorem hashStepId_is_padded_hex (s1 s2 : string) :
  String.length (hashStepId s1) = (2 + Nat.max 64 (2 * String.length s1))%nat /\
  (noNul s1 = true -> noNul s2 = true -> hashStepId s1 = hashStepId s2 -> s1 = s2).
Proof.
  split.
  - unfold hashStepId, padEnd0.
    rewrite !length_string_app, length_zeros, length_toHex. simpl String.length. lia.
  - unfold hashStepId, padEnd0. simpl. intros H1 H2 [= Heq].
    by apply (padded_hex_inj s1 s2 64).
Qed.

Lemma hashStepId_is_padded_hex_witness :
  String.length (hashStepId "step_0") = 66%nat /\
  (hashStepId "step_0" = hashStepId "step_1" -> "step_0" = "step_1").
Proof.
  destruct (hashStepId_is_padded_hex "step_0" "step_1") as [Hlen Hinj].
  split; [exact Hlen|]. apply Hinj; reflexivity.
Defined.

End StepIdHash.

Section SchedulerMoreWitnesses.
Import Agent AgentFacts.

(** The model step of the demo world: one source, the default model. *)
Lemma model_and_rpc_sources_are_plain_witness :
  exists out m' s,
    executeTool (demoWorld stubContract) (demoStep 0 "anthropic" (3 # 10)) scenarioB
                (fresh simulated) = (Return out, m') /\
    out_sources out = [s] /\ s = "anthropic:claude-sonnet-4-20250514".
Proof.
  destruct (executeTool (demoWorld stubContract) (demoStep 0 "anthropic" (3 # 10)) scenarioB
              (fresh simulated)) as [[out|e] m'] eqn:Hrun;
    [|vm_compute in Hrun; discriminate Hrun].
  destruct (model_and_rpc_sources_are_plain (demoWorld stubContract) scenarioB
              (demoStep 0 "anthropic" (3 # 10)) (fresh simulated) out m' Hrun)
    as (s & Hs & _ & _); [discriminate|].
  exists out, m', s. split; [reflexivity|]. split; [exact Hs|].
  vm_compute in Hrun. injection Hrun as <- _. simpl in Hs. by injection Hs as <-.
Defined.

Lemma demo_search_returns contract plan i cost (m0 : Machine Z) :
  exists out m1,
    executeTool (demoWorld contract) (demoStep i "tavily" cost) plan m0 = (Return out, m1).
Proof. destruct m0 as [[cfg rs ts] w]. eexists _, _. lazy. reflexivity. Qed.

(** Two searches against a contract whose confirmations revert: four
    results, and both searches charged. *)
Lemma confirmation_failure_keeps_the_charge_witness :
  exists r m' new,
    executeAll (demoWorld unconfirming) twoSearches (fresh deployedGate) = (Return r, m') /\
    run_results r = new /\
    map status new = [completed; failed; completed; failed] /\
    run_totalSpent r = plus (plus (Num 0) (Num (1 # 100))) (Num (1 # 100)).
Proof.
  destruct (confirmation_failure_keeps_the_charge (demoWorld unconfirming) twoSearches
              (fresh deployedGate) "execution reverted: X402: step not authorized")
    as (r & m' & new & Hrun & _ & Hrs & Hst & _ & _ & Hsp).
  - reflexivity.
  - intros args w. eexists _, _. reflexivity.
  - intros args w. eexists. reflexivity.
  - intros args w. eexists _, _. reflexivity.
  - intros s m0 Hin. simpl in Hin.
    apply elem_of_cons in Hin as [->|Hin]; [apply demo_search_returns|].
    apply elem_of_cons in Hin as [->|Hin]; [apply demo_search_returns|].
    by apply elem_of_nil in Hin.
  - exists r, m', new. split; [exact Hrun|]. split; [exact Hrs|].
    split; [exact Hst|exact Hsp].
Defined.

(** Scenario B on the placeholder contract call: three groups of one
    completed result each. *)
Lemma results_follow_the_plan_witness :
  let env := demoWorld stubContract in
  let first := executeAll env scenarioB (fresh deployedGate) in
  exists r groups,
    fst first = Return r /\
    run_results r = concat groups /\ length groups = 3%nat /\
    Forall2 groupOf (steps scenarioB) groups.
Proof.
  intros env first.
  destruct (fst first) as [r|] eqn:H1; [|vm_compute in H1; discriminate H1].
  destruct (results_follow_the_plan env scenarioB (fresh deployedGate) r (snd first))
    as (gs & Hrs & Hgs & Hfalse & _).
  - rewrite <- H1. apply surjective_pairing.
  - assert (Hh : run_halted r = false).
    { assert (Hr : Return r = fst first) by done.
      vm_compute in Hr. by injection Hr as ->. }
    destruct (Hfalse Hh) as [Hlen _].
    exists r, gs. split; [done|]. split; [exact Hrs|]. split; [exact Hlen|].
    rewrite Hlen in Hgs. exact Hgs.
Defined.

(** Scenario B, whose steps carry the estimate 0.3: the run is charged
    0.08 + 0.01 + 0.05. *)
Lemma spend_is_the_table_cost_witness :
  let env := demoWorld stubContract in
  let first := executeAll env scenarioB (fresh simulated) in
  exists r q,
    fst first = Return r /\ run_totalSpent r = Num q /\ (q == 14 # 100)%Q /\
    run_totalSpent r = tableSpend (run_results r) (Num 0).
Proof.
  intros env first.
  destruct (fst first) as [r|] eqn:H1; [|vm_compute in H1; discriminate H1].
  destruct (spend_is_the_table_cost env scenarioB (fresh simulated) r (snd first))
    as (new & Hrs & Hsp & _ & _).
  - rewrite <- H1. apply surjective_pairing.
  - simpl in Hrs. rewrite <- Hrs in Hsp.
    assert (Hr : Return r = fst first) by done.
    vm_compute in Hr. injection Hr as Hr. subst r.
    eexists _, _. split; [exact H1|]. split; [reflexivity|]. split; [|exact Hsp].
    vm_compute. reflexivity.
Defined.

Lemma budget_status_after_simulated_run_witness :
  exists r m' bs,
    executeAll (demoWorld stubContract) scenarioB (fresh simulated) = (Return r, m') /\
    getBudgetStatus scenarioB m' = (Return bs, m') /\
    (steps_completed bs + steps_remaining bs = 3)%Z.
Proof.
  destruct (budget_status_after_simulated_run (demoWorld stubContract) scenarioB
              (fresh simulated))
    as (r & m' & bs & q & Hrun & Hbs & _ & _ & Hsum & _); [reflexivity..|].
  exists r, m', bs. split; [exact Hrun|]. split; [exact Hbs|exact Hsum].
Defined.

Lemma simulated_run_is_total_witness :
  exists r m' new,
    executeAll (demoWorld stubContract) scenarioB (fresh simulated) = (Return r, m') /\
    run_halted r = false /\ run_results r = new /\ length new = 3%nat.
Proof.
  destruct (simulated_run_is_total (demoWorld stubContract) scenarioB (fresh simulated))
    as (r & m' & new & Hrun & Hh & _ & Hrs & Hall); [reflexivity|].
  exists r, m', new. split; [exact Hrun|]. split; [exact Hh|]. split; [exact Hrs|].
  apply Forall2_length in Hall. simpl in Hall. lia.
Defined.

End SchedulerMoreWitnesses.

(** ** Further properties of the aggregator *)

Section SynthesizerMore.
Import Agent AgentFacts SynthFacts.
Context {W : Type} (env : World W).

Lemma prop_world (v : JSON) key (w : W) : snd (prop v key w) = w.
Proof. by destruct v. Qed.

Lemma prop_cases (v : JSON) key (w : W) :
  match v with
  | JUndefined | JNull => exists e, prop v key w = (Throw e, w)
  | JObj fields => prop v key w = (Return (lookupField key fields), w)
  | _ => prop v key w = (Return JUndefined, w)
  end.
Proof. destruct v; simpl; eauto. Qed.

Lemma keyFinding_returns f (w : W) x w' :
  keyFinding f w = (Return x, w') ->
  w' = w /\ exists fields, x = JObj fields /\ truthy (lookupField "confidence" fields) = true.
Proof.
  unfold keyFinding. rewrite andThen_eq.
  pose proof (prop_world f "claim" w) as H1.
  destruct (prop f "claim" w) as [[a|e] w1]; [|done]. simpl in H1. subst w1.
  rewrite andThen_eq. pose proof (prop_world f "evidence" w) as H2.
  destruct (prop f "evidence" w) as [[b|e] w1]; [|done]. simpl in H2. subst w1.
  rewrite andThen_eq. pose proof (prop_world f "source" w) as H3.
  destruct (prop f "source" w) as [[c|e] w1]; [|done]. simpl in H3. subst w1.
  rewrite andThen_eq. pose proof (prop_world f "confidence" w) as H4.
  destruct (prop f "confidence" w) as [[d|e] w1]; [|done]. simpl in H4. subst w1.
  intros [= <- <-]. split; [done|]. eexists. split; [reflexivity|].
  simpl. unfold orJSON. by destruct (truthy d) eqn:Hd.
Qed.

Lemma keyFinding_throws f (w : W) e w' : keyFinding f w = (Throw e, w') -> w' = w.
Proof.
  unfold keyFinding. rewrite andThen_eq.
  pose proof (prop_world f "claim" w) as H1.
  destruct (prop f "claim" w) as [[a|e1] w1]; simpl in H1; subst w1; [|congruence].
  rewrite andThen_eq. pose proof (prop_world f "evidence" w) as H2.
  destruct (prop f "evidence" w) as [[b|e1] w1]; simpl in H2; subst w1; [|congruence].
  rewrite andThen_eq. pose proof (prop_world f "source" w) as H3.
  destruct (prop f "source" w) as [[c|e1] w1]; simpl in H3; subst w1; [|congruence].
  rewrite andThen_eq. pose proof (prop_world f "confidence" w) as H4.
  destruct (prop f "confidence" w) as [[d|e1] w1]; simpl in H4; subst w1; [|congruence].
  done.
Qed.

Lemma mapM_keyFinding items : forall (w : W) r w',
  mapM keyFinding items w = (r, w') ->
  w' = w /\
  forall out, r = Return out ->
    Forall (fun x => exists fields, x = JObj fields /\
                       truthy (lookupField "confidence" fields) = true) out.
Proof.
  induction items as [|f items IH]; intros w r w'; simpl.
  - intros [= <- <-]. split; [done|]. intros out [= <-]. constructor.
  - rewrite andThen_eq. destruct (keyFinding f w) as [[x|e] w1] eqn:Hf.
    + apply keyFinding_returns in Hf as [-> Hx]. rewrite andThen_eq.
      destruct (mapM keyFinding items w) as [[xs|e] w2] eqn:Hrest.
      * apply IH in Hrest as [-> Hxs]. intros [= <- <-]. split; [done|].
        intros out [= <-]. constructor; [done|]. by apply Hxs.
      * apply IH in Hrest as [-> _]. intros [= <- <-]. split; [done|]. done.
    + apply keyFinding_throws in Hf as ->. intros [= <- <-]. split; [done|]. done.
Qed.

Lemma mapM_sourceReference_entries l : forall (w : W) out w',
  mapM (sourceReference env) l w = (Return out, w') -> Forall2 (entryFor env) l out.
Proof.
  induction l as [|s l IH]; intros w out w'; simpl.
  - intros [= <-]. constructor.
  - rewrite andThen_eq, sourceReference_eq.
    destruct (titleOf env s) as [t|] eqn:Ht; [|done]. cbv beta iota.
    rewrite andThen_eq.
    destruct (mapM (sourceReference env) l (snd (toISOString env w))) as [[ys|e] w2] eqn:Hrest;
      [|done].
    intros [= <- <-]. constructor; [|by eapply IH].
    unfold entryFor. simpl. by rewrite Ht.
Qed.

Lemma orJSON_truthy v d : truthy d = true -> truthy (orJSON v d) = true.
Proof. intros Hd. unfold orJSON. by destruct (truthy v) eqn:Hv. Qed.

(** X14.  The report of [synthesize], whenever it returns: the status is
    [halted] exactly for a halted run; [actions] are the step results as
    given and [sources] the sources of the completed ones, duplicates
    included; [steps_executed] counts the completed results and
    [steps_total] counts the results (not the steps of the plan), so
    [0 <= steps_executed <= steps_total]; the source references are the
    entries of the distinct sources in order of first occurrence;
    [answer], [confidence], [assumptions] and [limitations] are never
    empty values, every key finding carries a confidence; the plan is
    omitted and the remaining budget is reported as 0. *)
Theorem synthesize_report model' query' rs total halted sid (w : W) resp w' :
  synthesize env model' query' rs total halted sid w = (Return resp, w') ->
  ar_status resp = (if halted then st_halted else st_completed) /\
  ar_session_id resp = sid /\ ar_query resp = query' /\
  actions resp = rs /\
  ar_sources resp = concat (map sources (filter (fun r => isCompleted r = true) rs)) /\
  ar_plan resp = None /\ estimated_remaining_budget resp = 0%Q /\
  exists sr, results resp = Some sr /\
    was_halted sr = halted /\ total_cost_usd sr = total /\
    steps_executed sr = countCompleted rs /\
    steps_total sr = Z.of_nat (length rs) /\
    (0 <= steps_executed sr <= steps_total sr)%Z /\
    Forall2 (entryFor env) (setToArray (ar_sources resp)) (sr_sources sr) /\
    truthy (answer sr) = true /\ truthy (confidence sr) = true /\
    truthy (assumptions sr) = true /\ truthy (limitations sr) = true /\
    Forall (fun x => exists fields, x = JObj fields /\
                       truthy (lookupField "confidence" fields) = true) (key_findings sr).
Proof.
  unfold synthesize. rewrite andThen_eq.
  destruct (messages_create env _ w) as [[[|block rest]|e] w1]; try done.
  cbv beta iota zeta. rewrite andThen_eq.
  set (allSources := concat (map sources (filter (fun r => isCompleted r = true) rs))).
  destruct (deduplicateSources env allSources w1) as [[refs|e] w2] eqn:Hrefs; [|done].
  cbv beta iota. set (synthesis := parseJSON env _).
  rewrite andThen_eq. pose proof (prop_world synthesis "answer" w2) as H1.
  destruct (prop synthesis "answer" w2) as [[a|e] w3]; [|done]. simpl in H1. subst w3.
  rewrite andThen_eq. pose proof (prop_world synthesis "confidence" w2) as H2.
  destruct (prop synthesis "confidence" w2) as [[c|e] w3]; [|done]. simpl in H2. subst w3.
  rewrite andThen_eq. pose proof (prop_world synthesis "key_findings" w2) as H3.
  destruct (prop synthesis "key_findings" w2) as [[kf|e] w3]; [|done]. simpl in H3. subst w3.
  rewrite andThen_eq.
  destruct (match orJSON kf (JArr []) with
            | JArr items => mapM keyFinding items
            | _ => throw "(intermediate value).map is not a function"
            end w2) as [[fs|e] w3] eqn:Hfs; [|done].
  assert (Hfs' : w3 = w2 /\
            Forall (fun x => exists fields, x = JObj fields /\
                       truthy (lookupField "confidence" fields) = true) fs).
  { destruct (orJSON kf (JArr [])); try done.
    apply mapM_keyFinding in Hfs as [-> Hall]. split; [done|]. by apply Hall. }
  destruct Hfs' as [-> Hfindings]. cbv beta iota.
  rewrite andThen_eq. pose proof (prop_world synthesis "assumptions" w2) as H5.
  destruct (prop synthesis "assumptions" w2) as [[asm|e] w3]; [|done]. simpl in H5. subst w3.
  rewrite andThen_eq. pose proof (prop_world synthesis "limitations" w2) as H6.
  destruct (prop synthesis "limitations" w2) as [[lim|e] w3]; [|done]. simpl in H6. subst w3.
  rewrite andThen_eq. unfold clock at 1. destruct (toISOString env w2) as [ts w4].
  intros [= <- <-]. simpl.
  repeat (split; [done|]). eexists. split; [reflexivity|]. simpl.
  repeat (split; [done|]). split.
  { unfold countCompleted. split; [lia|]. apply inj_le, length_filter. }
  split; [by eapply mapM_sourceReference_entries|].
  repeat (split; [by apply orJSON_truthy|]). done.
Qed.

(** X15.  A reply of the model that [JSON.parse] rejects is not an error:
    when the model call and the source references succeed, [synthesize]
    returns with the raw text as answer (the stock sentence when the
    text is empty), confidence [low], no key findings, and the stock
    assumption and limitation. *)
Theorem synthesize_unstructured_reply model' query' rs total halted sid (w w1 w2 : W)
    text more refs :
  (forall req, messages_create env req w
               = (Return ({| block_type := "text"; block_text := text |} :: more), w1)) ->
  JSON_parse env (match match_fence env text with
                  | Some body => trim env body
                  | None => trim env text
                  end) = None ->
  deduplicateSources env
    (concat (map sources (filter (fun r => isCompleted r = true) rs))) w1 = (Return refs, w2) ->
  exists resp sr,
    synthesize env model' query' rs total halted sid w
      = (Return resp, snd (toISOString env w2)) /\
    results resp = Some sr /\
    replyFields sr =
      (JStr (orElse text "Unable to synthesize results"), JStr "low", [],
       JArr [JStr "Failed to parse structured response"],
       JArr [JStr "Output was not structured JSON"]).
Proof.
  intros Hllm Hparse Hrefs. unfold synthesize. rewrite andThen_eq, Hllm.
  cbv beta iota zeta. rewrite andThen_eq, Hrefs. cbv beta iota.
  cbn [block_type block_text].
  change (String.eqb "text" "text") with true. cbv beta iota.
  unfold parseJSON. cbv zeta. rewrite Hparse.
  rewrite andThen_eq. simpl prop. unfold pure at 1. cbv beta iota.
  rewrite andThen_eq. unfold pure at 1. cbv beta iota.
  rewrite andThen_eq. unfold pure at 1. cbv beta iota.
  rewrite andThen_eq. simpl. unfold pure at 1. cbv beta iota.
  unfold andThen, pure, clock. destruct (toISOString env w2) as [ts w3]. simpl.
  eexists _, _. split; [reflexivity|]. split; [reflexivity|].
  unfold replyFields, orJSON, orElse. simpl. by destruct text.
Qed.

(** X16.  A reply that is valid JSON but not an object is not caught by
    [parseJSON]: for [null] the property access throws and [synthesize]
    fails with a TypeError after the model call and the source
    references have succeeded; for a number, a string, a boolean or an
    array every field reads [undefined] and the report carries the
    defaults only. *)
Theorem synthesize_non_object_reply model' query' rs total halted sid (w w1 w2 : W)
    text more refs v :
  (forall req, messages_create env req w
               = (Return ({| block_type := "text"; block_text := text |} :: more), w1)) ->
  JSON_parse env (match match_fence env text with
                  | Some body => trim env body
                  | None => trim env text
                  end) = Some v ->
  deduplicateSources env
    (concat (map sources (filter (fun r => isCompleted r = true) rs))) w1 = (Return refs, w2) ->
  match v with
  | JNull =>
      synthesize env model' query' rs total halted sid w
        = (Throw "Cannot read properties of null (reading 'answer')", w2)
  | JBool _ | JNum _ | JStr _ | JArr _ =>
      exists resp sr,
        synthesize env model' query' rs total halted sid w
          = (Return resp, snd (toISOString env w2)) /\
        results resp = Some sr /\
        replyFields sr =
          (JStr "Unable to synthesize results", JStr "low", [], JArr [], JArr [])
  | _ => True
  end.
Proof.
  intros Hllm Hparse Hrefs.
  assert (Hstart : synthesize env model' query' rs total halted sid w =
    (let synthesis := v in
     andThen (prop synthesis "answer") (fun answer' =>
     andThen (prop synthesis "confidence") (fun confidence' =>
     andThen (prop synthesis "key_findings") (fun findings =>
     andThen (match orJSON findings (JArr []) with
              | JArr items => mapM keyFinding items
              | _ => throw "(intermediate value).map is not a function"
              end) (fun findings' =>
     andThen (prop synthesis "assumptions") (fun assumptions' =>
     andThen (prop synthesis "limitations") (fun limitations' =>
     andThen (clock env) (fun ts =>
     pure {| ar_status := if halted then st_halted else st_completed;
             ar_session_id := sid; ar_query := query';
             current_step := if halted
                             then ("Halted at step " ++ showZ (Z.of_nat (length rs)))%string
                             else "synthesis_complete";
             estimated_remaining_budget := 0; ar_plan := None; actions := rs;
             results := Some
               {| answer := orJSON answer' (JStr "Unable to synthesize results");
                  confidence := orJSON confidence' (JStr "low");
                  key_findings := findings';
                  assumptions := orJSON assumptions' (JArr []);
                  limitations := orJSON limitations' (JArr []);
                  sr_sources := refs; total_cost_usd := total;
                  steps_executed :=
                    Z.of_nat (length (filter (fun r => isCompleted r = true) rs));
                  steps_total := Z.of_nat (length rs); was_halted := halted |};
             ar_sources := concat (map sources (filter (fun r => isCompleted r = true) rs));
             notes := if halted
                      then "Execution halted due to budget exhaustion. Results are partial."
                      else ("Research completed. "
                            ++ showZ (Z.of_nat (length
                                 (filter (fun r => isCompleted r = true) rs)))
                            ++ " steps executed.")%string;
             ar_timestamp := ts |}))))))) w2)).
  { unfold synthesize. rewrite andThen_eq, Hllm.
    cbv beta iota zeta. rewrite andThen_eq, Hrefs. cbv beta iota.
    cbn [block_type block_text].
  change (String.eqb "text" "text") with true. cbv beta iota.
    unfold parseJSON. cbv zeta. rewrite Hparse. reflexivity. }
  destruct v; try exact I; rewrite Hstart; cbv zeta;
    try (unfold andThen, pure, clock; simpl; destruct (toISOString env w2) as [ts w3];
         simpl; eexists _, _; split; [reflexivity|]; split; reflexivity).
  reflexivity.
Qed.

End SynthesizerMore.

Section SynthesizerMoreWitnesses.
Import Agent AgentFacts SynthFacts.

(** Two completed searches that found the same page, and a failed step:
    two sources, one reference, two of three steps executed. *)
Lemma synthesize_report_witness :
  let rs := [searchResult 0 ["https://a.com/x"]; searchResult 1 ["https://a.com/x"];
             failedResult (demoStep 2 "tavily" 0) 
               {| pa_step_id := "step_2"; amount_usd := 0; pa_authorized := true;
                  tx_hash := None; pa_error := None |} "down" 1 "T"] in
  exists resp w' sr,
    synthesize (demoWorld stubContract) defaultModel "q" rs (Num (2 # 100)) false "s" 0%Z
      = (Return resp, w') /\
    results resp = Some sr /\
    length (ar_sources resp) = 2%nat /\ length (sr_sources sr) = 1%nat /\
    steps_executed sr = 2%Z /\ steps_total sr = 3%Z.
Proof.
  intros rs.
  destruct (synthesize (demoWorld stubContract) defaultModel "q" rs (Num (2 # 100)) false "s" 0%Z)
    as [[resp|e] w'] eqn:Hrun; [|vm_compute in Hrun; discriminate Hrun].
  destruct (synthesize_report (demoWorld stubContract) defaultModel "q" rs (Num (2 # 100))
              false "s" 0%Z resp w' Hrun)
    as (_ & _ & _ & _ & Hsrc & _ & _ & sr & Hres & _ & _ & Hex & Htot & _ & Hrefs & _).
  exists resp, w', sr. split; [reflexivity|]. split; [exact Hres|].
  split; [by rewrite Hsrc|]. split.
  - apply Forall2_length in Hrefs. rewrite <- Hrefs, Hsrc. reflexivity.
  - split; [exact Hex|exact Htot].
Defined.

Lemma synthesize_unstructured_reply_witness :
  exists resp sr w',
    synthesize (replying "I cannot say." None) defaultModel "q" [] (Num 0) false "s" 0%Z
      = (Return resp, w') /\
    results resp = Some sr /\ answer sr = JStr "I cannot say." /\ confidence sr = JStr "low".
Proof.
  destruct (synthesize_unstructured_reply (replying "I cannot say." None) defaultModel "q" []
              (Num 0) false "s" 0%Z 0%Z 0%Z "I cannot say." [] [])
    as (resp & sr & Hrun & Hres & Hfields); [reflexivity..|].
  eexists resp, sr, _. split; [exact Hrun|]. split; [exact Hres|].
  unfold replyFields in Hfields. injection Hfields as Ha Hc _ _ _. by split.
Defined.

Lemma synthesize_non_object_reply_witness :
  exists w',
    synthesize (replying "null" (Some JNull)) defaultModel "q" [] (Num 0) false "s" 0%Z
      = (Throw "Cannot read properties of null (reading 'answer')", w').
Proof.
  exists 0%Z.
  apply (synthesize_non_object_reply (replying "null" (Some JNull)) defaultModel "q" []
           (Num 0) false "s" 0%Z 0%Z 0%Z "null" [] [] JNull); reflexivity.
Defined.

End SynthesizerMoreWitnesses.

(** ** Properties of the planner *)

Section NumbersInStrings.
Import Agent Agent.Planner.

Lemma digitValue_char d :
  (d < 10)%N -> digitValue 10 (pretty_N_char d) = Some d.
Proof.
  intros Hd.
  assert (Hcases : d = 0%N \/ d = 1%N \/ d = 2%N \/ d = 3%N \/ d = 4%N \/ d = 5%N \/
                   d = 6%N \/ d = 7%N \/ d = 8%N \/ d = 9%N) by lia.
  destruct Hcases as [->|[->|[->|[->|[->|[->|[->|[->|[->| ->]]]]]]]]]; reflexivity.
Qed.

Lemma isDigit_char d : isDigit (pretty_N_char d) = true.
Proof. unfold pretty_N_char. by repeat case_match. Qed.

Lemma readDigits_pretty_go x :
  (0 < x)%N -> forall s, readDigits 10 (pretty_N_go x s) None = readDigits 10 s (Some x).
Proof.
  induction (N.lt_wf_0 x) as [x _ IH]. intros Hx s.
  rewrite pretty_N_go_step by done.
  assert (Hmod : (x `mod` 10 < 10)%N) by (apply N.mod_lt; lia).
  pose proof (N.div_mod x 10 ltac:(lia)) as Hdm.
  destruct (decide (x `div` 10 = 0)%N) as [Hz|Hnz].
  - rewrite Hz, pretty_N_go_0. simpl. rewrite digitValue_char by done. simpl.
    do 2 f_equal. lia.
  - rewrite IH; [|apply N.div_lt; lia|lia].
    simpl. rewrite digitValue_char by done. simpl. do 2 f_equal. lia.
Qed.

Lemma allDigits_pretty_go x : forall s,
  allChars isDigit s = true -> allChars isDigit (pretty_N_go x s) = true.
Proof.
  induction (N.lt_wf_0 x) as [x _ IH]. intros s Hs.
  destruct (decide (x = 0)%N) as [->|Hx]; [by rewrite pretty_N_go_0|].
  rewrite pretty_N_go_step by lia. apply IH; [apply N.div_lt; lia|].
  simpl. by rewrite isDigit_char.
Qed.

Lemma pretty_go_nonempty x s : (0 < x)%N -> pretty_N_go x s <> EmptyString.
Proof.
  induction (N.lt_wf_0 x) as [x _ IH] in s |- *. intros Hx.
  rewrite pretty_N_go_step by done.
  destruct (decide (x `div` 10 = 0)%N) as [Hz|Hnz].
  - by rewrite Hz, pretty_N_go_0.
  - apply IH; [apply N.div_lt; lia|by apply N.neq_0_lt_0].
Qed.

(** A first byte that begins no white space stops [skipWhiteSpace]. *)
Lemma skipWhiteSpace_stops c0 r :
  isWhiteSpace c0 = false -> (forall c1, isWhiteSpace2 c0 c1 = false) ->
  (forall c1 c2, isWhiteSpace3 c0 c1 c2 = false) ->
  skipWhiteSpace (String c0 r) = String c0 r.
Proof.
  intros Hws Hw2 Hw3. simpl. rewrite Hws. destruct r as [|c1 r1]; [done|].
  rewrite Hw2. destruct r1 as [|c2 r2]; [done|]. by rewrite Hw3.
Qed.

(** Reading a string of digits that is not empty. *)
Lemma parseInt_digits s n :
  s <> EmptyString -> allChars isDigit s = true -> readDigits 10 s None = Some n ->
  parseInt s = Some (Z.of_N n) /\ parseInt (String "-" s) = Some (- Z.of_N n)%Z.
Proof.
  intros Hne Hall Hread.
  assert (Hdigit : forall c, isDigit c = true ->
            isWhiteSpace c = false /\ (code c =? 45)%N = false /\ (code c =? 43)%N = false /\
            (code c =? 120)%N = false /\ (code c =? 88)%N = false /\
            (forall c1, isWhiteSpace2 c c1 = false) /\
            (forall c1 c2, isWhiteSpace3 c c1 c2 = false)).
  { intros c. unfold isDigit, isWhiteSpace, isWhiteSpace2, isWhiteSpace3.
    intros [H1 H2]%andb_true_iff. apply N.leb_le in H1, H2.
    assert (H194 : (code c =? 194)%N = false) by (apply N.eqb_neq; lia).
    assert (H225 : (code c =? 225)%N = false) by (apply N.eqb_neq; lia).
    assert (H226 : (code c =? 226)%N = false) by (apply N.eqb_neq; lia).
    assert (H227 : (code c =? 227)%N = false) by (apply N.eqb_neq; lia).
    assert (H239 : (code c =? 239)%N = false) by (apply N.eqb_neq; lia).
    split; [rewrite orb_false_iff, andb_false_iff, N.eqb_neq, !N.leb_gt; lia|].
    repeat (split; [apply N.eqb_neq; lia|]).
    split; [intros c1; by rewrite H194|].
    intros c1 c2. by rewrite H225, H226, H227, H239. }
  assert (Hhex : hexPrefix s = None).
  { destruct s as [|c0 [|c1 r]]; try done. simpl in Hall.
    apply andb_true_iff in Hall as [_ [H1 _]%andb_true_iff].
    destruct (Hdigit c1 H1) as (_ & _ & _ & Hx & HX & _). simpl. rewrite Hx, HX.
    by rewrite andb_false_r. }
  destruct s as [|c r]; [done|].
  assert (Hc : isDigit c = true) by (simpl in Hall; by apply andb_true_iff in Hall as [? _]).
  destruct (Hdigit c Hc) as (Hws & Hminus & Hplus & _ & _ & Hw2 & Hw3).
  split.
  - unfold parseInt. rewrite (skipWhiteSpace_stops c r Hws Hw2 Hw3).
    rewrite Hminus, Hplus, Hhex, Hread. done.
  - unfold parseInt. rewrite (skipWhiteSpace_stops "-" (String c r)) by done.
    change (code "-" =? 45)%N with true. cbv beta iota.
    rewrite Hhex, Hread. done.
Qed.

Lemma parseInt_showZ i : parseInt (showZ i) = Some i.
Proof.
  assert (Hpos : forall p,
            parseInt (pretty_N_go (N.pos p) EmptyString) = Some (Z.pos p) /\
            parseInt (String "-" (pretty_N_go (N.pos p) EmptyString)) = Some (Z.neg p)).
  { intros p.
    apply (parseInt_digits (pretty_N_go (N.pos p) EmptyString) (N.pos p)).
    - by apply pretty_go_nonempty.
    - by apply allDigits_pretty_go.
    - by rewrite readDigits_pretty_go. }
  destruct i as [|p|p]; [reflexivity|apply Hpos..].
Qed.

Lemma showZ_no_underscore i :
  allChars (fun c => negb (Ascii.eqb c "_")) (showZ i) = true.
Proof.
  assert (Hgo : forall p, allChars (fun c => negb (Ascii.eqb c "_"))
                            (pretty_N_go (N.pos p) EmptyString) = true).
  { intros p. pose proof (allDigits_pretty_go (N.pos p) EmptyString eq_refl) as Hall.
    induction (pretty_N_go (N.pos p) EmptyString) as [|c r IH]; [done|].
    simpl in *. apply andb_true_iff in Hall as [Hc Hr]. rewrite IH by done.
    rewrite andb_true_r. apply negb_true_iff, Ascii.eqb_neq. intros ->. done. }
  destruct i as [|p|p]; [reflexivity|apply Hgo|].
  change (showZ (Z.neg p)) with (String "-" (pretty_N_go (N.pos p) EmptyString)).
  simpl. apply Hgo.
Qed.

Lemma splitOn_no_separator sep a :
  allChars (fun c => negb (Ascii.eqb c sep)) a = true -> splitOn sep a = [a].
Proof.
  induction a as [|c a IH]; [done|]. simpl. intros [Hc Ha]%andb_true_iff.
  apply negb_true_iff in Hc. by rewrite Hc, IH.
Qed.

Lemma splitOn_first sep a b :
  allChars (fun c => negb (Ascii.eqb c sep)) a = true ->
  splitOn sep (a ++ String sep b) = a :: splitOn sep b.
Proof.
  induction a as [|c a IH]; simpl.
  - intros _. by rewrite Ascii.eqb_refl.
  - intros [Hc Ha]%andb_true_iff. apply negb_true_iff in Hc. by rewrite Hc, IH.
Qed.

Lemma placeholder_index i : splitOn "_" (placeholder i) !! 1%nat = Some (showZ i).
Proof.
  unfold placeholder.
  change ("step_" ++ showZ i ++ "_pending")%string
    with ("step" ++ String "_" (showZ i ++ String "_" "pending"))%string.
  rewrite splitOn_first by reflexivity.
  rewrite splitOn_first by apply showZ_no_underscore.
  reflexivity.
Qed.

End NumbersInStrings.

Section PlannerMore.
Import Agent Agent.Planner AgentFacts.
Context {W : Type} (env : World W) (penv : PlannerWorld W).

Lemma uuid_eq (w : W) :
  uuid penv w = (Return (fst (uuidv4 penv w)), snd (uuidv4 penv w)).
Proof. unfold uuid. by destruct (uuidv4 penv w). Qed.

Lemma buildPlan_eq sessionId query' ss maxBudget (w : W) :
  buildPlan env penv sessionId query' ss maxBudget w =
  (Return {| session_id := sessionId; query := query'; steps := ss;
             step_count := Z.of_nat (length ss);
             total_estimated_cost := sumCosts penv ss;
             max_budget := maxBudget; created_at := fst (toISOString env w) |},
   snd (toISOString env w)).
Proof.
  unfold buildPlan. rewrite andThen_eq. unfold clock.
  by destruct (toISOString env w).
Qed.

Lemma validateTool_cases t :
  validateTool t = "anthropic" \/ validateTool t = "tavily" \/
  validateTool t = "blockchain_rpc" \/ validateTool t = "reasoning".
Proof.
  destruct t as [| | | |name| |]; simpl; auto.
  unfold validTools. simpl.
  destruct (String.eqb_spec name "anthropic") as [->|_]; [auto|].
  destruct (String.eqb_spec name "tavily") as [->|_]; [auto|].
  destruct (String.eqb_spec name "blockchain_rpc") as [->|_]; [auto|].
  destruct (String.eqb_spec name "reasoning") as [->|_]; auto.
Qed.

Lemma validateTool_known t :
  knownTool (validateTool t) = true /\
  COST_PER_TOOL (validateTool t) = Num (tableCost (validateTool t)) /\
  (0 < tableCost (validateTool t))%Q.
Proof.
  destruct (validateTool_cases t) as [->|[->|[->| ->]]]; by repeat split.
Qed.

(** A property read on a value that is neither [null] nor [undefined]. *)
Lemma prop_field (v : JSON) key (w : W) :
  v <> JUndefined -> v <> JNull -> prop v key w = (Return (field v key), w).
Proof. by destruct v. Qed.

Lemma usable_value raw : usable raw = true -> raw <> JUndefined /\ raw <> JNull.
Proof. by destruct raw. Qed.

Lemma usable_indices raw :
  usable raw = true ->
  orJSON (field raw "depends_on_indices") (JArr []) = JArr (indicesOf raw).
Proof.
  unfold usable, indicesOf.
  destruct raw; try done;
    by destruct (orJSON (field _ "depends_on_indices") (JArr [])).
Qed.

(** The callback on one element: a step, or a TypeError, after one
    identifier was drawn. *)
Lemma buildStep_outcome j raw (w : W) :
  if usable raw
  then exists step, buildStep penv (Z.of_nat j) raw w = (Return step, snd (uuidv4 penv w)) /\
                    stepWith (pending penv) j raw step
  else exists e, buildStep penv (Z.of_nat j) raw w = (Throw e, snd (uuidv4 penv w)).
Proof.
  unfold buildStep. rewrite andThen_eq, uuid_eq. cbv beta iota zeta.
  destruct (usable raw) eqn:Huse.
  - destruct (usable_value raw Huse) as [Hu Hn].
    rewrite andThen_eq, (prop_field raw "tool") by done. cbv beta iota.
    rewrite andThen_eq, (prop_field raw "description") by done. cbv beta iota.
    rewrite andThen_eq, (prop_field raw "depends_on_indices") by done. cbv beta iota.
    rewrite andThen_eq, (usable_indices raw Huse). simpl arrayOf. unfold pure at 1.
    cbv beta iota. eexists. split; [reflexivity|].
    unfold stepWith. simpl. split; [done|]. split; [by eexists|].
    split; [by intros d ->|]. done.
  - rewrite andThen_eq.
    destruct raw as [| |b|q|s|items|fields]; try discriminate Huse;
      try (eexists; reflexivity).
    simpl prop. unfold pure at 1. cbv beta iota.
    rewrite andThen_eq. simpl prop. unfold pure at 1. cbv beta iota.
    rewrite andThen_eq. simpl prop. unfold pure at 1. cbv beta iota.
    rewrite andThen_eq. unfold usable in Huse. simpl field in Huse.
    destruct (orJSON (lookupField "depends_on_indices" fields) (JArr []));
      try discriminate Huse; eexists; reflexivity.
Qed.

Lemma buildSteps_returns raws : forall j (w : W),
  forallb usable raws = true ->
  exists built w', buildSteps penv (Z.of_nat j) raws w = (Return built, w') /\
                   stepsFrom (pending penv) j raws built.
Proof.
  induction raws as [|raw raws IH]; intros j w Hall; simpl.
  - by eexists [], w.
  - simpl in Hall. apply andb_true_iff in Hall as [Hraw Hrest].
    pose proof (buildStep_outcome j raw w) as Hstep. rewrite Hraw in Hstep.
    destruct Hstep as (step & Hstep & Hwith).
    rewrite andThen_eq, Hstep. cbv beta iota.
    replace (Z.of_nat j + 1)%Z with (Z.of_nat (S j)) by lia.
    destruct (IH (S j) (snd (uuidv4 penv w)) Hrest) as (built & w' & Hbuilt & Hfrom).
    rewrite andThen_eq, Hbuilt. cbv beta iota. by eexists _, _.
Qed.

Lemma buildSteps_throws raws : forall j (w : W),
  forallb usable raws = false ->
  exists e w', buildSteps penv (Z.of_nat j) raws w = (Throw e, w').
Proof.
  induction raws as [|raw raws IH]; intros j w Hall; simpl; [done|].
  simpl in Hall. pose proof (buildStep_outcome j raw w) as Hstep.
  rewrite andThen_eq.
  destruct (usable raw).
  - destruct Hstep as (step & -> & _). cbv beta iota.
    replace (Z.of_nat j + 1)%Z with (Z.of_nat (S j)) by lia.
    destruct (IH (S j) (snd (uuidv4 penv w)) Hall) as (e & w' & Hthrow).
    rewrite andThen_eq, Hthrow. by eexists _, _.
  - destruct Hstep as (e & ->). by eexists _, _.
Qed.

Lemma stepsFrom_length dep j raws ss : stepsFrom dep j raws ss -> length ss = length raws.
Proof.
  revert j ss. induction raws as [|raw raws IH]; intros j [|s ss]; simpl; try done.
  intros [_ Hrest]. f_equal. by eapply IH.
Qed.

Lemma stepsFrom_take dep n : forall j raws ss,
  stepsFrom dep j raws ss -> stepsFrom dep j (take n raws) (take n ss).
Proof.
  induction n as [|n IH]; intros j [|raw raws] [|s ss]; simpl; try done.
  intros [Hs Hrest]. split; [done|]. by apply IH.
Qed.

Lemma stepsFrom_ids dep j raws ss :
  stepsFrom dep j raws ss -> Forall (fun s => id s <> EmptyString) ss.
Proof.
  revert j ss. induction raws as [|raw raws IH]; intros j [|s ss]; simpl; try done.
  intros [(_ & (suffix & Hid) & _) Hrest]. constructor; [by rewrite Hid|]. by eapply IH.
Qed.

Lemma stepsFrom_tools dep j raws ss :
  stepsFrom dep j raws ss ->
  Forall (fun s => knownTool (tool s) = true /\
                   COST_PER_TOOL (tool s) = Num (estimated_cost_usd s) /\
                   (0 < estimated_cost_usd s)%Q /\
                   tool_config s = defaultToolConfig (tool s)) ss.
Proof.
  revert j ss. induction raws as [|raw raws IH]; intros j [|s ss]; simpl; try done.
  intros [(_ & _ & _ & Ht & Hc & He & _) Hrest]. constructor; [|by eapply IH].
  rewrite He, Ht. destruct (validateTool_known (field raw "tool")) as (? & ? & ?).
  repeat split; try done. by rewrite Hc, Ht.
Qed.

Lemma stepsFrom_indices dep j raws ss :
  stepsFrom dep j raws ss -> map index ss = map Z.of_nat (seq j (length ss)).
Proof.
  revert j ss. induction raws as [|raw raws IH]; intros j [|s ss]; simpl; try done.
  intros [(Hi & _) Hrest]. f_equal; [done|]. by eapply IH.
Qed.

(** A dependency index that is printed in decimal. *)
Lemma resolveDependency_pending all i :
  printsIntegers penv -> (Z.abs i < 2 ^ 53)%Z ->
  Forall (fun s => id s <> EmptyString) all ->
  resolveDependency all (pending penv (JNum (inject_Z i))) = resolved (map id all) i.
Proof.
  intros Hprint Hsafe Hids.
  assert (Hp : pending penv (JNum (inject_Z i)) = placeholder i).
  { unfold pending, placeholder. by rewrite Hprint. }
  rewrite Hp. unfold resolveDependency, resolved.
  rewrite placeholder_index, parseInt_showZ, length_map.
  destruct (0 <=? i)%Z eqn:Hpos; [|done]. simpl. apply Z.leb_le in Hpos.
  rewrite list_lookup_fmap.
  destruct (all !! Z.to_nat i) as [s|] eqn:Hl; simpl.
  - apply lookup_lt_Some in Hl as Hlt.
    rewrite (proj2 (Z.ltb_lt _ _)) by lia.
    assert (Hne : id s <> EmptyString).
    { eapply Forall_forall in Hids; [exact Hids|]. by eapply list_elem_of_lookup_2. }
    unfold orElse. by destruct (id s).
  - apply lookup_ge_None in Hl. by rewrite (proj2 (Z.ltb_ge _ _)) by lia.
Qed.

Lemma resolveDependencies_steps all : forall j raws ss,
  stepsFrom (pending penv) j raws ss ->
  stepsFrom (fun i => resolveDependency all (pending penv i)) j raws
    (map (fun s => {| id := id s; index := index s; description := description s;
                      tool := tool s; tool_config := tool_config s;
                      estimated_cost_usd := estimated_cost_usd s;
                      depends_on := map (resolveDependency all) (depends_on s) |}) ss).
Proof.
  intros j raws. revert j.
  induction raws as [|raw raws IH]; intros j [|s ss]; simpl; try done.
  intros [(Hi & Hid & Hd & Ht & Hc & He & Hdeps) Hrest]. split; [|by apply IH].
  unfold stepWith. simpl. repeat (split; [done|]).
  by rewrite Hdeps, map_map.
Qed.

Lemma map_id_resolveDependencies all : map id (resolveDependencies all) = map id all.
Proof. unfold resolveDependencies. rewrite map_map. by apply map_ext. Qed.

Lemma trimSteps_prefix l : forall b, exists n, trimSteps penv b l = take n l /\ (n <= length l)%nat.
Proof.
  induction l as [|s l IH]; intros b; simpl.
  - by exists 0%nat.
  - destruct (fge (arith penv) b (estimated_cost_usd s)).
    + destruct (IH (fsub (arith penv) b (estimated_cost_usd s))) as (n & -> & Hn).
      exists (S n). split; [done|]. lia.
    + exists 0%nat. split; [done|]. lia.
Qed.

(** [generatePlan], by the reply of the model. *)
Lemma generatePlan_eq model' query' maxBudget (w : W) :
  generatePlan env penv model' query' maxBudget w =
  match messages_create env (planningRequest model' query') (snd (uuidv4 penv w)) with
  | (Throw e, w1) => (Throw e, w1)
  | (Return [], w1) => (Throw "Cannot read properties of undefined (reading 'type')", w1)
  | (Return (content :: _), w1) =>
      if negb (String.eqb (block_type content) "text")
      then (Throw "Unexpected response type from planning LLM", w1)
      else match JSON_parse env (jsonText env (block_text content)) with
           | None => (Throw ("Failed to parse planning response as JSON: "
                             ++ String_slice penv (jsonText env (block_text content)) 200)%string,
                      w1)
           | Some rawPlan => planFrom env penv (fst (uuidv4 penv w)) query' maxBudget rawPlan w1
           end
  end.
Proof.
  unfold generatePlan. rewrite andThen_eq, uuid_eq. cbv beta iota.
  rewrite andThen_eq.
  destruct (messages_create env _ _) as [[[|content rest]|e] w1]; try reflexivity.
  destruct (negb (String.eqb (block_type content) "text")); [reflexivity|].
  rewrite andThen_eq. unfold parseJSON, jsonText.
  destruct (JSON_parse env _); reflexivity.
Qed.

(** A reply that is not plannable: a TypeError. *)
Lemma planFrom_throws sessionId query' maxBudget rawPlan (w1 : W) :
  plannable rawPlan = false ->
  exists e w', planFrom env penv sessionId query' maxBudget rawPlan w1 = (Throw e, w').
Proof.
  unfold plannable, planFrom. intros Hplan. rewrite andThen_eq.
  destruct rawPlan as [| |b|q|s|items|fields]; try (eexists _, _; reflexivity).
  simpl prop. unfold pure at 1. cbv beta iota. simpl field in Hplan.
  rewrite andThen_eq.
  destruct (lookupField "steps" fields) as [| |b|q|s|raws|fs];
    try (eexists _, _; reflexivity).
  simpl arrayOf. unfold pure at 1. cbv beta iota. rewrite andThen_eq.
  destruct (buildSteps_throws raws 0 w1 Hplan) as (e & w' & Hthrow).
  change (Z.of_nat 0) with 0%Z in Hthrow. rewrite Hthrow. by eexists _, _.
Qed.

(** What becomes of a reply whose [steps] is an array of usable
    elements. *)
Lemma plan_of_reply sessionId query' maxBudget rawPlan raws (w1 : W) :
  field rawPlan "steps" = JArr raws -> forallb usable raws = true ->
  exists plan w' ids dep,
    planFrom env penv sessionId query' maxBudget rawPlan w1 = (Return plan, w') /\
    session_id plan = sessionId /\ query plan = query' /\ max_budget plan = maxBudget /\
    step_count plan = Z.of_nat (length (steps plan)) /\
    total_estimated_cost plan = sumCosts penv (steps plan) /\
    length ids = length raws /\
    (length (steps plan) <= length raws)%nat /\
    map id (steps plan) = take (length (steps plan)) ids /\
    stepsFrom dep 0 (take (length (steps plan)) raws) (steps plan) /\
    (printsIntegers penv ->
     forall i, (Z.abs i < 2 ^ 53)%Z -> dep (JNum (inject_Z i)) = resolved ids i).
Proof.
  intros Hfield Huse.
  destruct (buildSteps_returns raws 0 w1 Huse) as (built & w2 & Hbuilt & Hsteps).
  unfold planFrom. rewrite andThen_eq, prop_field, Hfield
    by (intros ->; discriminate Hfield).
  cbv beta iota. rewrite andThen_eq. simpl arrayOf. unfold pure at 1. cbv beta iota.
  rewrite andThen_eq. change (Z.of_nat 0) with 0%Z in Hbuilt. rewrite Hbuilt.
  cbv beta iota zeta.
  pose proof (stepsFrom_ids _ _ _ _ Hsteps) as Hids.
  pose proof (resolveDependencies_steps built 0 _ _ Hsteps) as Hall.
  fold (resolveDependencies built) in Hall.
  set (all := resolveDependencies built) in *.
  set (dep := fun i => resolveDependency built (pending penv i)) in *.
  pose proof (stepsFrom_length _ _ _ _ Hall) as Hlen.
  assert (Hmap : map id all = map id built) by apply map_id_resolveDependencies.
  assert (Hdep : printsIntegers penv ->
                 forall i, (Z.abs i < 2 ^ 53)%Z ->
                 dep (JNum (inject_Z i)) = resolved (map id built) i).
  { intros Hprint i Hi. by apply resolveDependency_pending. }
  assert (Hgen : forall n, (n <= length all)%nat ->
    length (take n all) = n /\
    map id (take n all) = take n (map id built) /\
    stepsFrom dep 0 (take n raws) (take n all)).
  { intros n Hn. split; [rewrite length_take; lia|].
    split; [by rewrite <- Hmap, <- fmap_take|]. by apply stepsFrom_take. }
  assert (Hids' : length (map id built) = length raws).
  { by rewrite <- Hmap, length_map. }
  destruct (fgt (arith penv) (sumCosts penv all) maxBudget) eqn:Hgt.
  - destruct (trimSteps_prefix all maxBudget) as (n & Htrim & Hn).
    rewrite buildPlan_eq. eexists _, _, (map id built), dep. split; [reflexivity|]. simpl.
    destruct (Hgen n Hn) as (Hl & Hi & Hs). rewrite Htrim, Hl.
    repeat (split; [done|]). split; [lia|]. by repeat split.
  - rewrite buildPlan_eq. eexists _, _, (map id built), dep. split; [reflexivity|]. simpl.
    destruct (Hgen (length all) (le_n _)) as (Hl & Hi & Hs).
    rewrite firstn_all in Hi, Hs.
    repeat (split; [done|]). split; [lia|]. by repeat split.
Qed.

Lemma plannable_steps rawPlan :
  plannable rawPlan = true ->
  exists raws, field rawPlan "steps" = JArr raws /\ forallb usable raws = true.
Proof.
  unfold plannable. destruct (field rawPlan "steps"); try done. by eexists.
Qed.


(** X18.  Every step of a plan that [generatePlan] returns, whatever the
    model replied, has a tool that [executeTool] dispatches on, the
    default configuration of that tool, and as estimate the positive
    amount [COST_PER_TOOL] holds for it, which is what the scheduler
    charges when the step completes.  The indices of the steps are their
    positions and [step_count] is their number. *)
Theorem planned_steps_run_at_table_cost model' query' maxBudget (w : W) plan w' :
  generatePlan env penv model' query' maxBudget w = (Return plan, w') ->
  Forall (fun s => knownTool (tool s) = true /\
                   COST_PER_TOOL (tool s) = Num (estimated_cost_usd s) /\
                   (0 < estimated_cost_usd s)%Q /\
                   tool_config s = defaultToolConfig (tool s)) (steps plan) /\
  map index (steps plan) = map Z.of_nat (seq 0 (length (steps plan))) /\
  step_count plan = Z.of_nat (length (steps plan)).
Proof.
  rewrite generatePlan_eq.
  destruct (messages_create env _ _) as [[[|content rest]|e] w1]; try done.
  destruct (negb (String.eqb (block_type content) "text")); [done|].
  destruct (JSON_parse env _) as [rawPlan|]; [|done].
  destruct (plannable rawPlan) eqn:Hplan.
  - destruct (plannable_steps rawPlan Hplan) as (raws & Hfield & Huse).
    destruct (plan_of_reply (fst (uuidv4 penv w)) query' maxBudget rawPlan raws w1 Hfield Huse)
      as (plan' & w2 & ids & dep & -> & _ & _ & _ & Hcount & _ & _ & _ & _ & Hsteps & _).
    intros [= <- <-]. split; [by eapply stepsFrom_tools|].
    split; [by eapply stepsFrom_indices|done].
  - destruct (planFrom_throws (fst (uuidv4 penv w)) query' maxBudget rawPlan w1 Hplan)
      as (e & w2 & ->).
    done.
Qed.


End PlannerMore.

Section PlannerMoreWitnesses.
Import Agent Agent.Planner AgentFacts.


Lemma planned_steps_run_at_table_cost_witness :
  exists plan w',
    generatePlan (replying threeStepsText (Some (JObj [("steps", JArr threeSteps)])))
                 demoPlanner "claude-sonnet-4-20250514" "q" 1 0%Z = (Return plan, w') /\
    Forall (fun s => knownTool (tool s) = true) (steps plan) /\
    length (steps plan) = 3%nat.
Proof.
  destruct (generatePlan (replying threeStepsText (Some (JObj [("steps", JArr threeSteps)])))
              demoPlanner "claude-sonnet-4-20250514" "q" 1 0%Z) as [[plan|e] w'] eqn:Hrun;
    [|vm_compute in Hrun; discriminate Hrun].
  destruct (planned_steps_run_at_table_cost _ _ _ _ _ _ _ _ Hrun) as (Hall & _ & _).
  exists plan, w'. split; [reflexivity|]. split.
  - eapply Forall_impl; [exact Hall|]. by intros s (? & _).
  - vm_compute in Hrun. by injection Hrun as <- _.
Defined.


End PlannerMoreWitnesses.
